(** * Grainlify: escrow pipeline and wallet-signature verifier

    A shallow embedding of the Go back end that drives the Soroban
    escrow contracts ([backend/internal/soroban], [backend/internal/auth])
    and of the program-escrow ledger state machine, together with the
    properties the project specification states about them.

    Conventions.
    - A Go [string] is a byte sequence: [string] of 8-bit [ascii].
    - Go integers are [Z]; conversions that wrap are written out.
    - [time.Duration] and [time.Time] are [Z] nanoseconds.
    - A [float64] is a binary64 number of the IEEE-754 specification of
      the Standard Library ([SpecFloat], 53 bits of precision).
    - A Go [(T, error)] result is a [result T]; a bare [error] is an
      [option error] ([None] is [nil]).
    - Network calls, the context and the clock are oracles of an
      environment record, indexed by how many calls of that kind were
      made before; the code threads counters and an event trace. *)

From Stdlib Require Import ZArith QArith Lia List String Ascii Bool.
From Stdlib Require Import SpecFloat.
From stdpp Require Import gmap strings list.

Set Warnings "-register-all".
Local Open Scope string_scope.
Local Open Scope list_scope.
Local Open Scope Z_scope.

(* ===================================================================== *)
(** ** Go values shared by the packages                                   *)
(* ===================================================================== *)

Module Go.

(** A decoded JSON value held in an [interface{}]. *)
Inductive value :=
| VNil
| VBool (b : bool)
| VNumber (q : Q)
| VString (s : string)
| VArray (l : list value)
| VObject (m : gmap string value).

(** [horizonclient.Error] carries a [problem.P]; only the fields the
    code reads are kept. *)
Record Problem := {
  Detail : string;
  Extras : gmap string value
}.

Inductive error :=
| ErrNew (msg : string)
    (* fmt.Errorf(msg) without a wrapped cause, or any opaque error *)
| ErrWrap (msg : string) (cause : error)
    (* fmt.Errorf(msg + ": %w", cause) *)
| ErrWrapAt (msg : string) (index : Z) (cause : error)
    (* fmt.Errorf(msg + " %d: %w", index, cause) *)
| ErrAttempts (attempts : Z) (last : option error)
    (* fmt.Errorf("transaction submission failed after %d attempts: %w", attempts, last) *)
| ErrHorizon (p : Problem)
    (* a *horizonclient.Error *)
| ErrCanceled
    (* context.Canceled *)
| ErrDeadlineExceeded.
    (* context.DeadlineExceeded *)

Inductive result (A : Type) :=
| Ok (a : A)
| Err (e : error).
Arguments Ok {A} a.
Arguments Err {A} e.

Definition is_ok {A} (r : result A) : bool :=
  match r with Ok _ => true | Err _ => false end.

(** The byte value of a character. *)
Definition code (c : ascii) : Z := Z.of_N (N_of_ascii c).

Definition in_range (lo hi : Z) (c : ascii) : bool :=
  (lo <=? code c) && (code c <=? hi).

(** Value of a hexadecimal digit, if it is one. *)
Definition hex_val (c : ascii) : option Z :=
  if in_range 48 57 c then Some (code c - 48)
  else if in_range 97 102 c then Some (code c - 87)
  else if in_range 65 70 c then Some (code c - 55)
  else None.

Definition is_hex (c : ascii) : bool :=
  match hex_val c with Some _ => true | None => false end.

Fixpoint string_of_list (l : list ascii) : string :=
  match l with
  | [] => EmptyString
  | c :: l' => String c (string_of_list l')
  end.

Fixpoint list_of_string (s : string) : list ascii :=
  match s with
  | EmptyString => []
  | String c s' => c :: list_of_string s'
  end.

(** [len(s)] *)
Definition len (s : string) : Z := Z.of_nat (String.length s).

(** *** fmt.Sscanf(s, "%02x", &b) with [b] a byte

    The scanner first discards leading blanks (a newline is an error),
    then reads at most two hexadecimal digits, at least one, and stops at
    the first other character; what is left of the input is not looked
    at.  Two hexadecimal digits always fit a byte. *)

(** Blanks the scanner skips: tab, vertical tab, form feed, carriage
    return and space. *)
Definition scan_blank (c : ascii) : bool :=
  let n := code c in
  (n =? 9) || (n =? 11) || (n =? 12) || (n =? 13) || (n =? 32).

Fixpoint skip_blanks (s : list ascii) : option (list ascii) :=
  match s with
  | [] => Some []
  | c :: s' =>
      if code c =? 10 then None
      else if scan_blank c then skip_blanks s'
      else Some s
  end.

(** At most [width] hexadecimal digits from the front of [s], most
    significant first; [acc] is the value read so far. *)
Fixpoint scan_hex_digits (width : nat) (s : list ascii) (acc : Z) : Z :=
  match width, s with
  | S w, c :: s' =>
      match hex_val c with
      | Some d => scan_hex_digits w s' (16 * acc + d)
      | None => acc
      end
  | _, _ => acc
  end.

Definition Sscanf_02x (s : string) : option Z :=
  match skip_blanks (list_of_string s) with
  | Some (c :: rest) =>
      if is_hex c then Some (scan_hex_digits 2 (c :: rest) 0) else None
  | _ => None
  end.

(** *** base64.StdEncoding.DecodeString

    Standard alphabet, padding with [=], not strict.  Carriage returns
    and newlines are skipped wherever they occur; what remains must be
    groups of four alphabet characters, the last of which may end in one
    or two padding characters. *)

Definition b64_val (c : ascii) : option Z :=
  if in_range 65 90 c then Some (code c - 65)
  else if in_range 97 122 c then Some (code c - 71)
  else if in_range 48 57 c then Some (code c + 4)
  else if code c =? 43 then Some 62
  else if code c =? 47 then Some 63
  else None.

Definition is_crlf (c : ascii) : bool := (code c =? 10) || (code c =? 13).

Definition is_pad (c : ascii) : bool := code c =? 61.

(** The 24-bit value of a quantum. *)
Definition b64_quantum (x y z w : Z) : Z :=
  Z.lor (Z.lor (Z.lor (Z.shiftl x 18) (Z.shiftl y 12)) (Z.shiftl z 6)) w.

Definition byte_at (v : Z) (shift : Z) : Z := Z.land (Z.shiftr v shift) 255.

Fixpoint b64_groups (s : list ascii) : option (list Z) :=
  match s with
  | [] => Some []
  | a :: b :: c :: d :: rest =>
      match b64_val a, b64_val b with
      | Some x, Some y =>
          match b64_val c, b64_val d with
          | Some z, Some w =>
              match b64_groups rest with
              | Some bytes =>
                  let v := b64_quantum x y z w in
                  Some (byte_at v 16 :: byte_at v 8 :: byte_at v 0 :: bytes)
              | None => None
              end
          | Some z, None =>
              if is_pad d && match rest with [] => true | _ => false end
              then let v := b64_quantum x y z 0 in
                   Some [byte_at v 16; byte_at v 8]
              else None
          | None, _ =>
              if is_pad c && is_pad d && match rest with [] => true | _ => false end
              then let v := b64_quantum x y 0 0 in
                   Some [byte_at v 16]
              else None
          end
      | _, _ => None
      end
  | _ => None
  end.

Definition base64_DecodeString (s : string) : option (list Z) :=
  b64_groups (List.filter (fun c => negb (is_crlf c)) (list_of_string s)).

(** *** base64.StdEncoding.EncodeToString

    The canonical encoding, used to say what "the base64 encoding of
    32 bytes" is. *)

Definition b64_char (i : Z) : ascii :=
  ascii_of_N (Z.to_N (if i <? 26 then i + 65
                      else if i <? 52 then i + 71
                      else if i <? 62 then i - 4
                      else if i =? 62 then 43 else 47)).

Definition pad_char : ascii := ascii_of_N 61.

Fixpoint b64_encode (bytes : list Z) : list ascii :=
  match bytes with
  | [] => []
  | [a] =>
      [ b64_char (Z.shiftr a 2);
        b64_char (Z.shiftl (Z.land a 3) 4);
        pad_char; pad_char ]
  | [a; b] =>
      [ b64_char (Z.shiftr a 2);
        b64_char (Z.lor (Z.shiftl (Z.land a 3) 4) (Z.shiftr b 4));
        b64_char (Z.shiftl (Z.land b 15) 2);
        pad_char ]
  | a :: b :: c :: rest =>
      b64_char (Z.shiftr a 2)
      :: b64_char (Z.lor (Z.shiftl (Z.land a 3) 4) (Z.shiftr b 4))
      :: b64_char (Z.lor (Z.shiftl (Z.land b 15) 2) (Z.shiftr c 6))
      :: b64_char (Z.land c 63)
      :: b64_encode rest
  end.

Definition base64_EncodeToString (bytes : list Z) : string :=
  string_of_list (b64_encode bytes).

(** A byte string: every element is in [0, 256). *)
Definition is_bytes (bytes : list Z) : Prop :=
  Forall (fun b => 0 <= b < 256) bytes.

(** *** strings.TrimSpace, strings.TrimPrefix, strings.ToLower *)

(** The UTF-8 encodings of the white-space runes above U+007F:
    U+0085, U+00A0, U+1680, U+2000..U+200A, U+2028, U+2029, U+202F,
    U+205F and U+3000. *)
Definition unicode_spaces : list (list Z) :=
  [ [194; 133]; [194; 160]; [225; 154; 128];
    [226; 128; 128]; [226; 128; 129]; [226; 128; 130]; [226; 128; 131];
    [226; 128; 132]; [226; 128; 133]; [226; 128; 134]; [226; 128; 135];
    [226; 128; 136]; [226; 128; 137]; [226; 128; 138];
    [226; 128; 168]; [226; 128; 169]; [226; 128; 175];
    [226; 129; 159]; [227; 128; 128] ].

Definition ascii_space (c : ascii) : bool :=
  let n := code c in
  ((9 <=? n) && (n <=? 13)) || (n =? 32).

(** [Some rest] when [s] starts with the bytes [p]. *)
Fixpoint strip_bytes (p : list Z) (s : list ascii) : option (list ascii) :=
  match p, s with
  | [], _ => Some s
  | b :: p', c :: s' => if code c =? b then strip_bytes p' s' else None
  | _ :: _, [] => None
  end.

Fixpoint strip_any (ps : list (list Z)) (s : list ascii) : option (list ascii) :=
  match ps with
  | [] => None
  | p :: ps' =>
      match strip_bytes p s with
      | Some rest => Some rest
      | None => strip_any ps' s
      end
  end.

(** One leading white-space rune removed, if there is one. *)
Definition strip_space (ps : list (list Z)) (s : list ascii) : option (list ascii) :=
  match s with
  | c :: s' => if ascii_space c then Some s' else strip_any ps s
  | [] => None
  end.

Fixpoint trim_left (ps : list (list Z)) (fuel : nat) (s : list ascii) : list ascii :=
  match fuel with
  | O => s
  | S fuel' =>
      match strip_space ps s with
      | Some rest => trim_left ps fuel' rest
      | None => s
      end
  end.

(** Trailing white space is leading white space of the reversed bytes,
    with every multi-byte pattern reversed as well. *)
Definition TrimSpace (s : string) : string :=
  let l := list_of_string s in
  let l1 := trim_left unicode_spaces (List.length l) l in
  let r := trim_left (List.map (@rev Z) unicode_spaces) (List.length l1) (rev l1) in
  string_of_list (rev r).

Fixpoint has_prefix (p s : list ascii) : option (list ascii) :=
  match p, s with
  | [], _ => Some s
  | a :: p', c :: s' => if Ascii.eqb a c then has_prefix p' s' else None
  | _ :: _, [] => None
  end.

Definition TrimPrefix (s prefix : string) : string :=
  match has_prefix (list_of_string prefix) (list_of_string s) with
  | Some rest => string_of_list rest
  | None => s
  end.

Definition lower (c : ascii) : ascii :=
  if in_range 65 90 c then ascii_of_N (N_of_ascii c + 32) else c.

(** [strings.ToLower] on the bytes below 0x80.  Go maps the other runes
    through the Unicode tables; none of them lowers to a digit, to a
    letter [a]..[f] or to [x], so a comparison of the result with a
    lower-case hexadecimal address is decided as written here. *)
Fixpoint ToLower (s : string) : string :=
  match s with
  | EmptyString => EmptyString
  | String c s' => String (lower c) (ToLower s')
  end.

(** *** encoding/hex and go-ethereum's hexutil *)

Fixpoint hex_pairs (s : list ascii) : result (list Z) :=
  match s with
  | [] => Ok []
  | [c] =>
      (* an invalid character is reported before the odd length *)
      if is_hex c then Err (ErrNew "encoding/hex: odd length hex string")
      else Err (ErrNew "encoding/hex: invalid byte")
  | p :: q :: rest =>
      match hex_val p, hex_val q with
      | Some a, Some b =>
          match hex_pairs rest with
          | Ok bytes => Ok (16 * a + b :: bytes)
          | Err e => Err e
          end
      | _, _ => Err (ErrNew "encoding/hex: invalid byte")
      end
  end.

Definition hex_DecodeString (s : string) : result (list Z) :=
  hex_pairs (list_of_string s).

(** [hexutil.Decode]: the input must start with [0x] or [0X]. *)
Definition hexutil_Decode (input : string) : result (list Z) :=
  match list_of_string input with
  | [] => Err (ErrNew "empty hex string")
  | c0 :: c1 :: rest =>
      if (code c0 =? 48) && ((code c1 =? 120) || (code c1 =? 88))
      then hex_pairs rest
      else Err (ErrNew "hex string without 0x prefix")
  | _ => Err (ErrNew "hex string without 0x prefix")
  end.

(** [hex.EncodeToString]: two lower-case digits for each byte, the high
    four bits first. *)
Definition hex_digit (d : Z) : ascii :=
  ascii_of_N (Z.to_N (if d <? 10 then d + 48 else d + 87)).

Fixpoint hex_encode (bytes : list Z) : list ascii :=
  match bytes with
  | [] => []
  | b :: rest =>
      hex_digit (Z.shiftr b 4) :: hex_digit (Z.land b 15) :: hex_encode rest
  end.

Definition hex_EncodeToString (bytes : list Z) : string :=
  string_of_list (hex_encode bytes).

(** [strings.HasPrefix] *)
Definition HasPrefix (s prefix : string) : bool :=
  match has_prefix (list_of_string prefix) (list_of_string s) with
  | Some _ => true
  | None => false
  end.

(** Every byte is below 0x80 ([utf8.RuneSelf]). *)
Definition is_ascii (s : string) : bool :=
  forallb (fun c => code c <? 128) (list_of_string s).

(** [strings.ToLower] on every string.  A string of bytes below 0x80
    takes the byte-wise path ([ToLower] above); any other string is
    mapped rune by rune, [strings.Map(unicode.ToLower, s)], which is the
    parameter [unicode_lower]. *)
Definition strings_ToLower (unicode_lower : string -> string) (s : string) : string :=
  if is_ascii s then ToLower s else unicode_lower s.

(** *** float64 *)

(** IEEE-754 binary64: 53 bits of precision, exponents below 1024,
    results rounded to nearest, ties to even. *)
Definition float64 := spec_float.

(** [float64(x)] of an integer: the nearest float64. *)
Definition float64_of_int (x : Z) : float64 := binary_normalize 53 1024 x 0 false.

(** [x * y] on float64 values. *)
Definition float64_mul (x y : float64) : float64 := SFmul 53 1024 x y.

(** The value of a finite float64 with its fraction discarded (rounded
    toward zero); [None] for an infinity or a NaN. *)
Definition float64_trunc (f : float64) : option Z :=
  match f with
  | S754_zero _ => Some 0
  | S754_finite s m e =>
      let a := if 0 <=? e then Z.pos m * 2 ^ e else Z.pos m / 2 ^ (- e) in
      Some (if s then - a else a)
  | _ => None
  end.

(** [int64(f)] of a float64: the fraction is discarded.  When the value
    does not fit an [int64] the language leaves the result to the
    implementation; the value here is the one of amd64, where the
    conversion instruction then yields the smallest [int64]. *)
Definition int64_of_float64 (f : float64) : Z :=
  match float64_trunc f with
  | Some z => if (- 2 ^ 63 <=? z) && (z <? 2 ^ 63) then z else - 2 ^ 63
  | None => - 2 ^ 63
  end.

End Go.

Import Go.

(* ===================================================================== *)
(** ** Package soroban: transaction builder and confirmation poller       *)
(* ===================================================================== *)

Module Soroban.

(** [time.Duration]: nanoseconds. *)
Definition Duration := Z.
Definition Second : Duration := 1000000000.

(** [RetryConfig] is declared elsewhere in the package; its fields are
    the ones [submitWithRetry] reads. *)
Record RetryConfig := {
  MaxRetries : Z;
  InitialDelay : Duration;
  MaxDelay : Duration;
  BackoffMultiplier : float64
}.

(** Modelled from the spec: the function [DefaultRetryConfig], declared
    with [RetryConfig] elsewhere in the package; the values are those of
    section 4.4 (3 retries, 1s initial delay, 30s cap, multiplier 2.0),
    which [TestDefaultRetryConfig] asserts. *)
Definition DefaultRetryConfig : RetryConfig :=
  {| MaxRetries := 3;
     InitialDelay := 1 * Second;
     MaxDelay := 30 * Second;
     BackoffMultiplier := float64_of_int 2 |}.

(** The Horizon transaction resource, as far as the code reads it;
    [tx_Successful] is the on-ledger outcome. *)
Record Transaction := {
  tx_Hash : string;
  tx_Ledger : Z;
  tx_Successful : bool
}.

Record TransactionResult := {
  Hash : string;
  Ledger : Z;
  Status : string;
  Submitted : option Z;
  Confirmed : option Z
}.

Inductive ScAddressType := ScAddressTypeAccount | ScAddressTypeContract.

(** [xdr.ScAddress]; a [xdr.Hash] is 32 bytes. *)
Record ScAddress := {
  Type_ : ScAddressType;
  ContractId : option (list Z)
}.

Inductive ScVal :=
| ScvString (s : string)
| ScvI64 (i : Z)
| ScvU64 (u : Z)
| ScvAddress (a : string)
| ScvVec (l : list ScVal).

Record Operation := {
  op_contract : ScAddress;
  op_function : string;
  op_args : list ScVal
}.

Record Account := {
  acc_id : string;
  acc_sequence : Z
}.

(** A built (and possibly signed) transaction envelope. *)
Record Tx := {
  tx_source : string;
  tx_sequence : Z;
  tx_operations : list Operation;
  tx_signed : bool
}.

(** Which case of a [select] statement is taken: the context's [Done]
    channel, or the timer / ticker channel. *)
Inductive select_case := CaseDone | CaseTimer.

(** Why a context is done.  By the contract of [context.Context], once
    [Done] is closed [Err] returns [Canceled] or [DeadlineExceeded]. *)
Inductive ctx_reason := Canceled | DeadlineExceeded.

(** The world outside the process.  Each oracle answers the n-th call of
    its kind (counted from 0). *)
Record Env := {
  env_AccountDetail : result Account;
  env_NewTransaction : Account -> list Operation -> result Tx;
  env_Sign : Tx -> result Tx;
  env_SubmitTransaction : nat -> Tx -> result Transaction;
  env_TransactionDetail : nat -> string -> result Transaction;
  env_GetTransactionStatus : nat -> string -> result (gmap string value);
  env_select : nat -> select_case;
  env_ctx_reason : ctx_reason;
  env_now : nat -> Z
}.

(** [ctx.Err()] once the context is done. *)
Definition env_ctx_err (env : Env) : error :=
  match env_ctx_reason env with
  | Canceled => ErrCanceled
  | DeadlineExceeded => ErrDeadlineExceeded
  end.

Inductive event :=
| EvSubmit (tx : Tx)
| EvSleep (d : Duration)
| EvCtxDone
| EvNewTicker (period : Duration)
| EvTick
| EvTransactionDetail (hash : string)
| EvGetTransactionStatus (hash : string)
| EvLog (level : string) (msg : string).

(** Call counters and the event trace (oldest event first). *)
Record State := {
  st_submits : nat;
  st_details : nat;
  st_statuses : nat;
  st_selects : nat;
  st_clock_reads : nat;
  st_events : list event
}.

Definition init_state : State :=
  {| st_submits := 0; st_details := 0; st_statuses := 0; st_selects := 0;
     st_clock_reads := 0; st_events := [] |}.

(** State-passing computations. *)
Definition M (A : Type) : Type := State -> A * State.

Definition ret {A} (a : A) : M A := fun st => (a, st).

Definition bind {A B} (m : M A) (k : A -> M B) : M B :=
  fun st => let (a, st') := m st in k a st'.

Notation "x <- m ;; k" := (bind m (fun x => k))
  (at level 100, m at next level, right associativity).
Notation "m ;;; k" := (bind m (fun _ => k))
  (at level 100, right associativity).

(** One pass through a loop body either returns from the function or
    goes round again with new values of the loop variables. *)
Inductive step (R V : Type) :=
| Return (r : R)
| Continue (v : V).
Arguments Return {R V} r.
Arguments Continue {R V} v.

Definition record_event (e : event) (st : State) : State :=
  {| st_submits := st_submits st; st_details := st_details st;
     st_statuses := st_statuses st; st_selects := st_selects st;
     st_clock_reads := st_clock_reads st;
     st_events := st_events st ++ [e] |}.

Definition emit (e : event) : M unit := fun st => (tt, record_event e st).

Definition slog (level msg : string) : M unit := emit (EvLog level msg).

(** [uint32(x)] of an integer. *)
Definition uint32 (x : Z) : Z := x mod 2 ^ 32.

(** [time.Duration(float64(delay) * m)]: the delay is rounded to a
    float64, the product is rounded again, and the conversion back to an
    integer discards the fraction. *)
Definition scale (delay : Duration) (m : float64) : Duration :=
  int64_of_float64 (float64_mul (float64_of_int delay) m).

(** Lines 86-89 of tx.go: the delay for the next retry. *)
Definition next_delay (cfg : RetryConfig) (delay : Duration) : Duration :=
  let d := scale delay (BackoffMultiplier cfg) in
  if d >? MaxDelay cfg then MaxDelay cfg else d.

Definition nonRetryableCodes : list string :=
  ["tx_bad_auth"; "tx_bad_seq"; "tx_insufficient_balance"; "tx_no_source_account"].

(** [transactionCode == code] for some code of the list. *)
Definition code_listed (transactionCode : string) (codes : list string) : bool :=
  existsb (String.eqb transactionCode) codes.

(** [isNonRetryableError]: the two type assertions succeed only on a JSON
    object and on a JSON string. *)
Definition isNonRetryableError (herr : Problem) : bool :=
  match Extras herr !! "result_codes" with
  | Some (VObject resultCodes) =>
      match resultCodes !! "transaction" with
      | Some (VString transactionCode) =>
          code_listed transactionCode nonRetryableCodes
      | _ => false
      end
  | _ => false
  end.

(** The fatal set in the words of the specification: the Horizon problem
    carries a transaction result code, and that code is one of the four. *)
Definition transaction_result_code (p : Problem) (c : string) : Prop :=
  exists resultCodes,
    Extras p !! "result_codes" = Some (VObject resultCodes) /\
    resultCodes !! "transaction" = Some (VString c).

Definition fatal (p : Problem) : Prop :=
  exists c,
    transaction_result_code p c /\
    (c = "tx_bad_auth" \/ c = "tx_bad_seq" \/
     c = "tx_insufficient_balance" \/ c = "tx_no_source_account").

(** A submission error that the loop retries. *)
Definition retryable (e : error) : Prop :=
  match e with
  | ErrHorizon p => ~ fatal p
  | _ => True
  end.

(** The delays of the timers that fired, oldest first. *)
Definition sleeps (evs : list event) : list Duration :=
  omap (fun e => match e with EvSleep d => Some d | _ => None end) evs.

(** The number of submissions recorded in a trace. *)
Definition is_submit (e : event) : bool :=
  match e with EvSubmit _ => true | _ => false end.

Definition submissions (evs : list event) : nat :=
  List.length (List.filter is_submit evs).

(** The schedule in the words of the claim: the delay before retry [k],
    for [k] from 1. *)
Definition claimed_delay (cfg : RetryConfig) (k : Z) : Duration :=
  Z.min (InitialDelay cfg * 2 ^ (k - 1)) (MaxDelay cfg).

Section WithEnv.

Variable env : Env.

(** [time.Now()] *)
Definition time_Now : M Z := fun st =>
  (env_now env (st_clock_reads st),
   {| st_submits := st_submits st; st_details := st_details st;
      st_statuses := st_statuses st; st_selects := st_selects st;
      st_clock_reads := S (st_clock_reads st); st_events := st_events st |}).

(** [select { case <-ctx.Done(): ...; case <-ch: ... }] where [ch] is a
    timer or ticker channel; [ev] is the event recorded when [ch] wins. *)
Definition select_ctx_or (ev : event) : M select_case := fun st =>
  let c := env_select env (st_selects st) in
  (c,
   {| st_submits := st_submits st; st_details := st_details st;
      st_statuses := st_statuses st; st_selects := S (st_selects st);
      st_clock_reads := st_clock_reads st;
      st_events := st_events st ++
                     [match c with CaseDone => EvCtxDone | CaseTimer => ev end] |}).

(** [tb.client.GetHorizonClient().SubmitTransaction(tx)] *)
Definition SubmitTransaction (tx : Tx) : M (result Transaction) := fun st =>
  (env_SubmitTransaction env (st_submits st) tx,
   {| st_submits := S (st_submits st); st_details := st_details st;
      st_statuses := st_statuses st; st_selects := st_selects st;
      st_clock_reads := st_clock_reads st;
      st_events := st_events st ++ [EvSubmit tx] |}).

(** [tb.client.GetHorizonClient().TransactionDetail(txHash)] *)
Definition TransactionDetail (txHash : string) : M (result Transaction) := fun st =>
  (env_TransactionDetail env (st_details st) txHash,
   {| st_submits := st_submits st; st_details := S (st_details st);
      st_statuses := st_statuses st; st_selects := st_selects st;
      st_clock_reads := st_clock_reads st;
      st_events := st_events st ++ [EvTransactionDetail txHash] |}).

(** [c.GetTransactionStatus(ctx, txHash)]: the JSON-RPC round trip and
    the decoding of its result are the oracle's. *)
Definition GetTransactionStatus (txHash : string) : M (result (gmap string value)) := fun st =>
  (env_GetTransactionStatus env (st_statuses st) txHash,
   {| st_submits := st_submits st; st_details := st_details st;
      st_statuses := S (st_statuses st); st_selects := st_selects st;
      st_clock_reads := st_clock_reads st;
      st_events := st_events st ++ [EvGetTransactionStatus txHash] |}).

(** Lines 75-90 of tx.go: the wait before a retry.  Returns the delay to
    use next, or the context's error. *)
Definition backoff_wait (cfg : RetryConfig) (delay : Duration) : M (result Duration) :=
  slog "INFO" "retrying transaction submission" ;;;
  c <- select_ctx_or (EvSleep delay) ;;
  match c with
  | CaseDone => ret (Err (env_ctx_err env))
  | CaseTimer => ret (Ok (next_delay cfg delay))
  end.

(** The body of the [for] loop of [submitWithRetry] (lines 75-129).
    [Continue (delay', err)] is the [continue] of line 112, with the new
    values of [delay] and [lastErr].  Both arms of the type switch on the
    error log the same warning first. *)
Definition submit_attempt (cfg : RetryConfig) (tx : Tx) (attempt : Z) (delay : Duration)
    : M (step (result TransactionResult) (Duration * error)) :=
  w <- (if 0 <? attempt then backoff_wait cfg delay else ret (Ok delay)) ;;
  match w with
  | Err e => ret (Return (Err e))
  | Ok delay' =>
      r <- SubmitTransaction tx ;;
      match r with
      | Err err =>
          slog "WARN" "transaction submission failed" ;;;
          match err with
          | ErrHorizon herr =>
              if isNonRetryableError herr
              then ret (Return (Err (ErrWrap "non-retryable error" err)))
              else ret (Continue (delay', err))
          | _ => ret (Continue (delay', err))
          end
      | Ok resp =>
          now <- time_Now ;;
          slog "INFO" "transaction submitted successfully" ;;;
          ret (Return (Ok {| Hash := tx_Hash resp;
                             Ledger := uint32 (tx_Ledger resp);
                             Status := "pending";
                             Submitted := Some now;
                             Confirmed := None |}))
      end
  end.

(** The [for] loop of [submitWithRetry]; [n] is the number of iterations
    left, that is [MaxRetries + 1 - attempt]. *)
Fixpoint submit_loop (cfg : RetryConfig) (tx : Tx) (n : nat) (attempt : Z)
    (delay : Duration) (lastErr : option error) : M (result TransactionResult) :=
  match n with
  | O => ret (Err (ErrAttempts (MaxRetries cfg + 1) lastErr))
  | S n' =>
      s <- submit_attempt cfg tx attempt delay ;;
      match s with
      | Return r => ret r
      | Continue (delay', err) =>
          submit_loop cfg tx n' (attempt + 1) delay' (Some err)
      end
  end.

(** [for attempt := 0; attempt <= MaxRetries; attempt++] runs
    [MaxRetries + 1] times, and not at all when [MaxRetries] is negative. *)
Definition submitWithRetry (cfg : RetryConfig) (tx : Tx) : M (result TransactionResult) :=
  submit_loop cfg tx (Z.to_nat (MaxRetries cfg + 1)) 0 (InitialDelay cfg) None.

(** Notions used to state what one attempt does: the delay in force
    after its wait, the delays it slept, the number of [select]
    statements it ran. *)
Definition delay_after (cfg : RetryConfig) (attempt : Z) (delay : Duration) : Duration :=
  if 0 <? attempt then next_delay cfg delay else delay.

Definition slept (attempt : Z) (delay : Duration) : list Duration :=
  if 0 <? attempt then [delay] else [].

Definition selects_after (attempt : Z) (n : nat) : nat :=
  if 0 <? attempt then S n else n.

(** The delays the code computes: [n] of them, from [d]. *)
Fixpoint code_delays (cfg : RetryConfig) (d : Duration) (n : nat) : list Duration :=
  match n with
  | O => []
  | S n' => d :: code_delays cfg (next_delay cfg d) n'
  end.

(** The error of the last of [n] submissions made from index [first]. *)
Definition last_error (tx : Tx) (first n : nat) (last : option error) : option error :=
  match n with
  | O => last
  | S m =>
      match env_SubmitTransaction env (first + m) tx with
      | Err e => Some e
      | Ok _ => None
      end
  end.

Definition BuildAndSubmit (cfg : RetryConfig) (operations : list Operation)
    : M (result TransactionResult) :=
  match env_AccountDetail env with
  | Err err => ret (Err (ErrWrap "failed to get account details" err))
  | Ok accountDetail =>
      match env_NewTransaction env accountDetail operations with
      | Err err => ret (Err (ErrWrap "failed to build transaction" err))
      | Ok tx =>
          match env_Sign env tx with
          | Err err => ret (Err (ErrWrap "failed to sign transaction" err))
          | Ok tx' => submitWithRetry cfg tx'
          end
      end
  end.

Definition timeout_error (txHash : string) : error :=
  ErrNew ("timeout waiting for transaction confirmation: " ++ txHash).

(** One pass through the [select] of [WaitForConfirmation] (lines
    164-193). *)
Definition wait_tick (txHash : string) (deadline : Z)
    : M (step (result TransactionResult) unit) :=
  c <- select_ctx_or EvTick ;;
  match c with
  | CaseDone => ret (Return (Err (env_ctx_err env)))
  | CaseTimer =>
      now <- time_Now ;;
      if now >? deadline
      then ret (Return (Err (timeout_error txHash)))
      else
        r <- TransactionDetail txHash ;;
        match r with
        | Err _ => ret (Continue tt)
        | Ok tx =>
            submitted <- time_Now ;;
            confirmed <- time_Now ;;
            slog "INFO" "transaction confirmed" ;;;
            ret (Return (Ok {| Hash := txHash;
                               Ledger := uint32 (tx_Ledger tx);
                               Status := "success";
                               Submitted := Some submitted;
                               Confirmed := Some confirmed |}))
        end
  end.

(** The [for { select { ... } }] loop.  The Go loop has no bound of its
    own; [fuel] bounds the number of iterations and [None] means the
    bound was reached. *)
Fixpoint wait_loop (fuel : nat) (txHash : string) (deadline : Z)
    : M (option (result TransactionResult)) :=
  match fuel with
  | O => ret None
  | S fuel' =>
      s <- wait_tick txHash deadline ;;
      match s with
      | Return r => ret (Some r)
      | Continue _ => wait_loop fuel' txHash deadline
      end
  end.

Definition poll_period : Duration := 2 * Second.

Definition WaitForConfirmation (fuel : nat) (txHash : string) (timeout : Duration)
    : M (option (result TransactionResult)) :=
  start <- time_Now ;;
  emit (EvNewTicker poll_period) ;;;
  wait_loop fuel txHash (start + timeout).

(** The deadline of a call that starts in state [st]: the first reading
    of the clock plus the timeout. *)
Definition deadline_of (st : State) (timeout : Duration) : Z :=
  env_now env (st_clock_reads st) + timeout.

(** The reading of the clock made after tick [i] (from 0) of a polling
    call that starts in state [st]: the call reads the clock once before
    its loop, and every pass that goes round again reads it once. *)
Definition tick_reading (st : State) (i : nat) : Z :=
  env_now env (S (st_clock_reads st) + i).

(** Pass [i] of [WaitForConfirmation] polls without finding the
    transaction: the [select] takes the tick, the clock is not after the
    deadline, and the lookup fails. *)
Definition polls_unfound (txHash : string) (st : State) (timeout : Duration)
    (i : nat) : Prop :=
  env_select env (st_selects st + i) = CaseTimer /\
  tick_reading st i <= deadline_of st timeout /\
  exists e, env_TransactionDetail env (st_details st + i) txHash = Err e.

(** No tick is early.  The ticker is created after the call has read the
    clock, it sends tick [i] (from 0) no sooner than [i + 1] periods
    after its creation, and the clock is read once the tick is received:
    the reading made after tick [i] is at least [i + 1] periods after the
    reading made when the call starts. *)
Definition ticker_not_early (st : State) : Prop :=
  forall i : nat,
    tick_reading st i
      >= env_now env (st_clock_reads st) + Z.of_nat (S i) * poll_period.

(** The number of whole periods in the timeout. *)
Definition ticks_within (timeout : Duration) : nat :=
  Z.to_nat (timeout / poll_period).

(** The state after [j] ticks that polled without finding the
    transaction. *)
Definition after_polls (txHash : string) (j : nat) (st : State) : State :=
  {| st_submits := st_submits st;
     st_details := st_details st + j;
     st_statuses := st_statuses st;
     st_selects := st_selects st + j;
     st_clock_reads := st_clock_reads st + j;
     st_events := st_events st
       ++ concat (repeat [EvTick; EvTransactionDetail txHash] j) |}.

(** The state in which the polling loop starts: the clock has been read
    once and the ticker created. *)
Definition loop_start (st : State) : State :=
  {| st_submits := st_submits st; st_details := st_details st;
     st_statuses := st_statuses st; st_selects := st_selects st;
     st_clock_reads := S (st_clock_reads st);
     st_events := st_events st ++ [EvNewTicker poll_period] |}.

Definition poll_timeout_error (txHash : string) : error :=
  ErrNew ("timeout waiting for transaction: " ++ txHash).

(** [statusVal == "SUCCESS" || statusVal == "FAILED"] after the type
    assertion [status["status"].(string)]. *)
Definition status_is_final (status : gmap string value) : bool :=
  match status !! "status" with
  | Some (VString statusVal) =>
      String.eqb statusVal "SUCCESS" || String.eqb statusVal "FAILED"
  | _ => false
  end.

(** One pass through the [select] of [Client.PollTransactionStatus]. *)
Definition poll_tick (txHash : string) (deadline : Z)
    : M (step (result (gmap string value)) unit) :=
  c <- select_ctx_or EvTick ;;
  match c with
  | CaseDone => ret (Return (Err (env_ctx_err env)))
  | CaseTimer =>
      now <- time_Now ;;
      if now >? deadline
      then ret (Return (Err (poll_timeout_error txHash)))
      else
        r <- GetTransactionStatus txHash ;;
        match r with
        | Err _ =>
            slog "DEBUG" "transaction not found, continuing to poll" ;;;
            ret (Continue tt)
        | Ok status =>
            if status_is_final status
            then slog "INFO" "transaction status determined" ;;;
                 ret (Return (Ok status))
            else ret (Continue tt)
        end
  end.

Fixpoint poll_loop (fuel : nat) (txHash : string) (deadline : Z)
    : M (option (result (gmap string value))) :=
  match fuel with
  | O => ret None
  | S fuel' =>
      s <- poll_tick txHash deadline ;;
      match s with
      | Return r => ret (Some r)
      | Continue _ => poll_loop fuel' txHash deadline
      end
  end.

Definition PollTransactionStatus (fuel : nat) (txHash : string) (timeout : Duration)
    : M (option (result (gmap string value))) :=
  start <- time_Now ;;
  emit (EvNewTicker poll_period) ;;;
  poll_loop fuel txHash (start + timeout).

(** Pass [i] of [PollTransactionStatus] asks for the status and goes
    round again: the [select] takes the tick, the clock is not after the
    deadline, and the query fails or returns a status that is not final. *)
Definition polls_pending (txHash : string) (st : State) (timeout : Duration)
    (i : nat) : Prop :=
  env_select env (st_selects st + i) = CaseTimer /\
  tick_reading st i <= deadline_of st timeout /\
  match env_GetTransactionStatus env (st_statuses st + i) txHash with
  | Ok status => status_is_final status = false
  | Err _ => True
  end.

End WithEnv.

(** *** EncodeContractAddress *)

(** The loop of lines 206-213: [n] two-character slices of [s], each read
    with [Sscanf "%02x"]; [None] when one of them fails. *)
Fixpoint scan_hex_bytes (n : nat) (s : list ascii) : option (list Z) :=
  match n with
  | O => Some []
  | S n' =>
      match s with
      | c1 :: c2 :: rest =>
          match Sscanf_02x (string_of_list [c1; c2]) with
          | Some b =>
              match scan_hex_bytes n' rest with
              | Some bs => Some (b :: bs)
              | None => None
              end
          | None => None
          end
      | _ => None
      end
  end.

(** The two accepted forms in the words of the specification. *)
Definition is_hex64 (s : string) : Prop :=
  String.length s = 64%nat /\ Forall (fun c => is_hex c = true) (list_of_string s).

Definition is_base64_of_32_bytes (s : string) : Prop :=
  exists bytes,
    List.length bytes = 32%nat /\ is_bytes bytes /\ s = base64_EncodeToString bytes.

Definition contract_address (hash : list Z) : ScAddress :=
  {| Type_ := ScAddressTypeContract; ContractId := Some hash |}.

(** When the hexadecimal reading fails part of [hash] has been written,
    but the base64 branch then overwrites all 32 bytes, so the partial
    writes are not visible in any result. *)
Definition EncodeContractAddress (contractID : string) : result ScAddress :=
  match
    (if len contractID =? 64
     then scan_hex_bytes 32 (list_of_string contractID)
     else None)
  with
  | Some hash => Ok (contract_address hash)
  | None =>
      match base64_DecodeString contractID with
      | None =>
          Err (ErrWrap "invalid contract ID format (expected hex or base64)"
                 (ErrNew "illegal base64 data"))
      | Some bytes =>
          if negb (Z.of_nat (List.length bytes) =? 32)
          then Err (ErrNew "contract ID must be 32 bytes")
          else Ok (contract_address bytes)
      end
  end.

(** *** program.go: the client of the program escrow contract *)

(** The value encoders and [BuildInvokeHostFunctionOp] are declared
    elsewhere in the package: they are parameters. *)
Record Codec := {
  EncodeScValString : string -> result ScVal;
  EncodeScValInt64 : Z -> result ScVal;
  EncodeScValAddress : string -> result ScVal;
  EncodeScValVec : list ScVal -> result ScVal;
  BuildInvokeHostFunctionOp : ScAddress -> string -> list ScVal -> result Operation
}.

Record PayoutItem := {
  Recipient : string;
  Amount : Z
}.

Section WithClient.

Variable env : Env.
Variable codec : Codec.
Variable retryConfig : RetryConfig.
Variable contractAddress : string.

(** Bound on the iterations of the polling loop given to each call of
    [WaitForConfirmation]. *)
Variable fuel : nat.

Definition LogContractInteraction (function : string) : M unit :=
  slog "INFO" ("contract interaction: " ++ function).

(** Lines 102-115, 150-163 and 223-236: submit, then wait 60 seconds for
    the confirmation.  [None] when the polling bound was reached. *)
Definition submit_and_confirm (op : Operation) : M (option (result TransactionResult)) :=
  r <- BuildAndSubmit env retryConfig [op] ;;
  match r with
  | Err err => ret (Some (Err (ErrWrap "failed to submit transaction" err)))
  | Ok result =>
      w <- WaitForConfirmation env fuel (Hash result) (60 * Second) ;;
      match w with
      | None => ret None
      | Some (Err err) =>
          slog "WARN" "failed to wait for confirmation" ;;;
          ret (Some (Ok result))
      | Some (Ok confirmed) => ret (Some (Ok confirmed))
      end
  end.

Definition LockProgramFunds (amount : Z) : M (option (result TransactionResult)) :=
  LogContractInteraction "lock_program_funds" ;;;
  match EncodeContractAddress contractAddress with
  | Err err => ret (Some (Err (ErrWrap "invalid contract address" err)))
  | Ok contractAddr =>
      match EncodeScValInt64 codec amount with
      | Err err => ret (Some (Err (ErrWrap "failed to encode amount" err)))
      | Ok amountVal =>
          match BuildInvokeHostFunctionOp codec contractAddr "lock_program_funds" [amountVal] with
          | Err err => ret (Some (Err (ErrWrap "failed to build operation" err)))
          | Ok op => submit_and_confirm op
          end
      end
  end.

Definition SinglePayout (recipientAddress : string) (amount : Z)
    : M (option (result TransactionResult)) :=
  LogContractInteraction "single_payout" ;;;
  match EncodeContractAddress contractAddress with
  | Err err => ret (Some (Err (ErrWrap "invalid contract address" err)))
  | Ok contractAddr =>
      match EncodeScValAddress codec recipientAddress with
      | Err err => ret (Some (Err (ErrWrap "failed to encode recipient address" err)))
      | Ok recipientVal =>
          match EncodeScValInt64 codec amount with
          | Err err => ret (Some (Err (ErrWrap "failed to encode amount" err)))
          | Ok amountVal =>
              match BuildInvokeHostFunctionOp codec contractAddr "single_payout"
                      [recipientVal; amountVal] with
              | Err err => ret (Some (Err (ErrWrap "failed to build operation" err)))
              | Ok op => submit_and_confirm op
              end
          end
      end
  end.

(** The two encoding loops of [BatchPayout]: the first failure ends the
    loop with its error, which names the index. *)
Fixpoint encode_each {A} (enc : A -> result ScVal) (msg : string) (i : Z) (l : list A)
    : result (list ScVal) :=
  match l with
  | [] => Ok []
  | a :: l' =>
      match enc a with
      | Err err => Err (ErrWrapAt msg i err)
      | Ok v =>
          match encode_each enc msg (i + 1) l' with
          | Err err => Err err
          | Ok vs => Ok (v :: vs)
          end
      end
  end.

Definition BatchPayout (payouts : list PayoutItem) : M (option (result TransactionResult)) :=
  LogContractInteraction "batch_payout" ;;;
  match payouts with
  | [] => ret (Some (Err (ErrNew "payouts list cannot be empty")))
  | _ =>
  match EncodeContractAddress contractAddress with
  | Err err => ret (Some (Err (ErrWrap "invalid contract address" err)))
  | Ok contractAddr =>
  match encode_each (fun p => EncodeScValAddress codec (Recipient p))
          "failed to encode recipient" 0 payouts with
  | Err err => ret (Some (Err err))
  | Ok recipientVals =>
  match EncodeScValVec codec recipientVals with
  | Err err => ret (Some (Err (ErrWrap "failed to encode recipients vector" err)))
  | Ok recipientsVec =>
  match encode_each (fun p => EncodeScValInt64 codec (Amount p))
          "failed to encode amount" 0 payouts with
  | Err err => ret (Some (Err err))
  | Ok amountVals =>
  match EncodeScValVec codec amountVals with
  | Err err => ret (Some (Err (ErrWrap "failed to encode amounts vector" err)))
  | Ok amountsVec =>
  match BuildInvokeHostFunctionOp codec contractAddr "batch_payout"
          [recipientsVec; amountsVec] with
  | Err err => ret (Some (Err (ErrWrap "failed to build operation" err)))
  | Ok op => submit_and_confirm op
  end end end end end end end.

(** [InitProgram] returns what [BuildAndSubmit] returns: it does not
    wait for the confirmation. *)
Definition InitProgram (programID authorizedPayoutKey tokenAddress : string)
    : M (result TransactionResult) :=
  LogContractInteraction "init_program" ;;;
  match EncodeContractAddress contractAddress with
  | Err err => ret (Err (ErrWrap "invalid contract address" err))
  | Ok contractAddr =>
  match EncodeScValString codec programID with
  | Err err => ret (Err (ErrWrap "failed to encode program_id" err))
  | Ok programIDVal =>
  match EncodeScValAddress codec authorizedPayoutKey with
  | Err err => ret (Err (ErrWrap "failed to encode authorized_payout_key" err))
  | Ok authKeyVal =>
  match EncodeScValAddress codec tokenAddress with
  | Err err => ret (Err (ErrWrap "failed to encode token_address" err))
  | Ok tokenVal =>
  match BuildInvokeHostFunctionOp codec contractAddr "init_program"
          [programIDVal; authKeyVal; tokenVal] with
  | Err err => ret (Err (ErrWrap "failed to build operation" err))
  | Ok op =>
      r <- BuildAndSubmit env retryConfig [op] ;;
      match r with
      | Err err => ret (Err (ErrWrap "failed to submit transaction" err))
      | Ok result => ret (Ok result)
      end
  end end end end end.

End WithClient.

End Soroban.

(* ===================================================================== *)
(** ** Package auth: wallet-signature verification                        *)
(* ===================================================================== *)

Module Auth.

Definition WalletType := string.
Definition WalletTypeEVM : WalletType := "evm".
Definition WalletTypeStellarEd25519 : WalletType := "stellar_ed25519".
Definition WalletTypeStellarSecp256k1 : WalletType := "stellar_secp256k1".

(** An ECDSA signature: the two scalars. *)
Record Signature := {
  sig_r : Z;
  sig_s : Z
}.

(** The cryptographic primitives of the imported libraries
    (go-ethereum's [accounts] and [crypto], [crypto/ed25519],
    [crypto/sha256], decred's [secp256k1] and [ecdsa]). *)
Class Crypto := {
  EthPublicKey : Type;
  SecpPublicKey : Type;
  TextHash : string -> list Z;
  SigToPub : list Z -> list Z -> result EthPublicKey;
  PubkeyToAddressHex : EthPublicKey -> string;
  ed25519_Verify : list Z -> string -> list Z -> bool;
  sha256_Sum256 : string -> list Z;
  secp256k1_ParsePubKey : list Z -> result SecpPublicKey;
  ecdsa_ParseDERSignature : list Z -> result Signature;
  ecdsa_Verify : Signature -> list Z -> SecpPublicKey -> bool
}.

Definition ed25519_PublicKeySize : Z := 32.
Definition ed25519_SignatureSize : Z := 64.

(** The order of the secp256k1 group: [ModNScalar.SetByteSlice] reports
    an overflow for a 32-byte big-endian value not below it. *)
Definition secp256k1_N : Z :=
  0xFFFFFFFFFFFFFFFFFFFFFFFFFFFFFFFEBAAEDCE6AF48A03BBFD25E8CD0364141.

(** Big-endian value of a byte string. *)
Definition be_value (b : list Z) : Z :=
  fold_left (fun acc x => 256 * acc + x) b 0.

(** [len(b)] of a byte slice. *)
Definition blen (b : list Z) : Z := Z.of_nat (List.length b).

(** Lines 84-87 of verify.go: [if sig[64] >= 27 { sig[64] -= 27 }]. *)
Definition normalize_v (sig : list Z) : list Z :=
  match sig !! 64%nat with
  | Some v => if v >=? 27 then <[64%nat := v - 27]> sig else sig
  | None => sig
  end.

Definition decodeHex (s : string) : result (list Z) :=
  let v := TrimSpace s in
  if String.eqb v "" then Err (ErrNew "empty")
  else hex_DecodeString (TrimPrefix v "0x").

(** Equality of two strings up to the case of ASCII letters. *)
Definition equal_fold (a b : string) : Prop :=
  Forall2 (fun x y => lower x = lower y) (list_of_string a) (list_of_string b).

(** The messages of the errors [VerifySignature] returns. *)
Definition verification_errors : list string :=
  [ "invalid signature hex"; "invalid signature length";
    "signature recovery failed"; "signature does not match address";
    "invalid public_key"; "invalid signature"; "unsupported wallet_type" ].

(** The [n]-byte big-endian encoding of [x], used to say what a compact
    signature holds. *)
Fixpoint be_bytes (n : nat) (x : Z) : list Z :=
  match n with
  | O => []
  | S n' => be_bytes n' (x / 256) ++ [x mod 256]
  end.

Section WithUnicode.

(** [strings.Map(unicode.ToLower, s)], the path [strings.ToLower] takes
    for a string that holds a byte of 0x80 or more. *)
Variable unicode_lower : string -> string.

Definition NormalizeWalletType (v : string) : result WalletType :=
  let t := strings_ToLower unicode_lower (TrimSpace v) in
  if String.eqb t WalletTypeEVM
     || String.eqb t WalletTypeStellarEd25519
     || String.eqb t WalletTypeStellarSecp256k1
  then Ok (strings_ToLower unicode_lower (TrimSpace v))
  else Err (ErrNew "unsupported wallet_type").

Definition NormalizeAddress (t : WalletType) (addr : string) : result string :=
  let a := TrimSpace addr in
  if String.eqb a "" then Err (ErrNew "address is required")
  else if String.eqb t WalletTypeEVM then
    let a := strings_ToLower unicode_lower a in
    let a := if negb (HasPrefix a "0x") then ("0x" ++ a)%string else a in
    if negb (len a =? 42) then Err (ErrNew "invalid evm address")
    else Ok a
  else if String.eqb t WalletTypeStellarEd25519
          || String.eqb t WalletTypeStellarSecp256k1 then
    Ok (strings_ToLower unicode_lower a)
  else Err (ErrNew "unsupported wallet_type").

End WithUnicode.

Section WithCrypto.

Context `{Crypto}.

(** The two accepted forms of a secp256k1 signature, in the words of the
    specification: 64 bytes holding two 32-byte big-endian scalars, each
    below the group order, or else the DER encoding. *)
Definition accepted_signature (b : list Z) (sig : Signature) : Prop :=
  (blen b = 64 /\
   sig = {| sig_r := be_value (take 32 b); sig_s := be_value (drop 32 b) |} /\
   be_value (take 32 b) < secp256k1_N /\
   be_value (drop 32 b) < secp256k1_N) \/
  (blen b <> 64 /\ ecdsa_ParseDERSignature b = Ok sig).

(** What it takes for each scheme to verify. *)
Definition evm_verifies (address message signatureHex : string) : Prop :=
  exists sig pub,
    hexutil_Decode signatureHex = Ok sig /\
    blen sig = 65 /\
    SigToPub (TextHash message) (normalize_v sig) = Ok pub /\
    equal_fold address (PubkeyToAddressHex pub).

Definition ed25519_verifies (message signatureHex publicKeyHex : string) : Prop :=
  exists pubKeyBytes sigBytes,
    decodeHex publicKeyHex = Ok pubKeyBytes /\
    blen pubKeyBytes = 32 /\
    decodeHex signatureHex = Ok sigBytes /\
    blen sigBytes = 64 /\
    ed25519_Verify pubKeyBytes message sigBytes = true.

Definition secp256k1_verifies (message signatureHex publicKeyHex : string) : Prop :=
  exists pubKeyBytes pubKey sigBytes sig,
    decodeHex publicKeyHex = Ok pubKeyBytes /\
    secp256k1_ParsePubKey pubKeyBytes = Ok pubKey /\
    decodeHex signatureHex = Ok sigBytes /\
    accepted_signature sigBytes sig /\
    ecdsa_Verify sig (sha256_Sum256 message) pubKey = true.

Definition verifyEVM (expectedAddr message signatureHex : string) : option error :=
  match hexutil_Decode signatureHex with
  | Err _ => Some (ErrNew "invalid signature hex")
  | Ok sig =>
      if negb (blen sig =? 65) then Some (ErrNew "invalid signature length")
      else
        let sig' := normalize_v sig in
        let hash := TextHash message in
        match SigToPub hash sig' with
        | Err _ => Some (ErrNew "signature recovery failed")
        | Ok pub =>
            let recovered := ToLower (PubkeyToAddressHex pub) in
            if negb (String.eqb (ToLower expectedAddr) recovered)
            then Some (ErrNew "signature does not match address")
            else None
        end
  end.

Definition verifyStellarEd25519 (message signatureHex publicKeyHex : string)
    : option error :=
  match decodeHex publicKeyHex with
  | Err _ => Some (ErrNew "invalid public_key")
  | Ok pubKeyBytes =>
      if negb (blen pubKeyBytes =? ed25519_PublicKeySize)
      then Some (ErrNew "invalid public_key")
      else
        match decodeHex signatureHex with
        | Err _ => Some (ErrNew "invalid signature")
        | Ok sigBytes =>
            if negb (blen sigBytes =? ed25519_SignatureSize)
            then Some (ErrNew "invalid signature")
            else if negb (ed25519_Verify pubKeyBytes message sigBytes)
            then Some (ErrNew "invalid signature")
            else None
        end
  end.

Definition parseSecp256k1Signature (b : list Z) : result Signature :=
  if blen b =? 64 then
    let r := be_value (take 32 b) in
    let s := be_value (drop 32 b) in
    if r >=? secp256k1_N then Err (ErrNew "invalid r")
    else if s >=? secp256k1_N then Err (ErrNew "invalid s")
    else Ok {| sig_r := r; sig_s := s |}
  else ecdsa_ParseDERSignature b.

Definition verifyStellarSecp256k1 (message signatureHex publicKeyHex : string)
    : option error :=
  match decodeHex publicKeyHex with
  | Err _ => Some (ErrNew "invalid public_key")
  | Ok pubKeyBytes =>
      match secp256k1_ParsePubKey pubKeyBytes with
      | Err _ => Some (ErrNew "invalid public_key")
      | Ok pubKey =>
          match decodeHex signatureHex with
          | Err _ => Some (ErrNew "invalid signature")
          | Ok sigBytes =>
              let h := sha256_Sum256 message in
              match parseSecp256k1Signature sigBytes with
              | Err _ => Some (ErrNew "invalid signature")
              | Ok sig =>
                  if negb (ecdsa_Verify sig h pubKey)
                  then Some (ErrNew "invalid signature")
                  else None
              end
          end
      end
  end.

(** The [switch] compares the wallet type with the three constants. *)
Definition VerifySignature (t : WalletType)
    (address message signatureHex publicKeyHex : string) : option error :=
  if String.eqb t WalletTypeEVM then
    verifyEVM address message signatureHex
  else if String.eqb t WalletTypeStellarEd25519 then
    verifyStellarEd25519 message signatureHex publicKeyHex
  else if String.eqb t WalletTypeStellarSecp256k1 then
    verifyStellarSecp256k1 message signatureHex publicKeyHex
  else Some (ErrNew "unsupported wallet_type").

End WithCrypto.

End Auth.

(* ===================================================================== *)
(** ** The program escrow contract (on-ledger state machine)              *)
(* ===================================================================== *)

Module ProgramEscrow.

(** Amounts are 128-bit signed integers. *)
Definition i128_min : Z := - 2 ^ 127.
Definition i128_max : Z := 2 ^ 127 - 1.

(** Checked arithmetic: a result outside the range is a fatal error. *)
Definition checked (x : Z) : option Z :=
  if (i128_min <=? x) && (x <=? i128_max) then Some x else None.

Definition Address := string.

Record ProgramEscrowRecord := {
  program_id : string;
  total_funds : Z;
  remaining_balance : Z;
  authorized_payout_key : Address;
  created_at : Z
}.

Inductive Event :=
| FundsLocked (amount : Z)
| FundsReleased (recipient : Address) (amount : Z)
| FundsRefunded (initiator : Address) (amount : Z).

(** The instance storage, the token transfers made out of the contract
    (oldest first) and the events published. *)
Record Contract := {
  program : option ProgramEscrowRecord;
  token : option Address;
  transfers : list (Address * Z);
  events : list Event
}.

Definition empty : Contract :=
  {| program := None; token := None; transfers := []; events := [] |}.

Definition with_balance (r : ProgramEscrowRecord) (total remaining : Z)
    : ProgramEscrowRecord :=
  {| program_id := program_id r;
     total_funds := total;
     remaining_balance := remaining;
     authorized_payout_key := authorized_payout_key r;
     created_at := created_at r |}.

(** Modelled from the spec: [init_program] of the program escrow
    contract, whose Rust source is missing.  Section 4.2: it creates the
    record once and fails if it exists; both balances start at 0. *)
Definition init_program (now : Z) (id : string) (payout_key token_address : Address)
    (c : Contract) : option Contract :=
  match program c with
  | Some _ => None
  | None =>
      Some {| program := Some {| program_id := id;
                                 total_funds := 0;
                                 remaining_balance := 0;
                                 authorized_payout_key := payout_key;
                                 created_at := now |};
              token := Some token_address;
              transfers := transfers c;
              events := events c |}
  end.

(** Modelled from the spec: [lock_program_funds] of the contract (source
    missing).  It adds [amount] to both balances; it fails if
    [amount <= 0], if the record is not initialized, or on overflow. *)
Definition lock_program_funds (amount : Z) (c : Contract) : option Contract :=
  match program c with
  | None => None
  | Some r =>
      if amount <=? 0 then None
      else
        match checked (total_funds r + amount), checked (remaining_balance r + amount) with
        | Some total, Some remaining =>
            Some {| program := Some (with_balance r total remaining);
                    token := token c;
                    transfers := transfers c;
                    events := events c ++ [FundsLocked amount] |}
        | _, _ => None
        end
  end.

(** Modelled from the spec: [single_payout] of the contract (source
    missing).  It is for the authorized payout key only; it fails if
    [amount > remaining_balance] or [amount <= 0]; it decrements the
    balance, transfers and emits [FundsReleased]. *)
Definition single_payout (caller recipient : Address) (amount : Z) (c : Contract)
    : option Contract :=
  match program c with
  | None => None
  | Some r =>
      if negb (String.eqb caller (authorized_payout_key r)) then None
      else if (amount >? remaining_balance r) || (amount <=? 0) then None
      else
        match checked (remaining_balance r - amount) with
        | Some remaining =>
            Some {| program := Some (with_balance r (total_funds r) remaining);
                    token := token c;
                    transfers := transfers c ++ [(recipient, amount)];
                    events := events c ++ [FundsReleased recipient amount] |}
        | None => None
        end
  end.

(** The sum of the amounts, in checked arithmetic. *)
Fixpoint checked_sum (amounts : list Z) (acc : Z) : option Z :=
  match amounts with
  | [] => Some acc
  | a :: rest =>
      match checked (acc + a) with
      | Some acc' => checked_sum rest acc'
      | None => None
      end
  end.

(** Modelled from the spec: the amounts the contract accepts are the
    strictly positive ones (sections 4.2 and 7). *)
Definition valid_amount (amount : Z) : bool := negb (amount <=? 0).

(** Modelled from the spec: [batch_payout] of the contract (source
    missing).  Section 4.2: it is for the authorized payout key only; it
    fails if the two arrays differ in length, are empty, or if the sum of
    the amounts exceeds [remaining_balance], and this is checked before
    any transfer; it decrements the balance by the total and transfers
    in array order.  Section 7: a bad amount is a validation error,
    rejected by the contract with no state change; as in [single_payout]
    and [lock_program_funds], an amount that is not strictly positive is
    a bad amount. *)
Definition batch_payout (caller : Address) (recipients : list Address)
    (amounts : list Z) (c : Contract) : option Contract :=
  match program c with
  | None => None
  | Some r =>
      if negb (String.eqb caller (authorized_payout_key r)) then None
      else if negb (List.length recipients =? List.length amounts)%nat then None
      else if (List.length recipients =? 0)%nat then None
      else if negb (forallb valid_amount amounts) then None
      else
        match checked_sum amounts 0 with
        | None => None
        | Some sum =>
            if sum >? remaining_balance r then None
            else
              match checked (remaining_balance r - sum) with
              | Some remaining =>
                  Some {| program := Some (with_balance r (total_funds r) remaining);
                          token := token c;
                          transfers := transfers c ++ combine recipients amounts;
                          events := events c ++
                            List.map (fun p => FundsReleased (fst p) (snd p))
                                     (combine recipients amounts) |}
              | None => None
              end
        end
  end.

(** Modelled from the spec: [refund] of the contract (source missing).
    It is for the authorized payout key only; it transfers
    [remaining_balance] to the initiator and sets it to 0. *)
Definition refund (caller initiator : Address) (c : Contract) : option Contract :=
  match program c with
  | None => None
  | Some r =>
      if negb (String.eqb caller (authorized_payout_key r)) then None
      else
        Some {| program := Some (with_balance r (total_funds r) 0);
                token := token c;
                transfers := transfers c ++ [(initiator, remaining_balance r)];
                events := events c ++ [FundsRefunded initiator (remaining_balance r)] |}
  end.

(** Modelled from the spec: [get_balance] of the contract (source
    missing); it reads [remaining_balance]. *)
Definition get_balance (c : Contract) : option Z :=
  match program c with
  | Some r => Some (remaining_balance r)
  | None => None
  end.

(** An invocation of the contract. *)
Inductive Call :=
| CallInit (now : Z) (id : string) (payout_key token_address : Address)
| CallLock (amount : Z)
| CallSinglePayout (caller recipient : Address) (amount : Z)
| CallBatchPayout (caller : Address) (recipients : list Address) (amounts : list Z)
| CallRefund (caller initiator : Address).

Definition invoke (call : Call) (c : Contract) : option Contract :=
  match call with
  | CallInit now id key tok => init_program now id key tok c
  | CallLock amount => lock_program_funds amount c
  | CallSinglePayout caller recipient amount => single_payout caller recipient amount c
  | CallBatchPayout caller recipients amounts => batch_payout caller recipients amounts c
  | CallRefund caller initiator => refund caller initiator c
  end.

(** A sequence of invocations every one of which is accepted. *)
Fixpoint run (calls : list Call) (c : Contract) : option Contract :=
  match calls with
  | [] => Some c
  | call :: rest =>
      match invoke call c with
      | Some c' => run rest c'
      | None => None
      end
  end.

(** The balance invariant of the record, when there is one. *)
Definition balance_ok (c : Contract) : Prop :=
  match program c with
  | Some r => 0 <= remaining_balance r <= total_funds r
  | None => True
  end.

Definition sum_amounts (amounts : list Z) : Z := fold_right Z.add 0 amounts.

End ProgramEscrow.

(* ===================================================================== *)
(** ** Concrete scenarios used by the examples below                      *)
(* ===================================================================== *)

Module Scenarios.

Import ProgramEscrow.

(** A program is funded with 100, pays 30, then 20 + 10 in a batch. *)
Definition payout_calls : list Call :=
  [ CallInit 1700000000 "hackathon" "payout-key" "token";
    CallLock 100;
    CallSinglePayout "payout-key" "alice" 30;
    CallBatchPayout "payout-key" ["bob"; "carol"] [20; 10] ].

(** The record and the contract state those calls lead to. *)
Definition payout_record : ProgramEscrowRecord :=
  {| program_id := "hackathon"; total_funds := 100; remaining_balance := 40;
     authorized_payout_key := "payout-key"; created_at := 1700000000 |}.

Definition payout_outcome : Contract :=
  {| program := Some payout_record;
     token := Some "token";
     transfers := [("alice", 30); ("bob", 20); ("carol", 10)];
     events := [FundsLocked 100; FundsReleased "alice" 30;
                FundsReleased "bob" 20; FundsReleased "carol" 10] |}.

(** A batch with a negative amount in a funded program. *)
Definition negative_batch_calls : list Call :=
  [ CallInit 1700000000 "hackathon" "payout-key" "token";
    CallLock 100;
    CallBatchPayout "payout-key" ["mallory"; "bob"] [-5; 10] ].

Import Soroban.

(** A Horizon problem whose transaction result code is [tx_bad_seq]. *)
Definition bad_seq_problem : Problem :=
  {| Detail := "Transaction Failed";
     Extras := {[ "result_codes" :=
                    VObject {[ "transaction" := VString "tx_bad_seq" ]} ]} |}.

(** A Horizon problem outside the fatal set. *)
Definition too_late_problem : Problem :=
  {| Detail := "Transaction Failed";
     Extras := {[ "result_codes" :=
                    VObject {[ "transaction" := VString "tx_too_late" ]} ]} |}.

Definition sample_account : Account :=
  {| acc_id := "GSOURCE"; acc_sequence := 41 |}.

Definition sample_tx (ops : list Operation) (signed : bool) : Tx :=
  {| tx_source := "GSOURCE"; tx_sequence := 42; tx_operations := ops;
     tx_signed := signed |}.

Definition sample_transaction : Transaction :=
  {| tx_Hash := "abc123"; tx_Ledger := 777; tx_Successful := true |}.

(** A transaction that was included in a ledger and failed there. *)
Definition failed_transaction : Transaction :=
  {| tx_Hash := "abc123"; tx_Ledger := 778; tx_Successful := false |}.

(** An ideal clock: the n-th reading is [2n] seconds. *)
Definition even_seconds (n : nat) : Z := Z.of_nat n * (2 * Second).

(** A network on which every submission fails with [e], no transaction
    is ever found, and the context never fires. *)
Definition failing_env (e : error) : Env :=
  {| env_AccountDetail := Ok sample_account;
     env_NewTransaction := fun _ ops => Ok (sample_tx ops false);
     env_Sign := fun tx => Ok (sample_tx (tx_operations tx) true);
     env_SubmitTransaction := fun _ _ => Err e;
     env_TransactionDetail := fun _ _ => Err (ErrNew "not found");
     env_GetTransactionStatus := fun _ _ => Err (ErrNew "not found");
     env_select := fun _ => CaseTimer;
     env_ctx_reason := Canceled;
     env_now := even_seconds |}.

(** As [failing_env], but the context fires at the third [select]. *)
Definition cancelled_env : Env :=
  {| env_AccountDetail := Ok sample_account;
     env_NewTransaction := fun _ ops => Ok (sample_tx ops false);
     env_Sign := fun tx => Ok (sample_tx (tx_operations tx) true);
     env_SubmitTransaction := fun _ _ => Err (ErrNew "connection refused");
     env_TransactionDetail := fun _ _ => Err (ErrNew "not found");
     env_GetTransactionStatus := fun _ _ => Err (ErrNew "not found");
     env_select := fun n => if (n =? 2)%nat then CaseDone else CaseTimer;
     env_ctx_reason := Canceled;
     env_now := even_seconds |}.

(** The RPC status of a transaction that failed on the ledger. *)
Definition failed_status : gmap string value :=
  {[ "status" := VString "FAILED" ]}.

(** A network on which the submission is accepted and the transaction is
    then found, failed. *)
Definition failed_tx_env : Env :=
  {| env_AccountDetail := Ok sample_account;
     env_NewTransaction := fun _ ops => Ok (sample_tx ops false);
     env_Sign := fun tx => Ok (sample_tx (tx_operations tx) true);
     env_SubmitTransaction := fun _ _ => Ok sample_transaction;
     env_TransactionDetail := fun _ _ => Ok failed_transaction;
     env_GetTransactionStatus := fun _ _ => Ok failed_status;
     env_select := fun _ => CaseTimer;
     env_ctx_reason := Canceled;
     env_now := even_seconds |}.

(** A network on which the submission is accepted and the transaction is
    never found. *)
Definition unconfirmed_env : Env :=
  {| env_AccountDetail := Ok sample_account;
     env_NewTransaction := fun _ ops => Ok (sample_tx ops false);
     env_Sign := fun tx => Ok (sample_tx (tx_operations tx) true);
     env_SubmitTransaction := fun _ _ => Ok sample_transaction;
     env_TransactionDetail := fun _ _ => Err (ErrNew "not found");
     env_GetTransactionStatus := fun _ _ => Err (ErrNew "not found");
     env_select := fun _ => CaseTimer;
     env_ctx_reason := Canceled;
     env_now := even_seconds |}.

(** Encoders that accept every value. *)
Definition sample_codec : Codec :=
  {| EncodeScValString := fun s => Ok (ScvString s);
     EncodeScValInt64 := fun i => Ok (ScvI64 i);
     EncodeScValAddress := fun a => Ok (ScvAddress a);
     EncodeScValVec := fun l => Ok (ScvVec l);
     BuildInvokeHostFunctionOp := fun c f args =>
       Ok {| op_contract := c; op_function := f; op_args := args |} |}.

(** The identifier of a contract, 64 hexadecimal digits. *)
Definition sample_contract : string :=
  "00112233445566778899aabbccddeeff00112233445566778899aabbccddeeff".

(** Sixty-four characters that are not all hexadecimal digits: the
    second one is the letter [g]. *)
Definition malformed_contract : string :=
  "0g112233445566778899aabbccddeeff00112233445566778899aabbccddeeff".

(** Likewise: [0x] followed by sixty-two digits. *)
Definition prefixed_contract : string :=
  "0x112233445566778899aabbccddeeff00112233445566778899aabbccddeeff".

(** The bytes 1 to 32 and their base64 encoding. *)
Definition sample_hash : list Z :=
  [1; 2; 3; 4; 5; 6; 7; 8; 9; 10; 11; 12; 13; 14; 15; 16;
   17; 18; 19; 20; 21; 22; 23; 24; 25; 26; 27; 28; 29; 30; 31; 32].

Definition sample_base64 : string :=
  "AQIDBAUGBwgJCgsMDQ4PEBESExQVFhcYGRobHB0eHyA=".

(** A configuration whose initial delay is above the cap. *)
Definition slow_start_config : RetryConfig :=
  {| MaxRetries := 1;
     InitialDelay := 60 * Second;
     MaxDelay := 30 * Second;
     BackoffMultiplier := float64_of_int 2 |}.

(** A network on which the first two submissions fail with a retryable
    error and the third is accepted. *)
Definition flaky_env : Env :=
  {| env_AccountDetail := Ok sample_account;
     env_NewTransaction := fun _ ops => Ok (sample_tx ops false);
     env_Sign := fun tx => Ok (sample_tx (tx_operations tx) true);
     env_SubmitTransaction := fun n _ =>
       if (n <? 2)%nat then Err (ErrHorizon too_late_problem)
       else Ok sample_transaction;
     env_TransactionDetail := fun _ _ => Err (ErrNew "not found");
     env_GetTransactionStatus := fun _ _ => Err (ErrNew "not found");
     env_select := fun _ => CaseTimer;
     env_ctx_reason := Canceled;
     env_now := even_seconds |}.

(** The RPC status of a transaction that no ledger holds yet. *)
Definition not_found_status : gmap string value :=
  {[ "status" := VString "NOT_FOUND" ]}.

(** A network on which the RPC server never reports a final status. *)
Definition pending_env : Env :=
  {| env_AccountDetail := Ok sample_account;
     env_NewTransaction := fun _ ops => Ok (sample_tx ops false);
     env_Sign := fun tx => Ok (sample_tx (tx_operations tx) true);
     env_SubmitTransaction := fun _ _ => Ok sample_transaction;
     env_TransactionDetail := fun _ _ => Err (ErrNew "not found");
     env_GetTransactionStatus := fun _ _ => Ok not_found_status;
     env_select := fun _ => CaseTimer;
     env_ctx_reason := Canceled;
     env_now := even_seconds |}.

(** A clock that is read a little after each tick: the n-th reading is
    [2n] seconds and [n] milliseconds. *)
Definition late_seconds (n : nat) : Z := Z.of_nat n * (2 * Second + 1000000).

(** As [pending_env], with that clock: the transaction is never found
    and its status never becomes final. *)
Definition late_env : Env :=
  {| env_AccountDetail := Ok sample_account;
     env_NewTransaction := fun _ ops => Ok (sample_tx ops false);
     env_Sign := fun tx => Ok (sample_tx (tx_operations tx) true);
     env_SubmitTransaction := fun _ _ => Ok sample_transaction;
     env_TransactionDetail := fun _ _ => Err (ErrNew "not found");
     env_GetTransactionStatus := fun _ _ => Ok not_found_status;
     env_select := fun _ => CaseTimer;
     env_ctx_reason := Canceled;
     env_now := late_seconds |}.

(** A configuration that allows no attempt at all. *)
Definition no_attempt_config : RetryConfig :=
  {| MaxRetries := -1;
     InitialDelay := 1 * Second;
     MaxDelay := 30 * Second;
     BackoffMultiplier := float64_of_int 2 |}.

(** Encoders that refuse the recipient [GBAD] and accept every other
    value. *)
Definition strict_codec : Codec :=
  {| EncodeScValString := fun s => Ok (ScvString s);
     EncodeScValInt64 := fun i => Ok (ScvI64 i);
     EncodeScValAddress := fun a =>
       if String.eqb a "GBAD" then Err (ErrNew "invalid address")
       else Ok (ScvAddress a);
     EncodeScValVec := fun l => Ok (ScvVec l);
     BuildInvokeHostFunctionOp := fun c f args =>
       Ok {| op_contract := c; op_function := f; op_args := args |} |}.

(** Stand-ins for the cryptographic primitives: every key parses, every
    signature verifies, and every recovery yields the same address. *)
Definition sample_address : string :=
  "0x00112233445566778899aabbccddeeff00112233".

Definition sample_crypto : Auth.Crypto :=
  {| Auth.EthPublicKey := unit;
     Auth.SecpPublicKey := unit;
     Auth.TextHash := fun _ => [];
     Auth.SigToPub := fun _ _ => Ok tt;
     Auth.PubkeyToAddressHex := fun _ => sample_address;
     Auth.ed25519_Verify := fun _ _ _ => true;
     Auth.sha256_Sum256 := fun _ => [];
     Auth.secp256k1_ParsePubKey := fun _ => Ok tt;
     Auth.ecdsa_ParseDERSignature := fun _ => Err (ErrNew "malformed signature");
     Auth.ecdsa_Verify := fun _ _ _ => true |}.

(** A 65-byte signature in hexadecimal, with the [0x] prefix; its last
    byte is 27. *)
Definition sample_signature : string :=
  "0x" ++ "0102030405060708090a0b0c0d0e0f101112131415161718191a1b1c1d1e1f20"
       ++ "2122232425262728292a2b2c2d2e2f303132333435363738393a3b3c3d3e3f40"
       ++ "1b".

(** [strings.Map(unicode.ToLower, s)] on the strings of the examples,
    none of which holds a byte of 0x80 or more. *)
Definition ascii_lower (s : string) : string := ToLower s.

End Scenarios.

(* ===================================================================== *)
(** ** Properties of the program escrow contract                          *)
(* ===================================================================== *)

Module EscrowFacts.

Import ProgramEscrow.

Lemma checked_Some x y : checked x = Some y -> y = x /\ i128_min <= x <= i128_max.
Proof.
  unfold checked. destruct (i128_min <=? x) eqn:Hlo; simpl; [|discriminate].
  destruct (x <=? i128_max) eqn:Hhi; [|discriminate].
  intros [= <-]. lia.
Qed.

Lemma checked_sum_Some amounts : forall acc s,
  checked_sum amounts acc = Some s -> s = acc + sum_amounts amounts.
Proof.
  induction amounts as [|a rest IH]; simpl; intros acc s Hs.
  - injection Hs as <-. lia.
  - destruct (checked (acc + a)) as [acc'|] eqn:Hc; [|discriminate].
    apply checked_Some in Hc as [-> _]. apply IH in Hs. lia.
Qed.

(** Amounts that are all accepted have a non-negative total. *)
Lemma valid_amounts_sum amounts :
  forallb valid_amount amounts = true -> 0 <= sum_amounts amounts.
Proof.
  unfold sum_amounts. induction amounts as [|a rest IH]; simpl; [lia|].
  intros H. apply andb_prop in H as [Ha Hrest].
  unfold valid_amount in Ha. apply negb_true_iff, Z.leb_gt in Ha.
  specialize (IH Hrest). lia.
Qed.

(** Every accepted invocation keeps the invariant. *)
Lemma invoke_balance_ok call c c' :
  invoke call c = Some c' -> balance_ok c -> balance_ok c'.
Proof.
  unfold balance_ok.
  destruct call as [now id key tok|amount|caller rcp amount|caller rcps amounts|caller ini];
    simpl; intros Hrun Hinv.
  - unfold init_program in Hrun. destruct (program c); [discriminate|].
    injection Hrun as <-. simpl. lia.
  - unfold lock_program_funds in Hrun. destruct (program c) as [r|]; [|discriminate].
    destruct (amount <=? 0) eqn:Ha; [discriminate|].
    destruct (checked (total_funds r + amount)) as [t|] eqn:Ht; [|discriminate].
    destruct (checked (remaining_balance r + amount)) as [m|] eqn:Hm; [|discriminate].
    injection Hrun as <-. simpl.
    apply checked_Some in Hm as [-> _]. apply checked_Some in Ht as [-> _]. lia.
  - unfold single_payout in Hrun. destruct (program c) as [r|]; [|discriminate].
    destruct (negb _); [discriminate|].
    destruct ((amount >? remaining_balance r) || (amount <=? 0)) eqn:Hg; [discriminate|].
    destruct (checked _) as [m|] eqn:Hm; [|discriminate].
    injection Hrun as <-. simpl.
    apply checked_Some in Hm as [-> _].
    apply orb_false_iff in Hg as [Hg Hp]. lia.
  - unfold batch_payout in Hrun. destruct (program c) as [r|]; [|discriminate].
    destruct (negb (String.eqb _ _)); [discriminate|].
    destruct (negb (_ =? _)%nat); [discriminate|].
    destruct (_ =? 0)%nat; [discriminate|].
    destruct (forallb valid_amount amounts) eqn:Hvalid; [|discriminate]. simpl in Hrun.
    destruct (checked_sum amounts 0) as [sum|] eqn:Hs; [|discriminate].
    destruct (sum >? remaining_balance r) eqn:Hg; [discriminate|].
    destruct (checked _) as [m|] eqn:Hm; [|discriminate].
    injection Hrun as <-. simpl.
    apply checked_Some in Hm as [-> _]. apply checked_sum_Some in Hs.
    apply valid_amounts_sum in Hvalid. lia.
  - unfold refund in Hrun. destruct (program c) as [r|]; [|discriminate].
    destruct (negb _); [discriminate|].
    injection Hrun as <-. simpl. lia.
Qed.

Lemma run_balance_ok calls : forall c c',
  run calls c = Some c' -> balance_ok c -> balance_ok c'.
Proof.
  induction calls as [|call rest IH]; simpl; intros c c' Hrun Hinv.
  - injection Hrun as <-. exact Hinv.
  - destruct (invoke call c) as [c1|] eqn:Hc; [|discriminate].
    eapply IH; [exact Hrun|].
    eapply invoke_balance_ok; eassumption.
Qed.

(** A batch that holds an amount that is not strictly positive is
    rejected, whatever its total. *)
Lemma negative_batch_rejected : run Scenarios.negative_batch_calls empty = None.
Proof. reflexivity. Qed.

(** C1.  Across every sequence of accepted [init_program],
    [lock_program_funds], [single_payout], [batch_payout] and [refund]
    invocations, from the contract as deployed, the stored
    [remaining_balance] is never negative and never exceeds
    [total_funds]. *)
Theorem balance_invariant calls c r :
  run calls empty = Some c ->
  program c = Some r ->
  0 <= remaining_balance r <= total_funds r.
Proof.
  intros Hrun Hprog.
  pose proof (run_balance_ok calls empty c Hrun I) as Hinv.
  unfold balance_ok in Hinv. rewrite Hprog in Hinv. exact Hinv.
Qed.

Lemma balance_invariant_witness :
  run Scenarios.payout_calls empty = Some Scenarios.payout_outcome /\
  0 <= remaining_balance Scenarios.payout_record
    <= total_funds Scenarios.payout_record.
Proof.
  assert (Hrun : run Scenarios.payout_calls empty = Some Scenarios.payout_outcome)
    by reflexivity.
  split; [exact Hrun|].
  exact (balance_invariant Scenarios.payout_calls Scenarios.payout_outcome
           Scenarios.payout_record Hrun eq_refl).
Defined.

End EscrowFacts.

(* ===================================================================== *)
(** ** Properties of the float64 product of the backoff                   *)
(* ===================================================================== *)

Module FloatFacts.

Import Soroban.

(** The number of binary digits of a mantissa. *)
Lemma digits2_log2 p : Z.pos (digits2_pos p) = Z.log2 (Z.pos p) + 1.
Proof.
  induction p as [p IH|p IH|]; simpl digits2_pos.
  - rewrite Pos2Z.inj_succ, IH.
    change (Z.pos p~1) with (2 * Z.pos p + 1). rewrite Z.log2_succ_double by lia. lia.
  - rewrite Pos2Z.inj_succ, IH.
    change (Z.pos p~0) with (2 * Z.pos p). rewrite Z.log2_double by lia. lia.
  - reflexivity.
Qed.

Lemma digits2_shift p : forall k,
  Z.pos (digits2_pos (Pos.iter xO p k)) = Z.pos (digits2_pos p) + Z.pos k.
Proof.
  intros k. induction k as [|k IH] using Pos.peano_ind.
  - simpl. lia.
  - rewrite Pos.iter_succ. simpl digits2_pos. lia.
Qed.

Lemma shift_value p : forall k, Z.pos (Pos.iter xO p k) = Z.pos p * 2 ^ Z.pos k.
Proof.
  intros k. induction k as [|k IH] using Pos.peano_ind.
  - simpl. lia.
  - rewrite Pos.iter_succ, Pos2Z.inj_xO, IH, Pos2Z.inj_succ, Z.pow_succ_r by lia. lia.
Qed.

(** A mantissa of 53 bits with an exponent in range is not shifted. *)
Lemma shr_fexp_normal m e :
  Z.pos (digits2_pos m) = 53 -> -1074 <= e ->
  shr_fexp 53 1024 (Z.pos m) e loc_Exact
    = ({| shr_m := Z.pos m; shr_r := false; shr_s := false |}, e).
Proof.
  intros Hd He. unfold shr_fexp, Zdigits2. rewrite Hd.
  replace (fexp 53 1024 (53 + e) - e) with 0 by (unfold fexp, emin; lia).
  reflexivity.
Qed.

(** Such a mantissa and exponent are a float64 as they are. *)
Lemma round_normal s m e :
  Z.pos (digits2_pos m) = 53 -> -1074 <= e <= 971 ->
  binary_round_aux 53 1024 s (Z.pos m) e loc_Exact = S754_finite s m e.
Proof.
  intros Hd He. unfold binary_round_aux.
  rewrite (shr_fexp_normal m e Hd) by lia.
  cbn [shr_m loc_of_shr_record round_nearest_even].
  rewrite (shr_fexp_normal m e Hd) by lia.
  cbn [shr_m]. destruct (e <=? 1024 - 53) eqn:Hle; [reflexivity|lia].
Qed.

(** A positive integer below 2^53 is a float64: its digits shifted to
    53 bits. *)
Lemma float64_of_pos p :
  Z.pos p < 2 ^ 53 ->
  exists m e,
    float64_of_int (Z.pos p) = S754_finite false m e /\
    Z.pos (digits2_pos m) = 53 /\ -52 <= e <= 0 /\ Z.pos m = Z.pos p * 2 ^ (- e).
Proof.
  intros Hp.
  assert (Hd : 1 <= Z.pos (digits2_pos p) <= 53).
  { rewrite digits2_log2. pose proof (Z.log2_nonneg (Z.pos p)).
    pose proof (proj1 (Z.log2_lt_pow2 (Z.pos p) 53 ltac:(lia)) Hp). lia. }
  unfold float64_of_int, binary_normalize, binary_round.
  replace (fexp 53 1024 (Z.pos (digits2_pos p) + 0)) with (Z.pos (digits2_pos p) - 53)
    by (unfold fexp, emin; lia).
  unfold shl_align.
  destruct (Z.pos (digits2_pos p) - 53 - 0) as [|k|k] eqn:Hk; [|lia|].
  - exists p, 0. split; [|split; [lia|split; [lia|simpl; lia]]].
    apply round_normal; lia.
  - exists (Pos.iter xO p k), (Z.pos (digits2_pos p) - 53).
    split; [|split; [|split]].
    + apply round_normal; [|lia]. rewrite digits2_shift. lia.
    + rewrite digits2_shift. lia.
    + lia.
    + rewrite shift_value. f_equal. f_equal. lia.
Qed.

(** Shifting right what was shifted left loses nothing. *)
Lemma shr_exact : forall k m,
  SpecFloat.iter_pos shr_1 k {| shr_m := Z.pos (Pos.iter xO m k); shr_r := false; shr_s := false |}
    = {| shr_m := Z.pos m; shr_r := false; shr_s := false |}.
Proof.
  induction k as [k IH|k IH|]; intros m; simpl.
  - rewrite IH, IH. reflexivity.
  - rewrite IH, IH. reflexivity.
  - reflexivity.
Qed.

(** Doubling a normal number only adds one to its exponent. *)
Lemma mul_two_normal s m e :
  Z.pos (digits2_pos m) = 53 -> -1074 <= e <= 970 ->
  float64_mul (S754_finite s m e) (float64_of_int 2) = S754_finite s m (e + 1).
Proof.
  intros Hd He.
  change (float64_of_int 2) with (S754_finite false (Pos.iter xO 1%positive 52) (-51)).
  unfold float64_mul, SFmul. rewrite xorb_false_r, Pos.mul_comm.
  change (Pos.iter xO 1%positive 52 * m)%positive with (Pos.iter xO m 52).
  unfold binary_round_aux.
  assert (Hshr : shr_fexp 53 1024 (Z.pos (Pos.iter xO m 52)) (e + -51) loc_Exact
                 = ({| shr_m := Z.pos m; shr_r := false; shr_s := false |}, e + 1)).
  { unfold shr_fexp, Zdigits2. rewrite digits2_shift, Hd.
    replace (fexp 53 1024 (53 + 52 + (e + -51)) - (e + -51)) with 52
      by (unfold fexp, emin; lia).
    unfold shr_record_of_loc, shr. rewrite shr_exact. f_equal. lia. }
  rewrite Hshr. cbn [shr_m loc_of_shr_record round_nearest_even].
  rewrite (shr_fexp_normal m (e + 1) Hd) by lia.
  cbn [shr_m]. destruct (e + 1 <=? 1024 - 53) eqn:Hle; [reflexivity|lia].
Qed.

(** Multiplying a delay by 2.0 is exact for delays from 0 to 2^53 ns:
    the delay is a float64, the product is one, and it fits an [int64]. *)
Lemma scale_two d : 0 <= d <= 2 ^ 53 -> scale d (float64_of_int 2) = 2 * d.
Proof.
  intros Hd. destruct (Z.eq_dec d (2 ^ 53)) as [->|Hne]; [vm_compute; reflexivity|].
  destruct d as [|p|p]; [reflexivity| |lia].
  destruct (float64_of_pos p ltac:(lia)) as (m & e & Hf & Hdig & He & Hm).
  unfold scale. rewrite Hf, mul_two_normal by lia.
  unfold int64_of_float64, float64_trunc.
  assert (Hv : (if 0 <=? e + 1 then Z.pos m * 2 ^ (e + 1) else Z.pos m / 2 ^ (- (e + 1)))
               = 2 * Z.pos p).
  { destruct (0 <=? e + 1) eqn:H0.
    - assert (e = 0 \/ e = -1) as [->| ->] by lia; simpl in *; lia.
    - rewrite Hm. replace (- e) with (Z.succ (- (e + 1))) by lia.
      rewrite Z.pow_succ_r by lia.
      replace (Z.pos p * (2 * 2 ^ (- (e + 1)))) with (2 * Z.pos p * 2 ^ (- (e + 1))) by lia.
      apply Z.div_mul. apply Z.pow_nonzero; lia. }
  rewrite Hv.
  change (2 ^ 63) with 9223372036854775808. change (2 ^ 53) with 9007199254740992 in *.
  destruct (- 9223372036854775808 <=? 2 * Z.pos p) eqn:H1; [|lia].
  destruct (2 * Z.pos p <? 9223372036854775808) eqn:H2; [reflexivity|lia].
Qed.

(** Above 2^53 ns the conversion of the delay to a float64 rounds: the
    product is not twice the delay. *)
Lemma scale_rounds :
  scale (2 ^ 53 + 1) (float64_of_int 2) = 2 ^ 54 /\
  scale (- (2 ^ 53 + 1)) (float64_of_int 2) = - 2 ^ 54.
Proof. split; vm_compute; reflexivity. Qed.

End FloatFacts.

(* ===================================================================== *)
(** ** Properties of the transaction builder                              *)
(* ===================================================================== *)

Module TxFacts.

Import Soroban.

(** [isNonRetryableError] decides the fatal set of the specification. *)
Lemma fatal_iff p : isNonRetryableError p = true <-> fatal p.
Proof.
  unfold isNonRetryableError, fatal, transaction_result_code. split.
  - destruct (Extras p !! "result_codes") as [[| | | | |rc]|] eqn:Hrc; try discriminate.
    destruct (rc !! "transaction") as [[| | |c| |]|] eqn:Hc; try discriminate.
    intros Hlisted. exists c. split; [exists rc; auto|].
    unfold code_listed, nonRetryableCodes in Hlisted. simpl in Hlisted.
    repeat (apply orb_prop in Hlisted as [Hlisted|Hlisted];
      [apply String.eqb_eq in Hlisted; auto|]).
    discriminate.
  - intros [c [[rc [Hrc Ht]] Hc]]. rewrite Hrc, Ht.
    destruct Hc as [Hc|[Hc|[Hc|Hc]]]; subst c; reflexivity.
Qed.

Lemma not_fatal_iff p : isNonRetryableError p = false <-> ~ fatal p.
Proof.
  rewrite <- fatal_iff. destruct (isNonRetryableError p); split; congruence.
Qed.

Lemma sleeps_app l1 l2 : sleeps (l1 ++ l2) = sleeps l1 ++ sleeps l2.
Proof. unfold sleeps. apply omap_app. Qed.

Section RetryLoop.
Variable env : Env.
Variable cfg : RetryConfig.
Variable tx : Tx.

Ltac run_attempt :=
  unfold submit_attempt, backoff_wait, bind, slog, emit, ret, select_ctx_or,
    SubmitTransaction, time_Now, record_event; simpl.

Lemma submit_attempt_submits attempt delay st :
  (st_submits st <= st_submits (snd (submit_attempt env cfg tx attempt delay st))
   <= S (st_submits st))%nat.
Proof.
  run_attempt.
  destruct (0 <? attempt); simpl;
    [destruct (env_select env (st_selects st)); simpl; [lia|]|];
    (destruct (env_SubmitTransaction env (st_submits st) tx) as [resp|[]]; simpl;
     try destruct (isNonRetryableError _); simpl; lia).
Qed.

Lemma submissions_app l1 l2 :
  submissions (l1 ++ l2) = (submissions l1 + submissions l2)%nat.
Proof. unfold submissions. rewrite List.filter_app, List.length_app. reflexivity. Qed.

(** The trace records one submission for each call counted. *)
Lemma submit_attempt_trace attempt delay st :
  (submissions (st_events (snd (submit_attempt env cfg tx attempt delay st)))
     + st_submits st
   = submissions (st_events st)
     + st_submits (snd (submit_attempt env cfg tx attempt delay st)))%nat.
Proof.
  run_attempt.
  destruct (0 <? attempt); simpl;
    [destruct (env_select env (st_selects st)); simpl|];
    try (destruct (env_SubmitTransaction env (st_submits st) tx) as [resp|[]]; simpl;
         try destruct (isNonRetryableError _); simpl);
    unfold submissions; rewrite ?List.filter_app, ?List.length_app; simpl; lia.
Qed.

Lemma submit_attempt_Continue attempt delay st d e st' :
  submit_attempt env cfg tx attempt delay st = (Continue (d, e), st') ->
  env_SubmitTransaction env (st_submits st) tx = Err e /\
  retryable e /\
  (0 < attempt -> env_select env (st_selects st) = CaseTimer) /\
  d = delay_after cfg attempt delay /\
  st_submits st' = S (st_submits st) /\
  st_selects st' = selects_after attempt (st_selects st) /\
  sleeps (st_events st') = sleeps (st_events st) ++ slept attempt delay.
Proof.
  unfold delay_after, slept, selects_after. run_attempt.
  destruct (0 <? attempt) eqn:Ha; simpl;
    [destruct (env_select env (st_selects st)) eqn:Hsel; simpl; [discriminate|]|];
    (destruct (env_SubmitTransaction env (st_submits st) tx) as [resp|[]] eqn:Hsub; simpl;
     try destruct (isNonRetryableError _) eqn:Hf; simpl;
     try discriminate;
     intros [= <- <- <-]; simpl; rewrite ?sleeps_app; simpl;
     repeat split; try reflexivity; try lia;
     try (apply not_fatal_iff; assumption);
     try (rewrite ?app_nil_r; reflexivity)).
Qed.

(** An attempt that returns either was cancelled during the wait, without
    a submission, or returns the outcome of its submission: success, or a
    fatal Horizon error. *)
Lemma submit_attempt_Return attempt delay st r st' :
  submit_attempt env cfg tx attempt delay st = (Return r, st') ->
  (0 < attempt /\ env_select env (st_selects st) = CaseDone /\
   r = Err (env_ctx_err env) /\ st_submits st' = st_submits st /\
   sleeps (st_events st') = sleeps (st_events st)) \/
  (st_submits st' = S (st_submits st) /\
   sleeps (st_events st') = sleeps (st_events st) ++ slept attempt delay /\
   ((exists resp, env_SubmitTransaction env (st_submits st) tx = Ok resp /\
       exists now, r = Ok {| Hash := tx_Hash resp; Ledger := uint32 (tx_Ledger resp);
                             Status := "pending"; Submitted := Some now;
                             Confirmed := None |}) \/
    (exists p, env_SubmitTransaction env (st_submits st) tx = Err (ErrHorizon p) /\
       fatal p /\ r = Err (ErrWrap "non-retryable error" (ErrHorizon p))))).
Proof.
  unfold slept. run_attempt.
  destruct (0 <? attempt) eqn:Ha; simpl;
    [destruct (env_select env (st_selects st)) eqn:Hsel; simpl|].
  - intros [= <- <-]. left. simpl. rewrite !sleeps_app. simpl.
    rewrite !app_nil_r. repeat split; try reflexivity. lia.
  - destruct (env_SubmitTransaction env (st_submits st) tx) as [resp|[]] eqn:Hsub; simpl;
      try destruct (isNonRetryableError _) eqn:Hf; simpl; try discriminate;
      intros [= <- <-]; right; simpl; rewrite !sleeps_app; simpl;
      rewrite ?app_nil_r; (split; [reflexivity|]); (split; [reflexivity|]).
    + left. eauto.
    + right. eexists. split; [reflexivity|]. split; [|reflexivity].
      apply fatal_iff. assumption.
  - destruct (env_SubmitTransaction env (st_submits st) tx) as [resp|[]] eqn:Hsub; simpl;
      try destruct (isNonRetryableError _) eqn:Hf; simpl; try discriminate;
      intros [= <- <-]; right; simpl; rewrite !sleeps_app; simpl;
      rewrite ?app_nil_r; (split; [reflexivity|]); (split; [reflexivity|]).
    + left. eauto.
    + right. eexists. split; [reflexivity|]. split; [|reflexivity].
      apply fatal_iff. assumption.
Qed.

(** C2 at the level of the loop: the attempt with index [k] among those
    of this call, if it is made and fails with a fatal code, ends the
    loop. *)
Lemma submit_loop_fatal : forall n attempt delay last st k p,
  (st_submits st + k < st_submits (snd (submit_loop env cfg tx n attempt delay last st)))%nat ->
  env_SubmitTransaction env (st_submits st + k) tx = Err (ErrHorizon p) ->
  fatal p ->
  fst (submit_loop env cfg tx n attempt delay last st)
    = Err (ErrWrap "non-retryable error" (ErrHorizon p)) /\
  st_submits (snd (submit_loop env cfg tx n attempt delay last st)) = S (st_submits st + k).
Proof.
  induction n as [|n IH]; intros attempt delay last st k p Hreach Hk Hfatal.
  - simpl in Hreach. lia.
  - simpl in *. unfold bind in *.
    destruct (submit_attempt env cfg tx attempt delay st) as [[r|[d e]] st1] eqn:Hs.
    + simpl in *. apply submit_attempt_Return in Hs.
      destruct Hs as [(_ & _ & _ & Hsub & _)|(Hsub & _ & Hout)]; [lia|].
      assert (k = 0%nat) by lia. subst k. rewrite Nat.add_0_r in *.
      destruct Hout as [(resp & Hresp & _)|(p' & Hp' & _ & ->)]; [congruence|].
      rewrite Hk in Hp'. injection Hp' as <-. split; [reflexivity|lia].
    + apply submit_attempt_Continue in Hs.
      destruct Hs as (Hsub & Hretry & _ & _ & Hcount & _).
      destruct k as [|k].
      * rewrite Nat.add_0_r in Hk. rewrite Hk in Hsub. injection Hsub as <-.
        simpl in Hretry. contradiction.
      * specialize (IH (attempt + 1) d (Some e) st1 k p).
        rewrite Hcount in IH. rewrite Nat.add_succ_r in *. simpl in IH.
        apply IH; assumption.
Qed.

Lemma submit_loop_bound : forall n attempt delay last st,
  (st_submits st <= st_submits (snd (submit_loop env cfg tx n attempt delay last st))
     <= st_submits st + n)%nat.
Proof.
  induction n as [|n IH]; intros attempt delay last st.
  - simpl. lia.
  - simpl. unfold bind.
    pose proof (submit_attempt_submits attempt delay st) as Hb.
    destruct (submit_attempt env cfg tx attempt delay st) as [[r|[d e]] st1] eqn:Hs;
      simpl in *.
    + lia.
    + specialize (IH (attempt + 1) d (Some e) st1). lia.
Qed.


Lemma submit_loop_trace : forall n attempt delay last st,
  (submissions (st_events (snd (submit_loop env cfg tx n attempt delay last st)))
     + st_submits st
   = submissions (st_events st)
     + st_submits (snd (submit_loop env cfg tx n attempt delay last st)))%nat.
Proof.
  induction n as [|n IH]; intros attempt delay last st.
  - simpl. lia.
  - simpl. unfold bind.
    pose proof (submit_attempt_trace attempt delay st) as Ht.
    destruct (submit_attempt env cfg tx attempt delay st) as [[r|[d e]] st1] eqn:Hs;
      simpl in *.
    + exact Ht.
    + specialize (IH (attempt + 1) d (Some e) st1). lia.
Qed.

Lemma submit_attempt_retry attempt delay st e :
  (0 < attempt -> env_select env (st_selects st) = CaseTimer) ->
  env_SubmitTransaction env (st_submits st) tx = Err e ->
  retryable e ->
  exists st',
    submit_attempt env cfg tx attempt delay st
      = (Continue (delay_after cfg attempt delay, e), st') /\
    st_submits st' = S (st_submits st) /\
    st_selects st' = selects_after attempt (st_selects st) /\
    sleeps (st_events st') = sleeps (st_events st) ++ slept attempt delay.
Proof.
  intros Hsel Hsub Hretry.
  destruct (submit_attempt env cfg tx attempt delay st) as [[r|[d e']] st'] eqn:Hs.
  - exfalso. apply submit_attempt_Return in Hs.
    destruct Hs as [(Ha & Hdone & _)|(_ & _ & [(resp & Hresp & _)|(p & Hp & Hf & _)])].
    + rewrite (Hsel Ha) in Hdone. discriminate.
    + congruence.
    + rewrite Hsub in Hp. injection Hp as ->. simpl in Hretry. contradiction.
  - apply submit_attempt_Continue in Hs.
    destruct Hs as (Hsub' & _ & _ & -> & Hc & Hn & Hsl).
    rewrite Hsub in Hsub'. injection Hsub' as <-.
    exists st'. repeat split; assumption.
Qed.

Lemma submit_loop_exhaust : forall n attempt delay last st,
  0 < attempt ->
  (forall i, (i < n)%nat ->
     exists e, env_SubmitTransaction env (st_submits st + i) tx = Err e /\ retryable e) ->
  (forall i, (i < n)%nat -> env_select env (st_selects st + i) = CaseTimer) ->
  exists st',
    submit_loop env cfg tx n attempt delay last st
      = (Err (ErrAttempts (MaxRetries cfg + 1) (last_error env tx (st_submits st) n last)), st') /\
    st_submits st' = (st_submits st + n)%nat /\
    sleeps (st_events st') = sleeps (st_events st) ++ code_delays cfg delay n.
Proof.
  induction n as [|n IH]; intros attempt delay last st Ha Hfail Hsel.
  - exists st. simpl. rewrite app_nil_r. repeat split. lia.
  - destruct (Hfail 0%nat ltac:(lia)) as (e & He & Hr).
    rewrite Nat.add_0_r in He.
    destruct (submit_attempt_retry attempt delay st e) as (st1 & Hs & Hc & Hn & Hsl);
      [intros _; specialize (Hsel 0%nat ltac:(lia)); rewrite Nat.add_0_r in Hsel;
       exact Hsel|exact He|exact Hr|].
    unfold delay_after, slept, selects_after in *.
    assert (Hpos : (0 <? attempt) = true) by (apply Z.ltb_lt; lia).
    rewrite Hpos in *.
    destruct (IH (attempt + 1) (next_delay cfg delay) (Some e) st1) as (st' & Hl & Hc' & Hsl').
    + lia.
    + intros i Hi. rewrite Hc. specialize (Hfail (S i) ltac:(lia)).
      rewrite Nat.add_succ_r in Hfail. exact Hfail.
    + intros i Hi. rewrite Hn. specialize (Hsel (S i) ltac:(lia)).
      rewrite Nat.add_succ_r in Hsel. exact Hsel.
    + exists st'. simpl. unfold bind. rewrite Hs. rewrite Hl.
      split; [|split].
      * f_equal. f_equal. f_equal. rewrite Hc. unfold last_error.
        destruct n as [|m]; simpl.
        -- rewrite Nat.add_0_r, He. reflexivity.
        -- rewrite Nat.add_succ_r. reflexivity.
      * lia.
      * rewrite Hsl', Hsl. rewrite <- app_assoc. reflexivity.
Qed.

(** The whole loop when every submission fails with a retryable error and
    the context never fires: [MaxRetries + 1] submissions, a wait before
    each but the first. *)
Lemma submitWithRetry_exhaust st :
  0 <= MaxRetries cfg ->
  (forall i, (i <= Z.to_nat (MaxRetries cfg))%nat ->
     exists e, env_SubmitTransaction env (st_submits st + i) tx = Err e /\ retryable e) ->
  (forall i, (i < Z.to_nat (MaxRetries cfg))%nat ->
     env_select env (st_selects st + i) = CaseTimer) ->
  exists st' e,
    submitWithRetry env cfg tx st = (Err (ErrAttempts (MaxRetries cfg + 1) (Some e)), st') /\
    env_SubmitTransaction env (st_submits st + Z.to_nat (MaxRetries cfg)) tx = Err e /\
    st_submits st' = (st_submits st + Z.to_nat (MaxRetries cfg) + 1)%nat /\
    sleeps (st_events st') = sleeps (st_events st)
      ++ code_delays cfg (InitialDelay cfg) (Z.to_nat (MaxRetries cfg)).
Proof.
  intros Hmax Hfail Hsel. unfold submitWithRetry.
  replace (Z.to_nat (MaxRetries cfg + 1)) with (S (Z.to_nat (MaxRetries cfg))) by lia.
  set (m := Z.to_nat (MaxRetries cfg)) in *.
  destruct (Hfail 0%nat ltac:(lia)) as (e0 & He0 & Hr0).
  rewrite Nat.add_0_r in He0.
  destruct (submit_attempt_retry 0 (InitialDelay cfg) st e0) as (st1 & Hs & Hc & Hn & Hsl);
    [lia|exact He0|exact Hr0|].
  unfold delay_after, slept, selects_after in *. simpl in *.
  destruct (submit_loop_exhaust m (0 + 1) (InitialDelay cfg) (Some e0) st1)
    as (st' & Hl & Hc' & Hsl').
  - lia.
  - intros i Hi. rewrite Hc. specialize (Hfail (S i) ltac:(lia)).
    rewrite Nat.add_succ_r in Hfail. exact Hfail.
  - intros i Hi. rewrite Hn. apply Hsel. exact Hi.
  - destruct (Hfail m ltac:(lia)) as (e & He & Hr).
    exists st', e. unfold bind. rewrite Hs, Hl.
    split; [|split; [exact He|split]].
    + f_equal. f_equal. f_equal. rewrite Hc. unfold last_error.
      destruct m as [|m'] eqn:Hm.
      * rewrite Nat.add_0_r in He. congruence.
      * rewrite Nat.add_succ_r in He. simpl. rewrite He. reflexivity.
    + lia.
    + rewrite Hsl', Hsl, app_nil_r. reflexivity.
Qed.


(** Whatever the environment does, the delays slept by the loop are an
    initial segment of the delays the code computes. *)
Lemma submit_loop_sleeps : forall n attempt delay last st,
  0 < attempt ->
  exists j, (j <= n)%nat /\
    sleeps (st_events (snd (submit_loop env cfg tx n attempt delay last st)))
      = sleeps (st_events st) ++ code_delays cfg delay j.
Proof.
  induction n as [|n IH]; intros attempt delay last st Ha.
  - exists 0%nat. simpl. rewrite app_nil_r. split; [lia|reflexivity].
  - simpl. unfold bind.
    assert (Hpos : (0 <? attempt) = true) by (apply Z.ltb_lt; lia).
    destruct (submit_attempt env cfg tx attempt delay st) as [[r|[d e]] st1] eqn:Hs.
    + apply submit_attempt_Return in Hs. simpl.
      destruct Hs as [(_ & _ & _ & _ & Hsl)|(_ & Hsl & _)].
      * exists 0%nat. simpl. rewrite app_nil_r. split; [lia|exact Hsl].
      * exists 1%nat. simpl. unfold slept in Hsl. rewrite Hpos in Hsl.
        split; [lia|exact Hsl].
    + apply submit_attempt_Continue in Hs.
      destruct Hs as (_ & _ & _ & -> & _ & _ & Hsl).
      unfold slept, delay_after in *. rewrite Hpos in *.
      destruct (IH (attempt + 1) (next_delay cfg delay) (Some e) st1 ltac:(lia))
        as (j & Hj & Hsl').
      exists (S j). split; [lia|]. rewrite Hsl', Hsl, <- app_assoc. reflexivity.
Qed.

Lemma submitWithRetry_sleeps st :
  exists j, (Z.of_nat j <= Z.max 0 (MaxRetries cfg))%Z /\
    sleeps (st_events (snd (submitWithRetry env cfg tx st)))
      = sleeps (st_events st) ++ code_delays cfg (InitialDelay cfg) j.
Proof.
  unfold submitWithRetry.
  destruct (Z.to_nat (MaxRetries cfg + 1)) as [|m] eqn:Hm.
  - exists 0%nat. simpl. rewrite app_nil_r. split; [lia|reflexivity].
  - simpl. unfold bind.
    destruct (submit_attempt env cfg tx 0 (InitialDelay cfg) st) as [[r|[d e]] st1] eqn:Hs.
    + apply submit_attempt_Return in Hs. simpl.
      destruct Hs as [(Hlt & _)|(_ & Hsl & _)]; [lia|].
      exists 0%nat. simpl in *. split; [lia|exact Hsl].
    + apply submit_attempt_Continue in Hs.
      destruct Hs as (_ & _ & _ & -> & _ & _ & Hsl).
      unfold slept, delay_after in *. simpl in *. rewrite app_nil_r in Hsl.
      destruct (submit_loop_sleeps m (0 + 1) (InitialDelay cfg) (Some e) st1 ltac:(lia))
        as (j & Hj & Hsl').
      exists j. split; [lia|]. rewrite Hsl', Hsl. reflexivity.
Qed.

Lemma submitWithRetry_bound st :
  (Z.of_nat (st_submits (snd (submitWithRetry env cfg tx st)))
     <= Z.of_nat (st_submits st) + Z.max 0 (MaxRetries cfg + 1))%Z.
Proof.
  unfold submitWithRetry.
  pose proof (submit_loop_bound (Z.to_nat (MaxRetries cfg + 1)) 0 (InitialDelay cfg) None st).
  lia.
Qed.

(** With at least one iteration, the first attempt is always made. *)
Lemma submitWithRetry_first st :
  0 <= MaxRetries cfg ->
  (st_submits st < st_submits (snd (submitWithRetry env cfg tx st)))%nat.
Proof.
  intros Hmax. unfold submitWithRetry.
  replace (Z.to_nat (MaxRetries cfg + 1)) with (S (Z.to_nat (MaxRetries cfg))) by lia.
  simpl. unfold bind.
  destruct (submit_attempt env cfg tx 0 (InitialDelay cfg) st) as [[r|[d e]] st1] eqn:Hs.
  - apply submit_attempt_Return in Hs. simpl.
    destruct Hs as [(Hlt & _)|(Hc & _)]; lia.
  - apply submit_attempt_Continue in Hs.
    destruct Hs as (_ & _ & _ & _ & Hc & _).
    pose proof (submit_loop_bound (Z.to_nat (MaxRetries cfg)) (0 + 1) d (Some e) st1).
    lia.
Qed.

Lemma next_delay_two d :
  BackoffMultiplier cfg = float64_of_int 2 -> 0 <= d <= 2 ^ 53 ->
  next_delay cfg d = Z.min (2 * d) (MaxDelay cfg).
Proof.
  intros Hm Hd. unfold next_delay. rewrite Hm, (FloatFacts.scale_two d Hd).
  destruct (2 * d >? MaxDelay cfg) eqn:Hg; lia.
Qed.

Lemma claimed_delay_next k :
  InitialDelay cfg <= MaxDelay cfg -> 1 <= k ->
  Z.min (2 * claimed_delay cfg k) (MaxDelay cfg) = claimed_delay cfg (k + 1).
Proof.
  intros Hle Hk. unfold claimed_delay.
  replace (k + 1 - 1) with (Z.succ (k - 1)) by lia.
  rewrite Z.pow_succ_r by lia.
  pose proof (Z.pow_pos_nonneg 2 (k - 1) ltac:(lia) ltac:(lia)) as Hpow.
  set (q := 2 ^ (k - 1)) in *.
  destruct (Z_le_gt_dec (InitialDelay cfg * q) (MaxDelay cfg)) as [Hc|Hc].
  - rewrite (Z.min_l _ _ Hc). f_equal. lia.
  - assert (0 <= MaxDelay cfg) by nia.
    rewrite (Z.min_r (InitialDelay cfg * q)) by lia.
    rewrite Z.min_r by lia. rewrite Z.min_r by nia. reflexivity.
Qed.

Lemma claimed_delay_range k :
  0 <= InitialDelay cfg -> InitialDelay cfg <= MaxDelay cfg -> MaxDelay cfg <= 2 ^ 53 ->
  1 <= k -> 0 <= claimed_delay cfg k <= 2 ^ 53.
Proof.
  intros H0 Hle Hmax Hk. unfold claimed_delay.
  pose proof (Z.pow_pos_nonneg 2 (k - 1) ltac:(lia) ltac:(lia)) as Hpow.
  set (q := 2 ^ (k - 1)) in *.
  assert (0 <= InitialDelay cfg * q) by nia. lia.
Qed.

Lemma code_delays_claimed :
  BackoffMultiplier cfg = float64_of_int 2 ->
  0 <= InitialDelay cfg -> InitialDelay cfg <= MaxDelay cfg -> MaxDelay cfg <= 2 ^ 53 ->
  forall n k, (1 <= k)%nat ->
    code_delays cfg (claimed_delay cfg (Z.of_nat k)) n
      = List.map (fun j => claimed_delay cfg (Z.of_nat j)) (seq k n).
Proof.
  intros Hm H0 Hle Hmax. induction n as [|n IH]; intros k Hk; simpl; [reflexivity|].
  f_equal. rewrite next_delay_two by (try exact Hm; apply claimed_delay_range; lia).
  rewrite claimed_delay_next by lia.
  replace (Z.of_nat k + 1) with (Z.of_nat (S k)) by lia.
  apply IH. lia.
Qed.

Lemma claimed_delay_first :
  InitialDelay cfg <= MaxDelay cfg -> claimed_delay cfg 1 = InitialDelay cfg.
Proof. intros Hle. unfold claimed_delay. simpl. lia. Qed.

End RetryLoop.

Section BuildAndSubmitFacts.

Variable env : Env.
Variable cfg : RetryConfig.
Variable operations : list Operation.

Lemma BuildAndSubmit_signed st accountDetail tx tx' :
  env_AccountDetail env = Ok accountDetail ->
  env_NewTransaction env accountDetail operations = Ok tx ->
  env_Sign env tx = Ok tx' ->
  BuildAndSubmit env cfg operations st = submitWithRetry env cfg tx' st.
Proof.
  intros Ha Hb Hs. unfold BuildAndSubmit. rewrite Ha, Hb, Hs. reflexivity.
Qed.

(** Either the steps before the submission fail and nothing happens, or
    the call is the retry loop on the signed transaction. *)
Lemma BuildAndSubmit_cases st :
  snd (BuildAndSubmit env cfg operations st) = st \/
  exists tx', BuildAndSubmit env cfg operations st = submitWithRetry env cfg tx' st.
Proof.
  unfold BuildAndSubmit.
  destruct (env_AccountDetail env) as [a|]; [|left; reflexivity].
  destruct (env_NewTransaction env a operations) as [tx|]; [|left; reflexivity].
  destruct (env_Sign env tx) as [tx'|]; [|left; reflexivity].
  right. exists tx'. reflexivity.
Qed.

End BuildAndSubmitFacts.

(** C2.  In a call of [BuildAndSubmit] that reaches the submission of the
    signed transaction, a submission attempt that fails with a Horizon
    error whose transaction result code is in the fatal set ends the
    call: the error is returned, wrapped as non-retryable, and that
    attempt is the last one made.  In particular a fatal failure of the
    first attempt leaves exactly one submission, in the count of calls
    and in the trace. *)
Theorem fatal_error_not_retried env cfg operations st accountDetail tx tx' p :
  env_AccountDetail env = Ok accountDetail ->
  env_NewTransaction env accountDetail operations = Ok tx ->
  env_Sign env tx = Ok tx' ->
  fatal p ->
  (forall k,
     (st_submits st + k < st_submits (snd (BuildAndSubmit env cfg operations st)))%nat ->
     env_SubmitTransaction env (st_submits st + k) tx' = Err (ErrHorizon p) ->
     fst (BuildAndSubmit env cfg operations st)
       = Err (ErrWrap "non-retryable error" (ErrHorizon p)) /\
     st_submits (snd (BuildAndSubmit env cfg operations st)) = S (st_submits st + k)) /\
  (0 <= MaxRetries cfg ->
   env_SubmitTransaction env (st_submits st) tx' = Err (ErrHorizon p) ->
   fst (BuildAndSubmit env cfg operations st)
     = Err (ErrWrap "non-retryable error" (ErrHorizon p)) /\
   st_submits (snd (BuildAndSubmit env cfg operations st)) = S (st_submits st) /\
   submissions (st_events (snd (BuildAndSubmit env cfg operations st)))
     = S (submissions (st_events st))).
Proof.
  intros Ha Hb Hs Hfatal.
  rewrite (BuildAndSubmit_signed env cfg operations st _ _ _ Ha Hb Hs).
  assert (Hgen : forall k,
     (st_submits st + k < st_submits (snd (submitWithRetry env cfg tx' st)))%nat ->
     env_SubmitTransaction env (st_submits st + k) tx' = Err (ErrHorizon p) ->
     fst (submitWithRetry env cfg tx' st)
       = Err (ErrWrap "non-retryable error" (ErrHorizon p)) /\
     st_submits (snd (submitWithRetry env cfg tx' st)) = S (st_submits st + k)).
  { intros k Hreach Hk. unfold submitWithRetry in *.
    apply submit_loop_fatal; assumption. }
  split; [exact Hgen|].
  intros Hmax Hfirst.
  pose proof (submitWithRetry_first env cfg tx' st Hmax) as Hreach.
  specialize (Hgen 0%nat). rewrite Nat.add_0_r in Hgen.
  destruct (Hgen Hreach Hfirst) as [Hres Hcount].
  split; [exact Hres|]. split; [exact Hcount|].
  pose proof (submit_loop_trace env cfg tx' (Z.to_nat (MaxRetries cfg + 1)) 0
                (InitialDelay cfg) None st) as Htrace.
  unfold submitWithRetry in *. lia.
Qed.

Lemma bad_seq_is_fatal : fatal Scenarios.bad_seq_problem.
Proof.
  exists "tx_bad_seq". split.
  - exists {[ "transaction" := VString "tx_bad_seq" ]}. split; reflexivity.
  - right. left. reflexivity.
Defined.

Lemma fatal_error_not_retried_witness :
  fst (BuildAndSubmit (Scenarios.failing_env (ErrHorizon Scenarios.bad_seq_problem))
         DefaultRetryConfig [] init_state)
    = Err (ErrWrap "non-retryable error" (ErrHorizon Scenarios.bad_seq_problem)) /\
  st_submits (snd (BuildAndSubmit
         (Scenarios.failing_env (ErrHorizon Scenarios.bad_seq_problem))
         DefaultRetryConfig [] init_state)) = 1%nat /\
  submissions (st_events (snd (BuildAndSubmit
         (Scenarios.failing_env (ErrHorizon Scenarios.bad_seq_problem))
         DefaultRetryConfig [] init_state))) = 1%nat.
Proof.
  apply (fatal_error_not_retried
           (Scenarios.failing_env (ErrHorizon Scenarios.bad_seq_problem))
           DefaultRetryConfig [] init_state
           Scenarios.sample_account (Scenarios.sample_tx [] false)
           (Scenarios.sample_tx [] true) Scenarios.bad_seq_problem
           eq_refl eq_refl eq_refl bad_seq_is_fatal).
  - simpl. lia.
  - reflexivity.
Defined.

(** C3, as stated, does not hold for every configuration: the cap is
    applied only after a delay has been multiplied, so with an initial
    delay of 60s and a cap of 30s the wait before the first retry is 60s,
    where the formula gives min(60s, 30s) = 30s. *)
Lemma first_delay_is_not_capped :
  ~ (forall env cfg operations st k d,
       BackoffMultiplier cfg = float64_of_int 2 ->
       sleeps (st_events (snd (BuildAndSubmit env cfg operations st))) !! k = Some d ->
       d = claimed_delay cfg (Z.of_nat k + 1)).
Proof.
  intros Hclaim.
  specialize (Hclaim (Scenarios.failing_env (ErrHorizon Scenarios.too_late_problem))
                Scenarios.slow_start_config [] init_state 0%nat (60 * Second)).
  assert (Hbad : 60 * Second = claimed_delay Scenarios.slow_start_config (Z.of_nat 0 + 1)).
  { apply Hclaim; reflexivity. }
  vm_compute in Hbad. discriminate Hbad.
Qed.

(** C3, amended.  With a multiplier of 2.0, an initial delay that is not
    negative and not above the cap, and a cap of at most 2^53 ns (about
    104 days, up to which the float64 product is exact), in every call
    of [BuildAndSubmit]: at most [MaxRetries + 1] submissions are made;
    the delays slept, in order, are min(InitialDelay * 2^(k-1), MaxDelay)
    for k = 1, 2, ...; and when all [MaxRetries + 1] attempts fail with
    errors outside the fatal set and the context does not fire during
    the waits, the returned error carries the attempt count
    [MaxRetries + 1] and the error of the last submission, after exactly
    [MaxRetries] waits. *)
Theorem retry_backoff_schedule env cfg operations st :
  BackoffMultiplier cfg = float64_of_int 2 ->
  0 <= InitialDelay cfg ->
  InitialDelay cfg <= MaxDelay cfg ->
  MaxDelay cfg <= 2 ^ 53 ->
  Z.of_nat (st_submits (snd (BuildAndSubmit env cfg operations st)))
    <= Z.of_nat (st_submits st) + Z.max 0 (MaxRetries cfg + 1) /\
  (exists j, Z.of_nat j <= Z.max 0 (MaxRetries cfg) /\
     sleeps (st_events (snd (BuildAndSubmit env cfg operations st)))
       = sleeps (st_events st)
           ++ List.map (fun k => claimed_delay cfg (Z.of_nat k)) (seq 1 j)) /\
  (forall accountDetail tx tx',
     env_AccountDetail env = Ok accountDetail ->
     env_NewTransaction env accountDetail operations = Ok tx ->
     env_Sign env tx = Ok tx' ->
     0 <= MaxRetries cfg ->
     (forall i, (i <= Z.to_nat (MaxRetries cfg))%nat ->
        exists e, env_SubmitTransaction env (st_submits st + i) tx' = Err e /\ retryable e) ->
     (forall i, (i < Z.to_nat (MaxRetries cfg))%nat ->
        env_select env (st_selects st + i) = CaseTimer) ->
     exists e,
       fst (BuildAndSubmit env cfg operations st)
         = Err (ErrAttempts (MaxRetries cfg + 1) (Some e)) /\
       env_SubmitTransaction env (st_submits st + Z.to_nat (MaxRetries cfg)) tx' = Err e /\
       st_submits (snd (BuildAndSubmit env cfg operations st))
         = (st_submits st + Z.to_nat (MaxRetries cfg) + 1)%nat /\
       sleeps (st_events (snd (BuildAndSubmit env cfg operations st)))
         = sleeps (st_events st)
             ++ List.map (fun k => claimed_delay cfg (Z.of_nat k))
                         (seq 1 (Z.to_nat (MaxRetries cfg)))).
Proof.
  intros Hmult H0 Hcap Hmax53.
  assert (Hsched : forall n,
            code_delays cfg (InitialDelay cfg) n
              = List.map (fun k => claimed_delay cfg (Z.of_nat k)) (seq 1 n)).
  { intros n. rewrite <- (claimed_delay_first cfg Hcap).
    apply (code_delays_claimed cfg Hmult H0 Hcap Hmax53 n 1%nat). lia. }
  split; [|split].
  - destruct (BuildAndSubmit_cases env cfg operations st) as [Hst|(tx' & Hrun)].
    + rewrite Hst. lia.
    + rewrite Hrun. apply submitWithRetry_bound.
  - destruct (BuildAndSubmit_cases env cfg operations st) as [Hst|(tx' & Hrun)].
    + exists 0%nat. rewrite Hst. simpl. rewrite app_nil_r. split; [lia|reflexivity].
    + rewrite Hrun.
      destruct (submitWithRetry_sleeps env cfg tx' st) as (j & Hj & Hsl).
      exists j. split; [exact Hj|]. rewrite Hsl, Hsched. reflexivity.
  - intros accountDetail tx tx' Ha Hb Hs Hmax Hfail Hsel.
    rewrite (BuildAndSubmit_signed env cfg operations st _ _ _ Ha Hb Hs).
    destruct (submitWithRetry_exhaust env cfg tx' st Hmax Hfail Hsel)
      as (st' & e & Hrun & He & Hc & Hsl).
    exists e. rewrite Hrun. simpl.
    repeat split; try assumption. rewrite Hsl, Hsched. reflexivity.
Qed.

Lemma too_late_is_retryable : retryable (ErrHorizon Scenarios.too_late_problem).
Proof.
  simpl. apply not_fatal_iff. reflexivity.
Defined.

Lemma retry_backoff_schedule_witness :
  sleeps (st_events (snd (BuildAndSubmit
      (Scenarios.failing_env (ErrHorizon Scenarios.too_late_problem))
      DefaultRetryConfig [] init_state)))
    = [1 * Second; 2 * Second; 4 * Second] /\
  fst (BuildAndSubmit
      (Scenarios.failing_env (ErrHorizon Scenarios.too_late_problem))
      DefaultRetryConfig [] init_state)
    = Err (ErrAttempts 4 (Some (ErrHorizon Scenarios.too_late_problem))) /\
  st_submits (snd (BuildAndSubmit
      (Scenarios.failing_env (ErrHorizon Scenarios.too_late_problem))
      DefaultRetryConfig [] init_state)) = 4%nat.
Proof.
  destruct (retry_backoff_schedule
              (Scenarios.failing_env (ErrHorizon Scenarios.too_late_problem))
              DefaultRetryConfig [] init_state)
    as (_ & _ & Hall).
  - reflexivity.
  - vm_compute. discriminate.
  - vm_compute. discriminate.
  - vm_compute. discriminate.
  - destruct (Hall Scenarios.sample_account (Scenarios.sample_tx [] false)
                (Scenarios.sample_tx [] true) eq_refl eq_refl eq_refl)
      as (e & Hres & He & Hcount & Hsl).
    + vm_compute. discriminate.
    + intros i _. exists (ErrHorizon Scenarios.too_late_problem).
      split; [reflexivity|exact too_late_is_retryable].
    + intros i _. reflexivity.
    + simpl in He. injection He as <-.
      split; [exact Hsl|]. split; [exact Hres|exact Hcount].
Defined.

End TxFacts.

(* ===================================================================== *)
(** ** Properties of the confirmation poller                              *)
(* ===================================================================== *)

Module ConfirmFacts.

Import Soroban.

Section WaitLoop.
Variable env : Env.
Variable txHash : string.
Variable deadline : Z.

Ltac run_tick :=
  unfold wait_tick, poll_tick, bind, slog, emit, ret, select_ctx_or,
    TransactionDetail, GetTransactionStatus, time_Now, record_event; simpl.

Lemma wait_tick_Continue st st' :
  wait_tick env txHash deadline st = (Continue tt, st') ->
  env_select env (st_selects st) = CaseTimer /\
  env_now env (st_clock_reads st) <= deadline /\
  (exists e, env_TransactionDetail env (st_details st) txHash = Err e) /\
  st' = {| st_submits := st_submits st;
           st_details := S (st_details st);
           st_statuses := st_statuses st;
           st_selects := S (st_selects st);
           st_clock_reads := S (st_clock_reads st);
           st_events := (st_events st ++ [EvTick]) ++ [EvTransactionDetail txHash] |}.
Proof.
  run_tick.
  destruct (env_select env (st_selects st)) eqn:Hsel; simpl; [discriminate|].
  destruct (env_now env (st_clock_reads st) >? deadline) eqn:Hnow; simpl; [discriminate|].
  destruct (env_TransactionDetail env (st_details st) txHash) as [tx|e] eqn:Hd; simpl;
    [discriminate|].
  intros [= <-]. repeat split; eauto. lia.
Qed.

Lemma wait_tick_Return st r st' :
  wait_tick env txHash deadline st = (Return r, st') ->
  (env_select env (st_selects st) = CaseDone /\
   r = Err (env_ctx_err env) /\ st_details st' = st_details st) \/
  (env_select env (st_selects st) = CaseTimer /\
   env_now env (st_clock_reads st) > deadline /\
   r = Err (timeout_error txHash) /\ st_details st' = st_details st) \/
  (env_select env (st_selects st) = CaseTimer /\
   env_now env (st_clock_reads st) <= deadline /\
   exists tx, env_TransactionDetail env (st_details st) txHash = Ok tx /\
     r = Ok {| Hash := txHash; Ledger := uint32 (tx_Ledger tx); Status := "success";
               Submitted := Some (env_now env (S (st_clock_reads st)));
               Confirmed := Some (env_now env (S (S (st_clock_reads st)))) |} /\
     st_details st' = S (st_details st)).
Proof.
  run_tick.
  destruct (env_select env (st_selects st)) eqn:Hsel; simpl.
  { intros [= <- <-]. left. auto. }
  destruct (env_now env (st_clock_reads st) >? deadline) eqn:Hnow; simpl.
  { intros [= <- <-]. right. left. repeat split. lia. }
  destruct (env_TransactionDetail env (st_details st) txHash) as [tx|e] eqn:Hd; simpl;
    [|discriminate].
  intros [= <- <-]. right. right. repeat split; [lia|]. exists tx. auto.
Qed.

Lemma after_polls_0 st : after_polls txHash 0 st = st.
Proof.
  unfold after_polls. destruct st; simpl. rewrite !Nat.add_0_r, app_nil_r. reflexivity.
Qed.

Lemma wait_loop_polls : forall j fuel st,
  (forall i, (i < j)%nat ->
     env_select env (st_selects st + i) = CaseTimer /\
     env_now env (st_clock_reads st + i) <= deadline /\
     exists e, env_TransactionDetail env (st_details st + i) txHash = Err e) ->
  wait_loop env (j + fuel) txHash deadline st
    = wait_loop env fuel txHash deadline (after_polls txHash j st).
Proof.
  induction j as [|j IH]; intros fuel st Hpoll.
  - rewrite after_polls_0. reflexivity.
  - destruct (Hpoll 0%nat ltac:(lia)) as (Hsel & Hnow & e & Hd).
    rewrite Nat.add_0_r in *.
    simpl. unfold bind.
    destruct (wait_tick env txHash deadline st) as [[r|[]] st1] eqn:Ht.
    + exfalso. apply wait_tick_Return in Ht.
      destruct Ht as [(Hs & _)|[(_ & Hn & _)|(_ & _ & tx & Hd' & _)]];
        [congruence|lia|congruence].
    + apply wait_tick_Continue in Ht. destruct Ht as (_ & _ & _ & ->).
      rewrite IH.
      * f_equal. unfold after_polls. simpl. f_equal; try lia.
        rewrite <- !app_assoc. reflexivity.
      * intros i Hi. simpl. specialize (Hpoll (S i) ltac:(lia)).
        rewrite !Nat.add_succ_r in Hpoll. exact Hpoll.
Qed.



Lemma wait_tick_done st :
  env_select env (st_selects st) = CaseDone ->
  exists st', wait_tick env txHash deadline st = (Return (Err (env_ctx_err env)), st') /\
    st_details st' = st_details st /\
    st_events st' = st_events st ++ [EvCtxDone].
Proof.
  intros Hsel. run_tick. rewrite Hsel. simpl. eexists. split; [reflexivity|]. split; reflexivity.
Qed.

Lemma wait_tick_expired st :
  env_select env (st_selects st) = CaseTimer ->
  env_now env (st_clock_reads st) > deadline ->
  exists st', wait_tick env txHash deadline st = (Return (Err (timeout_error txHash)), st') /\
    st_details st' = st_details st /\
    st_events st' = st_events st ++ [EvTick].
Proof.
  intros Hsel Hnow. run_tick. rewrite Hsel. simpl.
  destruct (env_now env (st_clock_reads st) >? deadline) eqn:Hg; [|lia]. simpl.
  eexists. split; [reflexivity|]. split; reflexivity.
Qed.

Lemma wait_tick_found st tx :
  env_select env (st_selects st) = CaseTimer ->
  env_now env (st_clock_reads st) <= deadline ->
  env_TransactionDetail env (st_details st) txHash = Ok tx ->
  exists st',
    wait_tick env txHash deadline st
      = (Return (Ok {| Hash := txHash; Ledger := uint32 (tx_Ledger tx);
                       Status := "success";
                       Submitted := Some (env_now env (S (st_clock_reads st)));
                       Confirmed := Some (env_now env (S (S (st_clock_reads st)))) |}),
         st') /\
    st_details st' = S (st_details st).
Proof.
  intros Hsel Hnow Hd. run_tick. rewrite Hsel. simpl.
  destruct (env_now env (st_clock_reads st) >? deadline) eqn:Hg; [lia|]. simpl.
  rewrite Hd. simpl. eexists. split; reflexivity.
Qed.

(** The loop returns as soon as a reading of the clock is past the
    deadline: each pass that goes round again reads the clock once. *)
Lemma wait_loop_returns : forall fuel st i,
  (i < fuel)%nat ->
  env_now env (st_clock_reads st + i) > deadline ->
  exists r, fst (wait_loop env fuel txHash deadline st) = Some r.
Proof.
  induction fuel as [|fuel IH]; intros st i Hi Hnow; [lia|].
  simpl. unfold bind.
  destruct (wait_tick env txHash deadline st) as [[r|[]] st1] eqn:Ht; simpl.
  - eauto.
  - apply wait_tick_Continue in Ht. destruct Ht as (_ & Hle & _ & ->).
    destruct i as [|i]; [rewrite Nat.add_0_r in Hnow; lia|].
    apply (IH _ i); [lia|]. simpl. rewrite Nat.add_succ_r in Hnow. exact Hnow.
Qed.

End WaitLoop.

Section Poll.
Variable env : Env.
Variable txHash : string.
Variable deadline : Z.



End Poll.


Section Confirmation.
Variable env : Env.
Variable txHash : string.

Lemma ticks_within_spec timeout (i : nat) :
  0 <= timeout ->
  (Z.of_nat (S i) * poll_period <= timeout <-> (i < ticks_within timeout)%nat).
Proof.
  intros Ht. unfold ticks_within, poll_period, Second.
  pose proof (Z.div_mod timeout (2 * 1000000000) ltac:(lia)) as Hdm.
  pose proof (Z.mod_pos_bound timeout (2 * 1000000000) ltac:(lia)) as Hmod.
  pose proof (Z.div_pos timeout (2 * 1000000000) Ht ltac:(lia)) as Hq.
  split; intros H; nia.
Qed.

Lemma WaitForConfirmation_unfold fuel timeout st :
  WaitForConfirmation env fuel txHash timeout st
    = wait_loop env fuel txHash (env_now env (st_clock_reads st) + timeout) (loop_start st).
Proof. reflexivity. Qed.

(** With no tick early, a tick that is not after the deadline is one of
    the ticks that fit in the timeout. *)
Lemma tick_fits st timeout (k : nat) :
  ticker_not_early env st ->
  tick_reading env st k <= deadline_of env st timeout ->
  (k < ticks_within timeout)%nat.
Proof.
  intros Hclock Hnow. specialize (Hclock k). unfold deadline_of in Hnow.
  assert (Hk : Z.of_nat (S k) * poll_period <= timeout) by lia.
  assert (Ht : 0 <= timeout) by (unfold poll_period, Second in Hk; lia).
  apply ticks_within_spec; assumption.
Qed.

(** With no tick early, the tick after those that fit in the timeout is
    after the deadline. *)
Lemma tick_after_deadline st timeout :
  ticker_not_early env st ->
  tick_reading env st (ticks_within timeout) > deadline_of env st timeout.
Proof.
  intros Hclock.
  destruct (Z_le_gt_dec (tick_reading env st (ticks_within timeout))
              (deadline_of env st timeout)) as [Hle|Hgt]; [|exact Hgt].
  apply (tick_fits st timeout _ Hclock) in Hle. lia.
Qed.

(** After [k] passes of the loop the number of lookups still to come is
    at most the number of ticks left. *)
Lemma wait_loop_lookups_left st0 timeout :
  ticker_not_early env st0 ->
  forall fuel (k : nat) st,
    st_clock_reads st = (S (st_clock_reads st0) + k)%nat ->
    (st_details (snd (wait_loop env fuel txHash (deadline_of env st0 timeout) st)) + k
     <= st_details st + Nat.max k (ticks_within timeout))%nat.
Proof.
  intros Hclock. induction fuel as [|fuel IH]; intros k st Hreads.
  - simpl. lia.
  - simpl. unfold bind.
    destruct (wait_tick env txHash _ st) as [[r|[]] st1] eqn:Ht; simpl.
    + apply wait_tick_Return in Ht.
      destruct Ht as [(_ & _ & Hd)|[(_ & _ & _ & Hd)|(_ & Hnow & tx & _ & _ & Hd)]];
        rewrite Hd; try lia.
      rewrite Hreads in Hnow. apply (tick_fits st0 timeout k Hclock) in Hnow. lia.
    + apply wait_tick_Continue in Ht.
      destruct Ht as (_ & Hnow & _ & ->).
      rewrite Hreads in Hnow. apply (tick_fits st0 timeout k Hclock) in Hnow.
      specialize (IH (S k)
        {| st_submits := st_submits st; st_details := S (st_details st);
           st_statuses := st_statuses st; st_selects := S (st_selects st);
           st_clock_reads := S (st_clock_reads st);
           st_events := (st_events st ++ [EvTick]) ++ [EvTransactionDetail txHash] |}).
      simpl in IH. specialize (IH ltac:(lia)). lia.
Qed.

(** C4.  [WaitForConfirmation] creates a ticker of period 2 seconds and
    looks the transaction up once per tick.  After [j] ticks that polled
    without finding the transaction, at the next pass: (a) if the context
    is done the call returns the context's error at once, with no
    further lookup; (b) if the clock is not after the deadline and the
    lookup finds the transaction the call returns it; (c) if the clock
    is after the deadline the call returns the timeout error, with no
    further lookup.  The context's error is not the timeout error.  And
    since no tick of a 2-second ticker is early, the call returns within
    one pass more than the ticks that fit in the timeout, after at most
    that many lookups. *)
Theorem wait_for_confirmation st fuel timeout (j : nat) :
  (j < fuel)%nat ->
  (forall i, (i < j)%nat -> polls_unfound env txHash st timeout i) ->
  (env_select env (st_selects st + j) = CaseDone ->
     fst (WaitForConfirmation env fuel txHash timeout st)
       = Some (Err (env_ctx_err env)) /\
     st_details (snd (WaitForConfirmation env fuel txHash timeout st))
       = (st_details st + j)%nat /\
     st_events (snd (WaitForConfirmation env fuel txHash timeout st))
       = st_events st ++ [EvNewTicker (2 * Second)]
           ++ concat (repeat [EvTick; EvTransactionDetail txHash] j)
           ++ [EvCtxDone]) /\
  (env_select env (st_selects st + j) = CaseTimer ->
     tick_reading env st j <= deadline_of env st timeout ->
     forall tx, env_TransactionDetail env (st_details st + j) txHash = Ok tx ->
     exists r,
       fst (WaitForConfirmation env fuel txHash timeout st) = Some (Ok r) /\
       Hash r = txHash /\ Ledger r = uint32 (tx_Ledger tx) /\
       Status r = "success" /\
       st_details (snd (WaitForConfirmation env fuel txHash timeout st))
         = (st_details st + j + 1)%nat) /\
  (env_select env (st_selects st + j) = CaseTimer ->
     tick_reading env st j > deadline_of env st timeout ->
     fst (WaitForConfirmation env fuel txHash timeout st)
       = Some (Err (timeout_error txHash)) /\
     st_details (snd (WaitForConfirmation env fuel txHash timeout st))
       = (st_details st + j)%nat /\
     st_events (snd (WaitForConfirmation env fuel txHash timeout st))
       = st_events st ++ [EvNewTicker (2 * Second)]
           ++ concat (repeat [EvTick; EvTransactionDetail txHash] j)
           ++ [EvTick]) /\
  env_ctx_err env <> timeout_error txHash /\
  (ticker_not_early env st ->
     (st_details (snd (WaitForConfirmation env fuel txHash timeout st))
      <= st_details st + ticks_within timeout)%nat /\
     ((ticks_within timeout < fuel)%nat ->
      exists r, fst (WaitForConfirmation env fuel txHash timeout st) = Some r)).
Proof.
  intros Hfuel Hpoll.
  assert (Hstart : forall i, (i < j)%nat ->
     env_select env (st_selects (loop_start st) + i) = CaseTimer /\
     env_now env (st_clock_reads (loop_start st) + i) <= deadline_of env st timeout /\
     exists e, env_TransactionDetail env (st_details (loop_start st) + i) txHash = Err e).
  { intros i Hi. exact (Hpoll i Hi). }
  assert (Hrun : WaitForConfirmation env fuel txHash timeout st
            = wait_loop env (S (fuel - S j)) txHash (deadline_of env st timeout)
                (after_polls txHash j (loop_start st))).
  { rewrite WaitForConfirmation_unfold.
    replace fuel with (j + S (fuel - S j))%nat at 1 by lia.
    apply (wait_loop_polls env txHash _ j _ (loop_start st) Hstart). }
  set (stj := after_polls txHash j (loop_start st)) in *.
  assert (Hsel_j : st_selects stj = (st_selects st + j)%nat) by reflexivity.
  assert (Hdet_j : st_details stj = (st_details st + j)%nat) by reflexivity.
  assert (Hclk_j : env_now env (st_clock_reads stj) = tick_reading env st j) by reflexivity.
  assert (Hev_j : st_events stj = st_events st ++ [EvNewTicker (2 * Second)]
            ++ concat (repeat [EvTick; EvTransactionDetail txHash] j)).
  { unfold stj, after_polls. simpl. rewrite <- app_assoc. reflexivity. }
  split; [|split; [|split; [|split]]].
  - intros Hsel. rewrite <- Hsel_j in Hsel.
    destruct (wait_tick_done env txHash (deadline_of env st timeout) stj Hsel)
      as (st' & Htick & Hd & Hev).
    rewrite Hrun. simpl. unfold bind. rewrite Htick. simpl.
    split; [reflexivity|]. split; [rewrite Hd; exact Hdet_j|].
    rewrite Hev, Hev_j. rewrite <- !app_assoc. reflexivity.
  - intros Hsel Hnow tx Hd. rewrite <- Hsel_j in Hsel. rewrite <- Hdet_j in Hd.
    rewrite <- Hclk_j in Hnow.
    destruct (wait_tick_found env txHash (deadline_of env st timeout) stj tx Hsel Hnow Hd)
      as (st' & Htick & Hd').
    rewrite Hrun. simpl. unfold bind. rewrite Htick. simpl.
    eexists. split; [reflexivity|]. repeat split. rewrite Hd', Hdet_j. lia.
  - intros Hsel Hnow. rewrite <- Hsel_j in Hsel. rewrite <- Hclk_j in Hnow.
    destruct (wait_tick_expired env txHash (deadline_of env st timeout) stj Hsel Hnow)
      as (st' & Htick & Hd & Hev).
    rewrite Hrun. simpl. unfold bind. rewrite Htick. simpl.
    split; [reflexivity|]. split; [rewrite Hd; exact Hdet_j|].
    rewrite Hev, Hev_j. rewrite <- !app_assoc. reflexivity.
  - unfold env_ctx_err, timeout_error. destruct (env_ctx_reason env); discriminate.
  - intros Hclock. rewrite WaitForConfirmation_unfold. split.
    + pose proof (wait_loop_lookups_left st timeout Hclock fuel 0 (loop_start st)) as Hb.
      simpl in Hb. specialize (Hb ltac:(lia)). unfold deadline_of in Hb. simpl. lia.
    + intros Hmore.
      apply (wait_loop_returns env txHash _ fuel (loop_start st) (ticks_within timeout) Hmore).
      exact (tick_after_deadline st timeout Hclock).
Qed.

End Confirmation.

Lemma even_seconds_not_early env st :
  env_now env = Scenarios.even_seconds -> ticker_not_early env st.
Proof.
  intros Hnow i. unfold tick_reading. rewrite Hnow.
  unfold Scenarios.even_seconds, poll_period. lia.
Qed.

Lemma late_seconds_not_early st : ticker_not_early Scenarios.late_env st.
Proof.
  intros i. unfold tick_reading. simpl.
  unfold Scenarios.late_seconds, poll_period, Second. lia.
Qed.

Lemma wait_for_confirmation_witness :
  (fst (WaitForConfirmation Scenarios.late_env 10 "abc123" (4 * Second) init_state)
     = Some (Err (timeout_error "abc123")) /\
   st_details (snd (WaitForConfirmation Scenarios.late_env 10 "abc123"
                      (4 * Second) init_state)) = 1%nat /\
   st_events (snd (WaitForConfirmation Scenarios.late_env 10 "abc123"
                     (4 * Second) init_state))
     = [ EvNewTicker (2 * Second); EvTick; EvTransactionDetail "abc123"; EvTick ]) /\
  (fst (WaitForConfirmation Scenarios.cancelled_env 10 "abc123"
          (7 * Second) init_state)
     = Some (Err ErrCanceled) /\
   st_details (snd (WaitForConfirmation Scenarios.cancelled_env 10 "abc123"
                      (7 * Second) init_state)) = 2%nat /\
   st_events (snd (WaitForConfirmation Scenarios.cancelled_env 10 "abc123"
          (7 * Second) init_state))
     = [ EvNewTicker (2 * Second);
         EvTick; EvTransactionDetail "abc123";
         EvTick; EvTransactionDetail "abc123";
         EvCtxDone ]) /\
  (exists r,
     fst (WaitForConfirmation Scenarios.failed_tx_env 10 "abc123"
            (60 * Second) init_state) = Some (Ok r) /\
     Hash r = "abc123" /\ Ledger r = 778 /\ Status r = "success" /\
     st_details (snd (WaitForConfirmation Scenarios.failed_tx_env 10 "abc123"
                        (60 * Second) init_state)) = 1%nat).
Proof.
  split; [|split].
  - destruct (wait_for_confirmation Scenarios.late_env "abc123" init_state 10
                (4 * Second) 1) as (_ & _ & Hexpired & _).
    + lia.
    + intros i Hi. assert (i = 0%nat) as -> by lia.
      split; [reflexivity|]. split; [vm_compute; discriminate|].
      eexists. reflexivity.
    + apply Hexpired; [reflexivity|vm_compute; reflexivity].
  - destruct (wait_for_confirmation Scenarios.cancelled_env "abc123" init_state 10
                (7 * Second) 2) as (Hdone & _).
    + lia.
    + intros i Hi. split; [|split; [|eexists; reflexivity]].
      * destruct i as [|[|i]]; [reflexivity|reflexivity|lia].
      * destruct i as [|[|i]]; [vm_compute; discriminate|vm_compute; discriminate|lia].
    + apply Hdone. reflexivity.
  - destruct (wait_for_confirmation Scenarios.failed_tx_env "abc123" init_state 10
                (60 * Second) 0) as (_ & Hfound & _).
    + lia.
    + intros i Hi. lia.
    + assert (Hnow : tick_reading Scenarios.failed_tx_env init_state 0
                       <= deadline_of Scenarios.failed_tx_env init_state (60 * Second))
        by (vm_compute; discriminate).
      destruct (Hfound eq_refl Hnow Scenarios.failed_transaction eq_refl)
        as (r & Hr & Hh & Hl & Hs & Hd).
      exists r. split; [exact Hr|]. split; [exact Hh|]. split; [exact Hl|].
      split; [exact Hs|exact Hd].
Defined.




End ConfirmFacts.

(* ===================================================================== *)
(** ** Properties of the program escrow client                            *)
(* ===================================================================== *)

Module ClientFacts.

Import Soroban TxFacts ConfirmFacts.

Section Pending.
Variable env : Env.
Variable cfg : RetryConfig.

Lemma submit_loop_pending tx : forall n attempt delay last st r,
  fst (submit_loop env cfg tx n attempt delay last st) = Ok r -> Status r = "pending".
Proof.
  induction n as [|n IH]; intros attempt delay last st r; simpl; [discriminate|].
  unfold bind.
  destruct (submit_attempt env cfg tx attempt delay st) as [[r'|[d e]] st1] eqn:Hs; simpl.
  - intros ->. apply submit_attempt_Return in Hs.
    destruct Hs as [(_ & _ & Hr & _)|(_ & _ & [(resp & _ & now & Hr)|(p & _ & _ & Hr)])];
      try discriminate.
    injection Hr as ->. reflexivity.
  - apply IH.
Qed.

Lemma BuildAndSubmit_pending operations st r :
  fst (BuildAndSubmit env cfg operations st) = Ok r -> Status r = "pending".
Proof.
  unfold BuildAndSubmit.
  destruct (env_AccountDetail env) as [a|]; [|discriminate].
  destruct (env_NewTransaction env a operations) as [tx|]; [|discriminate].
  destruct (env_Sign env tx) as [tx'|]; [|discriminate].
  apply submit_loop_pending.
Qed.

Variable fuel : nat.

Lemma submit_and_confirm_pending op st result st1 e st2 :
  BuildAndSubmit env cfg [op] st = (Ok result, st1) ->
  WaitForConfirmation env fuel (Hash result) (60 * Second) st1 = (Some (Err e), st2) ->
  submit_and_confirm env cfg fuel op st
    = (Some (Ok result),
       record_event (EvLog "WARN" "failed to wait for confirmation") st2) /\
  Status result = "pending".
Proof.
  intros Hsub Hwait. split.
  - unfold submit_and_confirm, bind. rewrite Hsub, Hwait. reflexivity.
  - apply (BuildAndSubmit_pending [op] st). rewrite Hsub. reflexivity.
Qed.

Variable codec : Codec.
Variable contractAddress : string.

(** C9.  In [LockProgramFunds], [SinglePayout] and [BatchPayout], when
    the arguments are encoded, the submission succeeds with a result and
    the wait for the confirmation then fails with an error, the call
    returns that same pending result and no error; the failure only adds
    a warning to the log. *)
Theorem confirmation_failure_not_surfaced :
  (forall amount st contractAddr amountVal op result st1 e st2,
     EncodeContractAddress contractAddress = Ok contractAddr ->
     EncodeScValInt64 codec amount = Ok amountVal ->
     BuildInvokeHostFunctionOp codec contractAddr "lock_program_funds" [amountVal] = Ok op ->
     BuildAndSubmit env cfg [op]
       (record_event (EvLog "INFO" "contract interaction: lock_program_funds") st)
       = (Ok result, st1) ->
     WaitForConfirmation env fuel (Hash result) (60 * Second) st1 = (Some (Err e), st2) ->
     LockProgramFunds env codec cfg contractAddress fuel amount st
       = (Some (Ok result),
          record_event (EvLog "WARN" "failed to wait for confirmation") st2) /\
     Status result = "pending") /\
  (forall recipient amount st contractAddr recipientVal amountVal op result st1 e st2,
     EncodeContractAddress contractAddress = Ok contractAddr ->
     EncodeScValAddress codec recipient = Ok recipientVal ->
     EncodeScValInt64 codec amount = Ok amountVal ->
     BuildInvokeHostFunctionOp codec contractAddr "single_payout"
       [recipientVal; amountVal] = Ok op ->
     BuildAndSubmit env cfg [op]
       (record_event (EvLog "INFO" "contract interaction: single_payout") st)
       = (Ok result, st1) ->
     WaitForConfirmation env fuel (Hash result) (60 * Second) st1 = (Some (Err e), st2) ->
     SinglePayout env codec cfg contractAddress fuel recipient amount st
       = (Some (Ok result),
          record_event (EvLog "WARN" "failed to wait for confirmation") st2) /\
     Status result = "pending") /\
  (forall payouts st contractAddr recipientVals recipientsVec amountVals amountsVec
          op result st1 e st2,
     payouts <> [] ->
     EncodeContractAddress contractAddress = Ok contractAddr ->
     encode_each (fun p => EncodeScValAddress codec (Recipient p))
       "failed to encode recipient" 0 payouts = Ok recipientVals ->
     EncodeScValVec codec recipientVals = Ok recipientsVec ->
     encode_each (fun p => EncodeScValInt64 codec (Amount p))
       "failed to encode amount" 0 payouts = Ok amountVals ->
     EncodeScValVec codec amountVals = Ok amountsVec ->
     BuildInvokeHostFunctionOp codec contractAddr "batch_payout"
       [recipientsVec; amountsVec] = Ok op ->
     BuildAndSubmit env cfg [op]
       (record_event (EvLog "INFO" "contract interaction: batch_payout") st)
       = (Ok result, st1) ->
     WaitForConfirmation env fuel (Hash result) (60 * Second) st1 = (Some (Err e), st2) ->
     BatchPayout env codec cfg contractAddress fuel payouts st
       = (Some (Ok result),
          record_event (EvLog "WARN" "failed to wait for confirmation") st2) /\
     Status result = "pending").
Proof.
  split; [|split].
  - intros amount st contractAddr amountVal op result st1 e st2 Hc Ha Hop Hsub Hwait.
    unfold LockProgramFunds, LogContractInteraction, slog, emit, bind at 1.
    cbv beta iota zeta. rewrite Hc, Ha, Hop.
    eapply submit_and_confirm_pending; eassumption.
  - intros recipient amount st contractAddr recipientVal amountVal op result st1 e st2
      Hc Hr Ha Hop Hsub Hwait.
    unfold SinglePayout, LogContractInteraction, slog, emit, bind at 1.
    cbv beta iota zeta. rewrite Hc, Hr, Ha, Hop.
    eapply submit_and_confirm_pending; eassumption.
  - intros payouts st contractAddr recipientVals recipientsVec amountVals amountsVec
      op result st1 e st2 Hne Hc Hrs Hrv Has Hav Hop Hsub Hwait.
    unfold BatchPayout, LogContractInteraction, slog, emit, bind at 1.
    destruct payouts as [|p0 rest]; [contradiction|].
    cbv beta iota zeta. rewrite Hc, Hrs, Hrv, Has, Hav, Hop.
    eapply submit_and_confirm_pending; eassumption.
Qed.

End Pending.


Lemma confirmation_failure_not_surfaced_witness :
  (exists r,
     fst (LockProgramFunds Scenarios.unconfirmed_env Scenarios.sample_codec
            DefaultRetryConfig Scenarios.sample_contract 40 100 init_state)
       = Some (Ok r) /\ Status r = "pending") /\
  (exists r,
     fst (SinglePayout Scenarios.unconfirmed_env Scenarios.sample_codec
            DefaultRetryConfig Scenarios.sample_contract 40 "GALICE" 30 init_state)
       = Some (Ok r) /\ Status r = "pending") /\
  (exists r,
     fst (BatchPayout Scenarios.unconfirmed_env Scenarios.sample_codec
            DefaultRetryConfig Scenarios.sample_contract 40
            [ {| Recipient := "GBOB"; Amount := 20 |};
              {| Recipient := "GCAROL"; Amount := 10 |} ] init_state)
       = Some (Ok r) /\ Status r = "pending").
Proof.
  destruct (confirmation_failure_not_surfaced Scenarios.unconfirmed_env
              DefaultRetryConfig 40 Scenarios.sample_codec Scenarios.sample_contract)
    as (Hlock & Hsingle & Hbatch).
  split; [|split].
  - edestruct (Hlock 100 init_state) as [Hrun Hstatus].
    1-5: vm_compute; reflexivity.
    eexists. rewrite Hrun. split; [reflexivity|exact Hstatus].
  - edestruct (Hsingle "GALICE" 30 init_state) as [Hrun Hstatus].
    1-6: vm_compute; reflexivity.
    eexists. rewrite Hrun. split; [reflexivity|exact Hstatus].
  - edestruct (Hbatch [ {| Recipient := "GBOB"; Amount := 20 |};
                        {| Recipient := "GCAROL"; Amount := 10 |} ] init_state)
      as [Hrun Hstatus].
    1: discriminate.
    1-8: vm_compute; reflexivity.
    eexists. rewrite Hrun. split; [reflexivity|exact Hstatus].
Defined.


End ClientFacts.

(* ===================================================================== *)
(** ** Properties of the contract-address encoding                        *)
(* ===================================================================== *)

Module EncodingFacts.

Import Soroban.

Lemma encode_32_length bytes :
  List.length bytes = 32%nat -> String.length (base64_EncodeToString bytes) = 44%nat.
Proof.
  intros Hlen.
  do 33 (destruct bytes as [|? bytes]; try discriminate Hlen).
  reflexivity.
Qed.

Lemma list_of_string_length s : List.length (list_of_string s) = String.length s.
Proof. induction s as [|c s IH]; simpl; [reflexivity|]. rewrite IH. reflexivity. Qed.

Lemma string_of_list_of_string s : string_of_list (list_of_string s) = s.
Proof. induction s as [|c s IH]; simpl; [reflexivity|]. rewrite IH. reflexivity. Qed.

Lemma list_of_string_of_list l : list_of_string (string_of_list l) = l.
Proof. induction l as [|c l IH]; simpl; [reflexivity|]. rewrite IH. reflexivity. Qed.

(** A property of characters that holds of the 256 of them. *)
Lemma all_ascii (P : ascii -> bool) :
  forallb (fun n => P (ascii_of_nat n)) (seq 0 256) = true ->
  forall c, P c = true.
Proof.
  intros Hall c.
  rewrite <- (ascii_nat_embedding c).
  apply (proj1 (forallb_forall _ _) Hall).
  apply in_seq. pose proof (nat_ascii_bounded c). lia.
Qed.

Lemma hex_val_digit c a :
  hex_val c = Some a ->
  (code c =? 10) = false /\ scan_blank c = false /\ 0 <= a < 16.
Proof.
  pose proof (all_ascii (fun c =>
    match hex_val c with
    | Some a => negb (code c =? 10) && negb (scan_blank c) && (0 <=? a) && (a <? 16)
    | None => true
    end) ltac:(vm_compute; reflexivity) c) as Hc.
  cbv beta in Hc. intros Ha. rewrite Ha in Hc.
  apply andb_prop in Hc as [Hc Hlt]. apply andb_prop in Hc as [Hc Hle].
  apply andb_prop in Hc as [Hnl Hbl].
  apply negb_true_iff in Hnl, Hbl. apply Z.leb_le in Hle. apply Z.ltb_lt in Hlt.
  repeat split; assumption.
Qed.

Lemma Sscanf_two_hex c1 c2 a b :
  hex_val c1 = Some a -> hex_val c2 = Some b ->
  Sscanf_02x (string_of_list [c1; c2]) = Some (16 * a + b).
Proof.
  intros H1 H2. destruct (hex_val_digit c1 a H1) as (Hnl & Hbl & _).
  unfold Sscanf_02x. simpl. rewrite Hnl, Hbl. unfold is_hex. rewrite H1, H2.
  f_equal; lia.
Qed.

Lemma scan_hex_bytes_hex : forall n l,
  List.length l = (2 * n)%nat ->
  Forall (fun c => is_hex c = true) l ->
  exists bs, hex_pairs l = Ok bs /\ scan_hex_bytes n l = Some bs /\
             List.length bs = n /\ is_bytes bs.
Proof.
  induction n as [|n IH]; intros l Hlen Hall.
  - destruct l; [|discriminate]. exists []. repeat split. constructor.
  - destruct l as [|c1 [|c2 rest]]; try (simpl in Hlen; lia).
    inversion Hall as [|? ? Hc1 Hall1]; subst.
    inversion Hall1 as [|? ? Hc2 Hrest]; subst.
    unfold is_hex in Hc1, Hc2.
    destruct (hex_val c1) as [a|] eqn:Ha; [|discriminate].
    destruct (hex_val c2) as [b|] eqn:Hb; [|discriminate].
    destruct (IH rest) as (bs & Hp & Hs & Hl & Hbytes); [simpl in Hlen; lia|exact Hrest|].
    exists (16 * a + b :: bs).
    assert (Hscan := Sscanf_two_hex c1 c2 a b Ha Hb).
    simpl in Hscan |- *. rewrite Ha, Hb, Hp, Hscan, Hs.
    repeat split; [simpl; lia|].
    constructor; [|exact Hbytes].
    apply hex_val_digit in Ha, Hb. lia.
Qed.

(** A string of 64 hexadecimal digits is accepted, and names the 32 bytes
    that [encoding/hex] reads in it. *)
Lemma EncodeContractAddress_hex s :
  is_hex64 s ->
  exists hash,
    hex_DecodeString s = Ok hash /\ List.length hash = 32%nat /\
    EncodeContractAddress s = Ok (contract_address hash).
Proof.
  intros [Hlen Hall].
  destruct (scan_hex_bytes_hex 32 (list_of_string s)) as (bs & Hp & Hs & Hl & _).
  - rewrite list_of_string_length. exact Hlen.
  - exact Hall.
  - exists bs. split; [exact Hp|]. split; [exact Hl|].
    unfold EncodeContractAddress, len. rewrite Hlen. simpl Z.eqb. cbv iota.
    rewrite Hs. reflexivity.
Qed.
(** Bitwise or of a multiple of [2^k] and a number below [2^k] is their
    sum. *)
Lemma lor_add u k r :
  0 <= k -> 0 <= r < 2 ^ k -> Z.lor (u * 2 ^ k) r = u * 2 ^ k + r.
Proof.
  intros Hk Hr. symmetry. apply Z.add_nocarry_lor.
  apply Z.bits_inj'. intros n Hn. rewrite Z.land_spec, Z.bits_0.
  destruct (Z_lt_le_dec n k) as [Hlt|Hge].
  - rewrite Z.mul_pow2_bits_low by lia. reflexivity.
  - destruct (Z.eq_dec r 0) as [->|Hr0].
    + rewrite Z.bits_0. apply andb_false_r.
    + rewrite (Z.bits_above_log2 r n); [apply andb_false_r|lia|].
      apply Z.log2_lt_pow2; [lia|].
      apply Z.lt_le_trans with (2 ^ k); [lia|].
      apply Z.pow_le_mono_r; lia.
Qed.

Lemma land_mask a n : 0 <= n -> Z.land a (Z.ones n) = a mod 2 ^ n.
Proof. intros Hn. apply Z.land_ones. exact Hn. Qed.

Lemma quantum_bytes a b c :
  0 <= a < 256 -> 0 <= b < 256 -> 0 <= c < 256 ->
  let x := Z.shiftr a 2 in
  let y := Z.lor (Z.shiftl (Z.land a 3) 4) (Z.shiftr b 4) in
  let z := Z.lor (Z.shiftl (Z.land b 15) 2) (Z.shiftr c 6) in
  let w := Z.land c 63 in
  (0 <= x < 64 /\ 0 <= y < 64 /\ 0 <= z < 64 /\ 0 <= w < 64) /\
  b64_quantum x y z w = a * 65536 + b * 256 + c.
Proof.
  intros Ha Hb Hc. cbv zeta.
  change 3 with (Z.ones 2). change 15 with (Z.ones 4). change 63 with (Z.ones 6).
  rewrite !land_mask by lia. rewrite !Z.shiftr_div_pow2 by lia.
  rewrite !Z.shiftl_mul_pow2 by lia.
  change (2 ^ 2) with 4. change (2 ^ 4) with 16. change (2 ^ 6) with 64.
  assert (Hy : Z.lor (a mod 4 * 16) (b / 16) = a mod 4 * 16 + b / 16).
  { apply (lor_add (a mod 4) 4 (b / 16)); [lia|].
    change (2 ^ 4) with 16. split; [apply Z.div_pos; lia|].
    apply Z.div_lt_upper_bound; lia. }
  assert (Hz : Z.lor (b mod 16 * 4) (c / 64) = b mod 16 * 4 + c / 64).
  { apply (lor_add (b mod 16) 2 (c / 64)); [lia|].
    change (2 ^ 2) with 4. split; [apply Z.div_pos; lia|].
    apply Z.div_lt_upper_bound; lia. }
  rewrite Hy, Hz.
  pose proof (Z.div_mod a 4 ltac:(lia)) as Ha4.
  pose proof (Z.mod_pos_bound a 4 ltac:(lia)) as Ha4'.
  pose proof (Z.div_mod b 16 ltac:(lia)) as Hb16.
  pose proof (Z.mod_pos_bound b 16 ltac:(lia)) as Hb16'.
  pose proof (Z.div_mod c 64 ltac:(lia)) as Hc64.
  pose proof (Z.mod_pos_bound c 64 ltac:(lia)) as Hc64'.
  set (a1 := a / 4) in *. set (a0 := a mod 4) in *.
  set (b1 := b / 16) in *. set (b0 := b mod 16) in *.
  set (c1 := c / 64) in *. set (c0 := c mod 64) in *.
  split; [lia|].
  unfold b64_quantum. rewrite !Z.shiftl_mul_pow2 by lia.
  rewrite (lor_add a1 18 ((a0 * 16 + b1) * 2 ^ 12)) by lia.
  replace (a1 * 2 ^ 18 + (a0 * 16 + b1) * 2 ^ 12)
    with ((a1 * 64 + a0 * 16 + b1) * 2 ^ 12) by lia.
  rewrite (lor_add _ 12 ((b0 * 4 + c1) * 2 ^ 6)) by lia.
  replace ((a1 * 64 + a0 * 16 + b1) * 2 ^ 12 + (b0 * 4 + c1) * 2 ^ 6)
    with (((a1 * 64 + a0 * 16 + b1) * 64 + b0 * 4 + c1) * 2 ^ 6) by lia.
  rewrite (lor_add _ 6 c0) by lia.
  lia.
Qed.

Lemma byte_at_spec a b c :
  0 <= a < 256 -> 0 <= b < 256 -> 0 <= c < 256 ->
  byte_at (a * 65536 + b * 256 + c) 16 = a /\
  byte_at (a * 65536 + b * 256 + c) 8 = b /\
  byte_at (a * 65536 + b * 256 + c) 0 = c.
Proof.
  intros Ha Hb Hc. unfold byte_at. change 255 with (Z.ones 8).
  rewrite !land_mask by lia. rewrite !Z.shiftr_div_pow2 by lia.
  change (2 ^ 16) with 65536. change (2 ^ 8) with 256. change (2 ^ 0) with 1.
  repeat split.
  - replace ((a * 65536 + b * 256 + c) / 65536) with a.
    + apply Z.mod_small. lia.
    + apply Z.div_unique with (b * 256 + c); lia.
  - replace ((a * 65536 + b * 256 + c) / 256) with (a * 256 + b).
    + rewrite Z.add_comm, Z.mod_add by lia. apply Z.mod_small. lia.
    + apply Z.div_unique with c; lia.
  - rewrite Z.div_1_r.
    replace (a * 65536 + b * 256 + c) with (c + (a * 256 + b) * 256) by lia.
    rewrite Z.mod_add by lia. apply Z.mod_small. lia.
Qed.

Lemma b64_alphabet_ok :
  forallb (fun n =>
    let c := b64_char (Z.of_nat n) in
    match b64_val c with
    | Some j => (j =? Z.of_nat n) && negb (is_crlf c) && negb (is_pad c)
    | None => false
    end) (seq 0 64) = true.
Proof. vm_compute. reflexivity. Qed.

Lemma b64_char_spec i :
  0 <= i < 64 ->
  b64_val (b64_char i) = Some i /\ is_crlf (b64_char i) = false /\
  is_pad (b64_char i) = false.
Proof.
  intros Hi.
  pose proof (proj1 (forallb_forall _ _) b64_alphabet_ok (Z.to_nat i)) as H.
  cbv beta zeta in H. rewrite Z2Nat.id in H by lia.
  specialize (H ltac:(apply in_seq; lia)).
  destruct (b64_val (b64_char i)) as [j|]; [|discriminate].
  apply andb_prop in H as [H Hp]. apply andb_prop in H as [Hj Hc].
  apply Z.eqb_eq in Hj. subst j.
  repeat split; [apply negb_true_iff; exact Hc|apply negb_true_iff; exact Hp].
Qed.

Lemma pad_char_spec :
  b64_val pad_char = None /\ is_pad pad_char = true /\ is_crlf pad_char = false.
Proof. repeat split. Qed.

(** Decoding the canonical encoding gives the bytes back. *)
Lemma b64_roundtrip : forall n bytes,
  (List.length bytes <= n)%nat -> is_bytes bytes ->
  b64_groups (b64_encode bytes) = Some bytes /\
  List.filter (fun c => negb (is_crlf c)) (b64_encode bytes) = b64_encode bytes.
Proof.
  induction n as [|n IH]; intros bytes Hlen Hbytes.
  - destruct bytes; [split; reflexivity|simpl in Hlen; lia].
  - destruct bytes as [|a [|b [|c rest]]].
    + split; reflexivity.
    + inversion Hbytes as [|? ? Ha _]; subst.
      pose proof (quantum_bytes a 0 0 Ha ltac:(lia) ltac:(lia)) as Hquant.
      cbv zeta in Hquant.
      change (Z.shiftr 0 4) with 0 in Hquant. change (Z.shiftr 0 6) with 0 in Hquant.
      change (Z.land 0 15) with 0 in Hquant. change (Z.shiftl 0 2) with 0 in Hquant.
      change (Z.lor 0 0) with 0 in Hquant. change (Z.land 0 63) with 0 in Hquant.
      rewrite Z.lor_0_r in Hquant.
      destruct Hquant as ((Hx & Hy & _) & Hq).
      destruct (b64_char_spec _ Hx) as (Hvx & Hcx & Hpx).
      destruct (b64_char_spec _ Hy) as (Hvy & Hcy & Hpy).
      destruct (byte_at_spec a 0 0 Ha ltac:(lia) ltac:(lia)) as (Hb16 & _).
      simpl. rewrite Hvx, Hvy, Hcx, Hcy. simpl.
      rewrite Hq. rewrite Hb16. split; reflexivity.
    + inversion Hbytes as [|? ? Ha Hbs]; subst.
      inversion Hbs as [|? ? Hb _]; subst.
      pose proof (quantum_bytes a b 0 Ha Hb ltac:(lia)) as Hquant.
      cbv zeta in Hquant.
      change (Z.shiftr 0 6) with 0 in Hquant. change (Z.land 0 63) with 0 in Hquant.
      rewrite Z.lor_0_r in Hquant.
      destruct Hquant as ((Hx & Hy & Hz & _) & Hq).
      destruct (b64_char_spec _ Hx) as (Hvx & Hcx & Hpx).
      destruct (b64_char_spec _ Hy) as (Hvy & Hcy & Hpy).
      destruct (b64_char_spec _ Hz) as (Hvz & Hcz & Hpz).
      destruct (byte_at_spec a b 0 Ha Hb ltac:(lia)) as (Hb16 & Hb8 & _).
      simpl. rewrite Hvx, Hvy, Hvz, Hcx, Hcy, Hcz. simpl.
      rewrite Hq. rewrite Hb16, Hb8. split; reflexivity.
    + inversion Hbytes as [|? ? Ha Hbs]; subst.
      inversion Hbs as [|? ? Hb Hcs]; subst.
      inversion Hcs as [|? ? Hc Hrest]; subst.
      destruct (quantum_bytes a b c Ha Hb Hc) as ((Hx & Hy & Hz & Hw) & Hq).
      cbv zeta in *.
      destruct (b64_char_spec _ Hx) as (Hvx & Hcx & Hpx).
      destruct (b64_char_spec _ Hy) as (Hvy & Hcy & Hpy).
      destruct (b64_char_spec _ Hz) as (Hvz & Hcz & Hpz).
      destruct (b64_char_spec _ Hw) as (Hvw & Hcw & Hpw).
      destruct (byte_at_spec a b c Ha Hb Hc) as (Hb16 & Hb8 & Hb0).
      destruct (IH rest) as (Hdec & Hfil); [simpl in Hlen; lia|exact Hrest|].
      simpl. rewrite Hvx, Hvy, Hvz, Hvw, Hcx, Hcy, Hcz, Hcw. simpl.
      rewrite Hdec, Hfil, Hq, Hb16, Hb8, Hb0. split; reflexivity.
Qed.

Lemma scan_hex_bytes_length : forall n l bs,
  scan_hex_bytes n l = Some bs -> List.length bs = n.
Proof.
  induction n as [|n IH]; intros l bs; simpl.
  - intros [= <-]. reflexivity.
  - destruct l as [|c1 [|c2 rest]]; try discriminate.
    destruct (Sscanf_02x _) as [b|]; [|discriminate].
    destruct (scan_hex_bytes n rest) as [bs'|] eqn:Hs; [|discriminate].
    intros [= <-]. simpl. f_equal. apply (IH rest). exact Hs.
Qed.

(** Every address the function returns is a contract address of 32
    bytes. *)
Lemma EncodeContractAddress_32_bytes s addr :
  EncodeContractAddress s = Ok addr ->
  exists hash, addr = contract_address hash /\ List.length hash = 32%nat.
Proof.
  unfold EncodeContractAddress.
  destruct (len s =? 64).
  - destruct (scan_hex_bytes 32 (list_of_string s)) as [hash|] eqn:Hs.
    + intros [= <-]. exists hash. split; [reflexivity|].
      apply (scan_hex_bytes_length _ _ _ Hs).
    + destruct (base64_DecodeString s) as [bytes|]; [|discriminate].
      destruct (Z.of_nat (List.length bytes) =? 32) eqn:Hl; [|discriminate].
      intros [= <-]. exists bytes. split; [reflexivity|].
      apply Z.eqb_eq in Hl. lia.
  - destruct (base64_DecodeString s) as [bytes|]; [|discriminate].
    destruct (Z.of_nat (List.length bytes) =? 32) eqn:Hl; [|discriminate].
    intros [= <-]. exists bytes. split; [reflexivity|].
    apply Z.eqb_eq in Hl. lia.
Qed.

(** The base64 encoding of 32 bytes is accepted, and names those bytes. *)
Lemma EncodeContractAddress_base64 bytes :
  List.length bytes = 32%nat -> is_bytes bytes ->
  EncodeContractAddress (base64_EncodeToString bytes) = Ok (contract_address bytes).
Proof.
  intros Hlen Hbytes.
  destruct (b64_roundtrip 32 bytes ltac:(lia) Hbytes) as (Hdec & Hfil).
  unfold EncodeContractAddress, len.
  rewrite (encode_32_length bytes Hlen). simpl Z.eqb. cbv iota.
  unfold base64_DecodeString, base64_EncodeToString.
  rewrite list_of_string_of_list, Hfil, Hdec, Hlen. reflexivity.
Qed.

(** C5.  The function does not reject every other input.  Sixty-four
    characters of which the second is the letter [g], or that start with
    [0x], are neither 64 hexadecimal digits nor the base64 encoding of 32
    bytes, yet both are accepted: [Sscanf] reads a digit followed by
    another character as the value of the digit.  (The two forms the
    claim names are accepted: [EncodeContractAddress_hex] and
    [EncodeContractAddress_base64].) *)
Theorem EncodeContractAddress_accepts_non_hex :
  (EncodeContractAddress Scenarios.malformed_contract
     = Ok (contract_address
             [0; 17; 34; 51; 68; 85; 102; 119; 136; 153; 170; 187; 204; 221; 238; 255;
              0; 17; 34; 51; 68; 85; 102; 119; 136; 153; 170; 187; 204; 221; 238; 255]) /\
   ~ is_hex64 Scenarios.malformed_contract /\
   ~ is_base64_of_32_bytes Scenarios.malformed_contract) /\
  (EncodeContractAddress Scenarios.prefixed_contract
     = Ok (contract_address
             [0; 17; 34; 51; 68; 85; 102; 119; 136; 153; 170; 187; 204; 221; 238; 255;
              0; 17; 34; 51; 68; 85; 102; 119; 136; 153; 170; 187; 204; 221; 238; 255]) /\
   ~ is_hex64 Scenarios.prefixed_contract /\
   ~ is_base64_of_32_bytes Scenarios.prefixed_contract).
Proof.
  assert (Hnot : forall s c0 c1 rest,
            list_of_string s = c0 :: c1 :: rest -> is_hex c1 = false ->
            String.length s = 64%nat ->
            ~ is_hex64 s /\ ~ is_base64_of_32_bytes s).
  { intros s c0 c1 rest Hs Hc1 Hlen. split.
    - intros [_ Hall]. rewrite Hs in Hall.
      inversion Hall as [|? ? _ Hrest]; subst.
      inversion Hrest as [|? ? Hx _]; subst. congruence.
    - intros (bytes & Hb & _ & Heq).
      apply encode_32_length in Hb. rewrite <- Heq, Hlen in Hb. discriminate Hb. }
  split.
  - split; [vm_compute; reflexivity|].
    apply (Hnot Scenarios.malformed_contract _ _ _ eq_refl); reflexivity.
  - split; [vm_compute; reflexivity|].
    apply (Hnot Scenarios.prefixed_contract _ _ _ eq_refl); reflexivity.
Qed.

End EncodingFacts.

(* ===================================================================== *)
(** ** Properties of the signature verifier                               *)
(* ===================================================================== *)

Module AuthFacts.

Import Auth.

Lemma ToLower_equal_fold a : forall b, ToLower a = ToLower b <-> equal_fold a b.
Proof.
  unfold equal_fold.
  induction a as [|x a IH]; intros [|y b]; simpl; split; intros Heq;
    try discriminate; try (inversion Heq; fail); try constructor.
  - injection Heq as Hx Hrest. exact Hx.
  - injection Heq as Hx Hrest. apply IH. exact Hrest.
  - inversion Heq as [|? ? ? ? Hx Hrest]; subst.
    rewrite Hx. f_equal. apply IH. exact Hrest.
Qed.

Lemma normalize_v_spec sig v :
  sig !! 64%nat = Some v ->
  normalize_v sig !! 64%nat = Some (if v >=? 27 then v - 27 else v) /\
  List.length (normalize_v sig) = List.length sig /\
  forall i, i <> 64%nat -> normalize_v sig !! i = sig !! i.
Proof.
  intros Hv. unfold normalize_v. rewrite Hv.
  destruct (v >=? 27).
  - split; [|split].
    + apply list_lookup_insert_eq. apply lookup_lt_Some in Hv. exact Hv.
    + apply length_insert.
    + intros i Hi. apply list_lookup_insert_ne. congruence.
  - repeat split. exact Hv.
Qed.

Section Facts.
Context `{Crypto}.

Lemma verifyEVM_None address message signatureHex :
  verifyEVM address message signatureHex = None <->
  evm_verifies address message signatureHex.
Proof.
  unfold verifyEVM, evm_verifies. split.
  - destruct (hexutil_Decode signatureHex) as [sig|]; [|discriminate].
    destruct (blen sig =? 65) eqn:Hlen; simpl; [|discriminate].
    destruct (SigToPub (TextHash message) (normalize_v sig)) as [pub|] eqn:Hrec;
      [|discriminate].
    destruct (String.eqb _ _) eqn:Heq; simpl; [|discriminate].
    intros _. exists sig, pub. repeat split; try assumption.
    + apply Z.eqb_eq. exact Hlen.
    + apply ToLower_equal_fold. apply String.eqb_eq. exact Heq.
  - intros (sig & pub & -> & Hlen & Hrec & Hfold).
    apply Z.eqb_eq in Hlen. rewrite Hlen. simpl. rewrite Hrec.
    apply ToLower_equal_fold in Hfold. rewrite Hfold, String.eqb_refl. reflexivity.
Qed.

Lemma verifyStellarEd25519_None message signatureHex publicKeyHex :
  verifyStellarEd25519 message signatureHex publicKeyHex = None <->
  ed25519_verifies message signatureHex publicKeyHex.
Proof.
  unfold verifyStellarEd25519, ed25519_verifies,
    ed25519_PublicKeySize, ed25519_SignatureSize. split.
  - destruct (decodeHex publicKeyHex) as [pk|]; [|discriminate].
    destruct (blen pk =? 32) eqn:Hpk; simpl; [|discriminate].
    destruct (decodeHex signatureHex) as [sg|]; [|discriminate].
    destruct (blen sg =? 64) eqn:Hsg; simpl; [|discriminate].
    destruct (ed25519_Verify pk message sg) eqn:Hv; simpl; [|discriminate].
    intros _. exists pk, sg. repeat split; try assumption; apply Z.eqb_eq; assumption.
  - intros (pk & sg & -> & Hpk & -> & Hsg & Hv).
    apply Z.eqb_eq in Hpk, Hsg. rewrite Hpk, Hsg. simpl. rewrite Hv. reflexivity.
Qed.

Lemma parseSecp256k1Signature_Ok b sig :
  parseSecp256k1Signature b = Ok sig <-> accepted_signature b sig.
Proof.
  unfold parseSecp256k1Signature, accepted_signature. split.
  - destruct (blen b =? 64) eqn:Hlen.
    + apply Z.eqb_eq in Hlen.
      destruct (be_value (take 32 b) >=? secp256k1_N) eqn:Hr; [discriminate|].
      destruct (be_value (drop 32 b) >=? secp256k1_N) eqn:Hs; [discriminate|].
      intros [= <-]. left. repeat split; [exact Hlen|lia|lia].
    + apply Z.eqb_neq in Hlen. intros Hder. right. split; assumption.
  - intros [(Hlen & -> & Hr & Hs)|(Hlen & Hder)].
    + apply Z.eqb_eq in Hlen. rewrite Hlen.
      destruct (be_value (take 32 b) >=? secp256k1_N) eqn:Hr'; [lia|].
      destruct (be_value (drop 32 b) >=? secp256k1_N) eqn:Hs'; [lia|].
      reflexivity.
    + apply Z.eqb_neq in Hlen. rewrite Hlen. exact Hder.
Qed.

Lemma verifyStellarSecp256k1_None message signatureHex publicKeyHex :
  verifyStellarSecp256k1 message signatureHex publicKeyHex = None <->
  secp256k1_verifies message signatureHex publicKeyHex.
Proof.
  unfold verifyStellarSecp256k1, secp256k1_verifies. split.
  - destruct (decodeHex publicKeyHex) as [pk|]; [|discriminate].
    destruct (secp256k1_ParsePubKey pk) as [pub|] eqn:Hpub; [|discriminate].
    destruct (decodeHex signatureHex) as [sg|]; [|discriminate].
    destruct (parseSecp256k1Signature sg) as [sig|] eqn:Hsig; [|discriminate].
    destruct (ecdsa_Verify sig (sha256_Sum256 message) pub) eqn:Hv; simpl; [|discriminate].
    intros _. exists pk, pub, sg, sig. repeat split; try assumption.
    apply parseSecp256k1Signature_Ok. exact Hsig.
  - intros (pk & pub & sg & sig & -> & -> & -> & Hsig & Hv).
    apply parseSecp256k1Signature_Ok in Hsig. rewrite Hsig, Hv. reflexivity.
Qed.

End Facts.

Section Claims.
Context `{Crypto}.

Lemma VerifySignature_evm address message signatureHex publicKeyHex :
  VerifySignature WalletTypeEVM address message signatureHex publicKeyHex
    = verifyEVM address message signatureHex.
Proof. reflexivity. Qed.

Lemma VerifySignature_ed25519 address message signatureHex publicKeyHex :
  VerifySignature WalletTypeStellarEd25519 address message signatureHex publicKeyHex
    = verifyStellarEd25519 message signatureHex publicKeyHex.
Proof. reflexivity. Qed.

Lemma VerifySignature_secp256k1 address message signatureHex publicKeyHex :
  VerifySignature WalletTypeStellarSecp256k1 address message signatureHex publicKeyHex
    = verifyStellarSecp256k1 message signatureHex publicKeyHex.
Proof. reflexivity. Qed.

(** Every error of the three verifiers is a plain error with one of the
    listed messages. *)
Lemma VerifySignature_errors t address message signatureHex publicKeyHex e :
  VerifySignature t address message signatureHex publicKeyHex = Some e ->
  exists msg, e = ErrNew msg /\ In msg verification_errors.
Proof.
  unfold VerifySignature, verifyEVM, verifyStellarEd25519, verifyStellarSecp256k1,
    verification_errors.
  repeat match goal with
  | |- context [match ?x with _ => _ end] => destruct x
  | |- context [if ?x then _ else _] => destruct x
  end; simpl; try discriminate; intros [= <-]; eexists; (split; [reflexivity|]);
    simpl; tauto.
Qed.

(** C6.  For the EVM scheme [VerifySignature] succeeds exactly when the
    signature decodes to 65 bytes, the public key is recovered from the
    hash of the message and the signature with its last byte normalized,
    and the claimed address equals the recovered one up to case.  A
    decoded signature of any other length fails.  The normalization
    turns a last byte of 27 or 28 into 0 or 1, leaves a last byte below
    27 alone, and touches no other byte. *)
Theorem evm_signature_verified_by_recovery address message signatureHex publicKeyHex :
  (VerifySignature WalletTypeEVM address message signatureHex publicKeyHex = None <->
   exists sig pub,
     hexutil_Decode signatureHex = Ok sig /\
     blen sig = 65 /\
     SigToPub (TextHash message) (normalize_v sig) = Ok pub /\
     equal_fold address (PubkeyToAddressHex pub)) /\
  (forall sig,
     hexutil_Decode signatureHex = Ok sig -> blen sig <> 65 ->
     VerifySignature WalletTypeEVM address message signatureHex publicKeyHex
       = Some (ErrNew "invalid signature length")) /\
  (forall sig v,
     sig !! 64%nat = Some v ->
     (v = 27 \/ v = 28 -> normalize_v sig !! 64%nat = Some (v - 27)) /\
     (v < 27 -> normalize_v sig = sig) /\
     (forall i, i <> 64%nat -> normalize_v sig !! i = sig !! i)).
Proof.
  split; [|split].
  - rewrite VerifySignature_evm. apply verifyEVM_None.
  - intros sig Hdec Hlen. rewrite VerifySignature_evm. unfold verifyEVM.
    rewrite Hdec. apply Z.eqb_neq in Hlen. rewrite Hlen. reflexivity.
  - intros sig v Hv.
    destruct (normalize_v_spec sig v Hv) as (Hlast & _ & Hother).
    split; [|split].
    + intros Hrec. rewrite Hlast.
      destruct (v >=? 27) eqn:Hge; [reflexivity|lia].
    + intros Hlt. unfold normalize_v. rewrite Hv.
      destruct (v >=? 27) eqn:Hge; [lia|reflexivity].
    + exact Hother.
Qed.

Lemma decodeHex_blank s : TrimSpace s = "" -> decodeHex s = Err (ErrNew "empty").
Proof. intros Hs. unfold decodeHex. rewrite Hs. reflexivity. Qed.

(** C7.  For the Stellar secp256k1 scheme [VerifySignature] succeeds
    exactly when the public key decodes and parses, the signature decodes
    and is either 64 bytes holding two big-endian scalars below the group
    order or, at any other length, a DER encoding, and that signature
    verifies over the SHA-256 digest of the message under the key.  A
    blank public key fails. *)
Theorem secp256k1_signature_verified_over_sha256
    address message signatureHex publicKeyHex :
  (VerifySignature WalletTypeStellarSecp256k1 address message signatureHex publicKeyHex
     = None <->
   exists pubKeyBytes pubKey sigBytes sig,
     decodeHex publicKeyHex = Ok pubKeyBytes /\
     secp256k1_ParsePubKey pubKeyBytes = Ok pubKey /\
     decodeHex signatureHex = Ok sigBytes /\
     accepted_signature sigBytes sig /\
     ecdsa_Verify sig (sha256_Sum256 message) pubKey = true) /\
  (TrimSpace publicKeyHex = "" ->
   VerifySignature WalletTypeStellarSecp256k1 address message signatureHex publicKeyHex
     = Some (ErrNew "invalid public_key")).
Proof.
  split.
  - rewrite VerifySignature_secp256k1. apply verifyStellarSecp256k1_None.
  - intros Hblank. rewrite VerifySignature_secp256k1. unfold verifyStellarSecp256k1.
    rewrite (decodeHex_blank _ Hblank). reflexivity.
Qed.

(** C8.  [VerifySignature] fails closed: it returns no error exactly when
    the wallet type is one of the three and that scheme's decoding,
    length and verification conditions all hold; every other outcome is
    a plain error carrying one of seven fixed messages; a wallet type
    outside the three always fails. *)
Theorem verification_fails_closed t address message signatureHex publicKeyHex :
  (VerifySignature t address message signatureHex publicKeyHex = None <->
   (t = WalletTypeEVM /\ evm_verifies address message signatureHex) \/
   (t = WalletTypeStellarEd25519 /\
      ed25519_verifies message signatureHex publicKeyHex) \/
   (t = WalletTypeStellarSecp256k1 /\
      secp256k1_verifies message signatureHex publicKeyHex)) /\
  (forall e,
     VerifySignature t address message signatureHex publicKeyHex = Some e ->
     exists msg, e = ErrNew msg /\ In msg verification_errors) /\
  (t <> WalletTypeEVM -> t <> WalletTypeStellarEd25519 ->
   t <> WalletTypeStellarSecp256k1 ->
   VerifySignature t address message signatureHex publicKeyHex
     = Some (ErrNew "unsupported wallet_type")).
Proof.
  split; [|split].
  - unfold VerifySignature.
    destruct (String.eqb t WalletTypeEVM) eqn:He.
    { apply String.eqb_eq in He. subst t. rewrite verifyEVM_None.
      split; [intros Hv; left; split; [reflexivity|exact Hv]|].
      intros [[_ Hv]|[[Ht _]|[Ht _]]]; [exact Hv|discriminate Ht|discriminate Ht]. }
    destruct (String.eqb t WalletTypeStellarEd25519) eqn:Hd.
    { apply String.eqb_eq in Hd. subst t. rewrite verifyStellarEd25519_None.
      split; [intros Hv; right; left; split; [reflexivity|exact Hv]|].
      intros [[Ht _]|[[_ Hv]|[Ht _]]]; [discriminate Ht|exact Hv|discriminate Ht]. }
    destruct (String.eqb t WalletTypeStellarSecp256k1) eqn:Hs.
    { apply String.eqb_eq in Hs. subst t. rewrite verifyStellarSecp256k1_None.
      split; [intros Hv; right; right; split; [reflexivity|exact Hv]|].
      intros [[Ht _]|[[Ht _]|[_ Hv]]]; [discriminate Ht|discriminate Ht|exact Hv]. }
    apply String.eqb_neq in He, Hd, Hs.
    split; [discriminate|].
    intros [[Ht _]|[[Ht _]|[Ht _]]]; contradiction.
  - intros e. apply VerifySignature_errors.
  - intros He Hd Hs. unfold VerifySignature.
    apply String.eqb_neq in He, Hd, Hs. rewrite He, Hd, Hs. reflexivity.
Qed.

End Claims.

End AuthFacts.

(* ===================================================================== *)
(** ** Further properties of the retry loop                          *)
(* ===================================================================== *)

Module RetryFacts.

Import Soroban.

Section Retries.
Variable env : Env.
Variable cfg : RetryConfig.
Variable tx : Tx.

Ltac run_attempt :=
  unfold submit_attempt, backoff_wait, bind, slog, emit, ret, select_ctx_or,
    SubmitTransaction, time_Now, record_event; simpl.

(** An attempt that goes round again has read neither the clock nor the
    ledger. *)
Lemma submit_attempt_Continue_reads attempt delay st d e st' :
  submit_attempt env cfg tx attempt delay st = (Continue (d, e), st') ->
  st_clock_reads st' = st_clock_reads st /\ st_details st' = st_details st.
Proof.
  run_attempt.
  destruct (0 <? attempt); simpl;
    [destruct (env_select env (st_selects st)); simpl; [discriminate|]|];
    (destruct (env_SubmitTransaction env (st_submits st) tx) as [resp|[]]; simpl;
     try destruct (isNonRetryableError _); simpl; try discriminate;
     intros [= <- <- <-]; simpl; split; reflexivity).
Qed.

(** A wait that the context interrupts: the attempt returns the
    context's error without submitting. *)
Lemma submit_attempt_cancelled attempt delay st :
  0 < attempt ->
  env_select env (st_selects st) = CaseDone ->
  exists st',
    submit_attempt env cfg tx attempt delay st = (Return (Err (env_ctx_err env)), st') /\
    st_submits st' = st_submits st /\
    sleeps (st_events st') = sleeps (st_events st).
Proof.
  intros Ha Hsel. run_attempt.
  assert (Hpos : (0 <? attempt) = true) by (apply Z.ltb_lt; lia).
  rewrite Hpos. simpl. rewrite Hsel. simpl.
  eexists. split; [reflexivity|]. simpl. split; [reflexivity|].
  rewrite !TxFacts.sleeps_app. simpl. rewrite !app_nil_r. reflexivity.
Qed.

(** A submission that Horizon accepts. *)
Lemma submit_attempt_accepted attempt delay st resp :
  (0 < attempt -> env_select env (st_selects st) = CaseTimer) ->
  env_SubmitTransaction env (st_submits st) tx = Ok resp ->
  exists st',
    submit_attempt env cfg tx attempt delay st
      = (Return (Ok {| Hash := tx_Hash resp; Ledger := uint32 (tx_Ledger resp);
                       Status := "pending";
                       Submitted := Some (env_now env (st_clock_reads st));
                       Confirmed := None |}), st') /\
    st_submits st' = S (st_submits st) /\
    sleeps (st_events st') = sleeps (st_events st) ++ slept attempt delay.
Proof.
  intros Hsel Hsub. unfold slept. run_attempt.
  destruct (0 <? attempt) eqn:Ha; simpl.
  - rewrite Hsel by (apply Z.ltb_lt; exact Ha). simpl. rewrite Hsub. simpl.
    eexists. split; [reflexivity|]. simpl. split; [reflexivity|].
    rewrite !TxFacts.sleeps_app. simpl. rewrite !app_nil_r. reflexivity.
  - rewrite Hsub. simpl.
    eexists. split; [reflexivity|]. simpl. split; [reflexivity|].
    rewrite !TxFacts.sleeps_app. simpl. rewrite !app_nil_r. reflexivity.
Qed.

(** [j] retries that fail with a retryable error, none interrupted: the
    loop is then where it would be with [j] iterations less. *)
Lemma submit_loop_retries : forall j n attempt delay last st,
  0 < attempt ->
  (forall i, (i < j)%nat ->
     exists e, env_SubmitTransaction env (st_submits st + i) tx = Err e /\ retryable e) ->
  (forall i, (i < j)%nat -> env_select env (st_selects st + i) = CaseTimer) ->
  exists st' last',
    submit_loop env cfg tx (j + n) attempt delay last st
      = submit_loop env cfg tx n (attempt + Z.of_nat j)
          (Nat.iter j (next_delay cfg) delay) last' st' /\
    st_submits st' = (st_submits st + j)%nat /\
    st_selects st' = (st_selects st + j)%nat /\
    st_clock_reads st' = st_clock_reads st /\
    sleeps (st_events st') = sleeps (st_events st) ++ code_delays cfg delay j.
Proof.
  induction j as [|j IH]; intros n attempt delay last st Ha Hfail Hsel.
  - exists st, last. simpl. rewrite app_nil_r, Z.add_0_r, !Nat.add_0_r.
    repeat split.
  - destruct (Hfail 0%nat ltac:(lia)) as (e & He & Hr).
    rewrite Nat.add_0_r in He.
    destruct (TxFacts.submit_attempt_retry env cfg tx attempt delay st e)
      as (st1 & Hs & Hc & Hn & Hsl);
      [intros _; specialize (Hsel 0%nat ltac:(lia)); rewrite Nat.add_0_r in Hsel;
       exact Hsel|exact He|exact Hr|].
    destruct (submit_attempt_Continue_reads _ _ _ _ _ _ Hs) as (Hclock & _).
    unfold delay_after, slept, selects_after in *.
    assert (Hpos : (0 <? attempt) = true) by (apply Z.ltb_lt; lia).
    rewrite Hpos in *.
    destruct (IH n (attempt + 1) (next_delay cfg delay) (Some e) st1)
      as (st' & last' & Hl & Hc' & Hn' & Hclock' & Hsl').
    + lia.
    + intros i Hi. rewrite Hc. specialize (Hfail (S i) ltac:(lia)).
      rewrite Nat.add_succ_r in Hfail. exact Hfail.
    + intros i Hi. rewrite Hn. specialize (Hsel (S i) ltac:(lia)).
      rewrite Nat.add_succ_r in Hsel. exact Hsel.
    + exists st', last'.
      change (submit_loop env cfg tx (S j + n) attempt delay last st)
        with (bind (submit_attempt env cfg tx attempt delay)
                (fun s => match s with
                          | Return r => ret r
                          | Continue (delay', err) =>
                              submit_loop env cfg tx (j + n) (attempt + 1) delay' (Some err)
                          end) st).
      unfold bind. rewrite Hs, Hl. rewrite Nat.iter_succ_r.
      replace (attempt + 1 + Z.of_nat j) with (attempt + Z.of_nat (S j)) by lia.
      split; [reflexivity|]. split; [lia|]. split; [lia|]. split; [congruence|].
      rewrite Hsl', Hsl, <- app_assoc. reflexivity.
Qed.

(** The first attempt together with [k] retries, all failing with a
    retryable error. *)
Lemma submitWithRetry_retries st (k n : nat) :
  Z.to_nat (MaxRetries cfg + 1) = (S k + n)%nat ->
  (forall i, (i <= k)%nat ->
     exists e, env_SubmitTransaction env (st_submits st + i) tx = Err e /\ retryable e) ->
  (forall i, (i < k)%nat -> env_select env (st_selects st + i) = CaseTimer) ->
  exists st' last',
    submitWithRetry env cfg tx st
      = submit_loop env cfg tx n (Z.of_nat (S k))
          (Nat.iter k (next_delay cfg) (InitialDelay cfg)) last' st' /\
    st_submits st' = (st_submits st + S k)%nat /\
    st_selects st' = (st_selects st + k)%nat /\
    st_clock_reads st' = st_clock_reads st /\
    sleeps (st_events st') = sleeps (st_events st) ++ code_delays cfg (InitialDelay cfg) k.
Proof.
  intros Hmax Hfail Hsel. unfold submitWithRetry. rewrite Hmax.
  destruct (Hfail 0%nat ltac:(lia)) as (e0 & He0 & Hr0).
  rewrite Nat.add_0_r in He0.
  destruct (TxFacts.submit_attempt_retry env cfg tx 0 (InitialDelay cfg) st e0)
    as (st1 & Hs & Hc & Hn & Hsl); [lia|exact He0|exact Hr0|].
  destruct (submit_attempt_Continue_reads _ _ _ _ _ _ Hs) as (Hclock & _).
  unfold delay_after, slept, selects_after in *. simpl in Hs, Hn, Hsl.
  rewrite app_nil_r in Hsl.
  destruct (submit_loop_retries k n (0 + 1) (InitialDelay cfg) (Some e0) st1)
    as (st' & last' & Hl & Hc' & Hn' & Hclock' & Hsl').
  - lia.
  - intros i Hi. rewrite Hc. specialize (Hfail (S i) ltac:(lia)).
    rewrite Nat.add_succ_r in Hfail. exact Hfail.
  - intros i Hi. rewrite Hn. apply Hsel. exact Hi.
  - exists st', last'.
    change (submit_loop env cfg tx (S k + n) 0 (InitialDelay cfg) None st)
      with (bind (submit_attempt env cfg tx 0 (InitialDelay cfg))
              (fun s => match s with
                        | Return r => ret r
                        | Continue (delay', err) =>
                            submit_loop env cfg tx (k + n) (0 + 1) delay' (Some err)
                        end) st).
    unfold bind. rewrite Hs, Hl.
    replace (0 + 1 + Z.of_nat k) with (Z.of_nat (S k)) by lia.
    split; [reflexivity|]. split; [lia|]. split; [lia|]. split; [congruence|].
    rewrite Hsl', Hsl. reflexivity.
Qed.

Lemma code_delays_snoc : forall n d,
  code_delays cfg d (S n) = code_delays cfg d n ++ [Nat.iter n (next_delay cfg) d].
Proof.
  induction n as [|n IH]; intros d; [reflexivity|].
  change (code_delays cfg d (S (S n)))
    with (d :: code_delays cfg (next_delay cfg d) (S n)).
  rewrite IH. rewrite Nat.iter_succ_r. reflexivity.
Qed.

(** No delay computed by the loop after the first exceeds the cap. *)
Lemma code_delays_capped : forall n d0 (i : nat) d,
  code_delays cfg d0 n !! S i = Some d -> d <= MaxDelay cfg.
Proof.
  induction n as [|n IH]; intros d0 i d; simpl; [discriminate|].
  destruct n as [|n]; simpl; [discriminate|].
  destruct i as [|i]; simpl.
  - intros [= <-]. unfold next_delay.
    destruct (scale d0 (BackoffMultiplier cfg) >? MaxDelay cfg) eqn:Hg; lia.
  - intros Hd. apply (IH (next_delay cfg d0) i d). simpl. exact Hd.
Qed.

(** X1.  Cancellation during a backoff wait.  When the first attempt and
    [k] retries have failed with retryable errors and the context is
    done during the wait before the next retry, [submitWithRetry]
    returns the context's error itself, unwrapped, and submits nothing
    more: [k + 1] submissions were made and [k] waits completed. *)
Theorem backoff_wait_honours_cancellation st (k : nat) :
  Z.of_nat k < MaxRetries cfg ->
  (forall i, (i <= k)%nat ->
     exists e, env_SubmitTransaction env (st_submits st + i) tx = Err e /\ retryable e) ->
  (forall i, (i < k)%nat -> env_select env (st_selects st + i) = CaseTimer) ->
  env_select env (st_selects st + k) = CaseDone ->
  fst (submitWithRetry env cfg tx st) = Err (env_ctx_err env) /\
  st_submits (snd (submitWithRetry env cfg tx st)) = (st_submits st + k + 1)%nat /\
  sleeps (st_events (snd (submitWithRetry env cfg tx st)))
    = sleeps (st_events st) ++ code_delays cfg (InitialDelay cfg) k.
Proof.
  intros Hk Hfail Hsel Hdone.
  destruct (submitWithRetry_retries st k (S (Z.to_nat (MaxRetries cfg) - S k)))
    as (st1 & last1 & Hrun & Hc & Hn & _ & Hsl);
    [lia|exact Hfail|exact Hsel|].
  rewrite Hrun. simpl. unfold bind.
  destruct (submit_attempt_cancelled (Z.of_nat (S k))
              (Nat.iter k (next_delay cfg) (InitialDelay cfg)) st1)
    as (st2 & Hs & Hc2 & Hsl2); [lia|rewrite Hn; exact Hdone|].
  rewrite Hs. simpl. split; [reflexivity|]. split; [lia|].
  rewrite Hsl2, Hsl. reflexivity.
Qed.

(** X2.  Acceptance after retries.  When [k] submissions have failed
    with retryable errors ([k] at most [MaxRetries]), no wait was
    interrupted and the next submission is accepted, [submitWithRetry]
    returns a result with the hash Horizon returned, the ledger as a
    [uint32], status "pending" and no confirmation time, after [k + 1]
    submissions and [k] waits. *)
Theorem submission_accepted_after_retries st (k : nat) resp :
  Z.of_nat k <= MaxRetries cfg ->
  (forall i, (i < k)%nat ->
     exists e, env_SubmitTransaction env (st_submits st + i) tx = Err e /\ retryable e) ->
  (forall i, (i < k)%nat -> env_select env (st_selects st + i) = CaseTimer) ->
  env_SubmitTransaction env (st_submits st + k) tx = Ok resp ->
  fst (submitWithRetry env cfg tx st)
    = Ok {| Hash := tx_Hash resp; Ledger := uint32 (tx_Ledger resp);
            Status := "pending";
            Submitted := Some (env_now env (st_clock_reads st));
            Confirmed := None |} /\
  st_submits (snd (submitWithRetry env cfg tx st)) = (st_submits st + k + 1)%nat /\
  sleeps (st_events (snd (submitWithRetry env cfg tx st)))
    = sleeps (st_events st) ++ code_delays cfg (InitialDelay cfg) k.
Proof.
  intros Hk Hfail Hsel Hok.
  destruct k as [|k].
  - rewrite Nat.add_0_r in Hok. unfold submitWithRetry.
    replace (Z.to_nat (MaxRetries cfg + 1)) with (S (Z.to_nat (MaxRetries cfg))) by lia.
    simpl. unfold bind.
    destruct (submit_attempt_accepted 0 (InitialDelay cfg) st resp)
      as (st1 & Hs & Hc & Hsl); [lia|exact Hok|].
    rewrite Hs. simpl. split; [reflexivity|]. split; [lia|].
    rewrite Hsl. reflexivity.
  - destruct (submitWithRetry_retries st k (S (Z.to_nat (MaxRetries cfg) - S k)))
      as (st1 & last1 & Hrun & Hc & Hn & Hclock & Hsl).
    + lia.
    + intros i Hi. apply Hfail. lia.
    + intros i Hi. apply Hsel. lia.
    + rewrite Hrun. simpl submit_loop. unfold bind.
      destruct (submit_attempt_accepted (Z.of_nat (S k))
                  (Nat.iter k (next_delay cfg) (InitialDelay cfg)) st1 resp)
        as (st2 & Hs & Hc2 & Hsl2).
      * intros _. rewrite Hn. apply Hsel. lia.
      * rewrite Hc. exact Hok.
      * rewrite Hs, Hclock. simpl fst. simpl snd.
        split; [reflexivity|]. split; [lia|].
        rewrite Hsl2, Hsl. unfold slept.
        replace (0 <? Z.of_nat (S k)) with true by (symmetry; apply Z.ltb_lt; lia).
        rewrite <- app_assoc. f_equal. symmetry. apply code_delays_snoc.
Qed.

(** X3.  The cap on later waits.  Whatever the multiplier and whatever
    the network does, every wait of [submitWithRetry] after its first
    one lasts at most [MaxDelay]. *)
Theorem later_waits_are_capped st (i : nat) d :
  sleeps (st_events (snd (submitWithRetry env cfg tx st)))
    !! (List.length (sleeps (st_events st)) + S i)%nat = Some d ->
  d <= MaxDelay cfg.
Proof.
  destruct (TxFacts.submitWithRetry_sleeps env cfg tx st) as (j & _ & ->).
  rewrite lookup_app_r by apply Nat.le_add_r.
  rewrite Nat.add_comm, Nat.add_sub.
  apply code_delays_capped.
Qed.

(** X4.  No attempt allowed.  With a negative [MaxRetries] the loop body
    never runs: nothing is submitted, nothing is logged, and the error
    reports [MaxRetries + 1] attempts and wraps no cause. *)
Theorem negative_max_retries_submits_nothing st :
  MaxRetries cfg < 0 ->
  submitWithRetry env cfg tx st = (Err (ErrAttempts (MaxRetries cfg + 1) None), st).
Proof.
  intros Hneg. unfold submitWithRetry.
  replace (Z.to_nat (MaxRetries cfg + 1)) with 0%nat by lia.
  reflexivity.
Qed.

(** Every way the loop can end. *)
Lemma submit_loop_outcome : forall n attempt delay last st,
  match fst (submit_loop env cfg tx n attempt delay last st) with
  | Ok r =>
      Status r = "pending" /\ Confirmed r = None /\
      exists (i : nat) resp,
        env_SubmitTransaction env i tx = Ok resp /\
        Hash r = tx_Hash resp /\ Ledger r = uint32 (tx_Ledger resp)
  | Err e =>
      e = env_ctx_err env \/
      (exists p, fatal p /\ e = ErrWrap "non-retryable error" (ErrHorizon p)) \/
      (exists last',
         e = ErrAttempts (MaxRetries cfg + 1) last' /\
         ((n = 0%nat /\ last' = last) \/
          (n <> 0%nat /\ exists e', last' = Some e' /\ retryable e')))
  end.
Proof.
  induction n as [|n IH]; intros attempt delay last st.
  - simpl. right. right. exists last. auto.
  - simpl. unfold bind.
    destruct (submit_attempt env cfg tx attempt delay st) as [[r|[d e]] st1] eqn:Hs.
    + apply TxFacts.submit_attempt_Return in Hs. simpl.
      destruct Hs as [(_ & _ & -> & _)
                     |(_ & _ & [(resp & Hresp & now & ->)|(p & _ & Hf & ->)])].
      * left. reflexivity.
      * split; [reflexivity|]. split; [reflexivity|].
        exists (st_submits st), resp. auto.
      * right. left. exists p. auto.
    + apply TxFacts.submit_attempt_Continue in Hs.
      destruct Hs as (_ & Hretry & _).
      specialize (IH (attempt + 1) d (Some e) st1).
      destruct (fst (submit_loop env cfg tx n (attempt + 1) d (Some e) st1)) as [r|e0];
        [exact IH|].
      destruct IH as [IH|[IH|(last' & -> & Hlast)]]; [auto|auto|].
      right. right. exists last'. split; [reflexivity|]. right. split; [lia|].
      destruct Hlast as [(_ & ->)|(_ & Hl)]; [exists e; auto|exact Hl].
Qed.

(** X5.  Every outcome of [submitWithRetry].  A result is pending, has
    no confirmation time and carries the hash and ledger of a response
    Horizon gave to a submission.  An error is the context's error, or
    "non-retryable error" wrapping a Horizon error of the fatal set, or
    the report of [MaxRetries + 1] failed attempts, which wraps a
    retryable error unless [MaxRetries] is negative and no attempt was
    made. *)
Theorem every_outcome_of_submitWithRetry st :
  match fst (submitWithRetry env cfg tx st) with
  | Ok r =>
      Status r = "pending" /\ Confirmed r = None /\
      exists (i : nat) resp,
        env_SubmitTransaction env i tx = Ok resp /\
        Hash r = tx_Hash resp /\ Ledger r = uint32 (tx_Ledger resp)
  | Err e =>
      e = env_ctx_err env \/
      (exists p, fatal p /\ e = ErrWrap "non-retryable error" (ErrHorizon p)) \/
      (exists last,
         e = ErrAttempts (MaxRetries cfg + 1) last /\
         ((MaxRetries cfg < 0 /\ last = None) \/
          (0 <= MaxRetries cfg /\ exists e', last = Some e' /\ retryable e')))
  end.
Proof.
  unfold submitWithRetry.
  pose proof (submit_loop_outcome (Z.to_nat (MaxRetries cfg + 1)) 0 (InitialDelay cfg)
                None st) as Hout.
  destruct (fst (submit_loop env cfg tx _ 0 (InitialDelay cfg) None st)) as [r|e];
    [exact Hout|].
  destruct Hout as [Hout|[Hout|(last & -> & Hlast)]]; [auto|auto|].
  right. right. exists last. split; [reflexivity|].
  destruct Hlast as [(Hn & ->)|(Hn & Hl)]; [left|right]; split; try lia; auto.
Qed.

End Retries.

Lemma backoff_wait_honours_cancellation_witness :
  fst (submitWithRetry Scenarios.cancelled_env DefaultRetryConfig
         (Scenarios.sample_tx [] true) init_state) = Err ErrCanceled /\
  st_submits (snd (submitWithRetry Scenarios.cancelled_env DefaultRetryConfig
         (Scenarios.sample_tx [] true) init_state)) = 3%nat /\
  sleeps (st_events (snd (submitWithRetry Scenarios.cancelled_env DefaultRetryConfig
         (Scenarios.sample_tx [] true) init_state)))
    = [1 * Second; 2 * Second].
Proof.
  apply (backoff_wait_honours_cancellation Scenarios.cancelled_env DefaultRetryConfig
           (Scenarios.sample_tx [] true) init_state 2).
  - simpl. lia.
  - intros i _. exists (ErrNew "connection refused"). split; [reflexivity|exact I].
  - intros i Hi. simpl.
    destruct i as [|[|i]]; [reflexivity|reflexivity|lia].
  - reflexivity.
Defined.

Lemma submission_accepted_after_retries_witness :
  fst (submitWithRetry Scenarios.flaky_env DefaultRetryConfig
         (Scenarios.sample_tx [] true) init_state)
    = Ok {| Hash := "abc123"; Ledger := 777; Status := "pending";
            Submitted := Some 0; Confirmed := None |} /\
  st_submits (snd (submitWithRetry Scenarios.flaky_env DefaultRetryConfig
         (Scenarios.sample_tx [] true) init_state)) = 3%nat /\
  sleeps (st_events (snd (submitWithRetry Scenarios.flaky_env DefaultRetryConfig
         (Scenarios.sample_tx [] true) init_state)))
    = [1 * Second; 2 * Second].
Proof.
  apply (submission_accepted_after_retries Scenarios.flaky_env DefaultRetryConfig
           (Scenarios.sample_tx [] true) init_state 2 Scenarios.sample_transaction).
  - simpl. lia.
  - intros i Hi. exists (ErrHorizon Scenarios.too_late_problem).
    split; [|exact TxFacts.too_late_is_retryable].
    simpl. destruct i as [|[|i]]; [reflexivity|reflexivity|lia].
  - intros i _. reflexivity.
  - reflexivity.
Defined.

Lemma later_waits_are_capped_witness :
  sleeps (st_events (snd (submitWithRetry
      (Scenarios.failing_env (ErrHorizon Scenarios.too_late_problem))
      DefaultRetryConfig (Scenarios.sample_tx [] true) init_state))) !! 2%nat
    = Some (4 * Second) /\
  4 * Second <= MaxDelay DefaultRetryConfig.
Proof.
  split; [vm_compute; reflexivity|].
  apply (later_waits_are_capped
           (Scenarios.failing_env (ErrHorizon Scenarios.too_late_problem))
           DefaultRetryConfig (Scenarios.sample_tx [] true) init_state 1).
  vm_compute. reflexivity.
Defined.

Lemma negative_max_retries_submits_nothing_witness :
  submitWithRetry Scenarios.unconfirmed_env Scenarios.no_attempt_config
    (Scenarios.sample_tx [] true) init_state
  = (Err (ErrAttempts 0 None), init_state).
Proof.
  apply (negative_max_retries_submits_nothing Scenarios.unconfirmed_env
           Scenarios.no_attempt_config (Scenarios.sample_tx [] true) init_state).
  simpl. lia.
Defined.

End RetryFacts.

(* ===================================================================== *)
(** ** Further properties of the two pollers                         *)
(* ===================================================================== *)

Module PollFacts.

Import Soroban.

Section Polling.
Variable env : Env.
Variable txHash : string.

Ltac run_tick :=
  unfold wait_tick, poll_tick, bind, slog, emit, ret, select_ctx_or,
    TransactionDetail, GetTransactionStatus, time_Now, record_event; simpl.

(** *** PollTransactionStatus *)

(** A status that does not end the polling: the RPC call failed, or the
    status it returned is not final. *)
Lemma poll_tick_pending deadline st :
  env_select env (st_selects st) = CaseTimer ->
  env_now env (st_clock_reads st) <= deadline ->
  match env_GetTransactionStatus env (st_statuses st) txHash with
  | Ok status => status_is_final status = false
  | Err _ => True
  end ->
  exists st',
    poll_tick env txHash deadline st = (Continue tt, st') /\
    st_statuses st' = S (st_statuses st) /\
    st_selects st' = S (st_selects st) /\
    st_clock_reads st' = S (st_clock_reads st).
Proof.
  intros Hsel Hnow Hpending. run_tick. rewrite Hsel. simpl.
  destruct (env_now env (st_clock_reads st) >? deadline) eqn:Hg; [lia|]. simpl.
  destruct (env_GetTransactionStatus env (st_statuses st) txHash) as [status|e]; simpl.
  - rewrite Hpending. simpl. eexists. repeat split.
  - eexists. repeat split.
Qed.

Lemma poll_tick_done deadline st :
  env_select env (st_selects st) = CaseDone ->
  exists st',
    poll_tick env txHash deadline st = (Return (Err (env_ctx_err env)), st') /\
    st_statuses st' = st_statuses st.
Proof.
  intros Hsel. run_tick. rewrite Hsel. simpl. eexists. split; reflexivity.
Qed.

Lemma poll_tick_expired deadline st :
  env_select env (st_selects st) = CaseTimer ->
  env_now env (st_clock_reads st) > deadline ->
  exists st',
    poll_tick env txHash deadline st = (Return (Err (poll_timeout_error txHash)), st') /\
    st_statuses st' = st_statuses st.
Proof.
  intros Hsel Hnow. run_tick. rewrite Hsel. simpl.
  destruct (env_now env (st_clock_reads st) >? deadline) eqn:Hg; [|lia]. simpl.
  eexists. split; reflexivity.
Qed.

Lemma poll_tick_final deadline st status :
  env_select env (st_selects st) = CaseTimer ->
  env_now env (st_clock_reads st) <= deadline ->
  env_GetTransactionStatus env (st_statuses st) txHash = Ok status ->
  status_is_final status = true ->
  exists st',
    poll_tick env txHash deadline st = (Return (Ok status), st') /\
    st_statuses st' = S (st_statuses st).
Proof.
  intros Hsel Hnow Hst Hfinal. run_tick. rewrite Hsel. simpl.
  destruct (env_now env (st_clock_reads st) >? deadline) eqn:Hg; [lia|]. simpl.
  rewrite Hst. simpl. rewrite Hfinal. simpl. eexists. split; reflexivity.
Qed.

(** [j] passes that poll without a final status. *)
Lemma poll_loop_pending deadline : forall j fuel st,
  (forall i, (i < j)%nat ->
     env_select env (st_selects st + i) = CaseTimer /\
     env_now env (st_clock_reads st + i) <= deadline /\
     match env_GetTransactionStatus env (st_statuses st + i) txHash with
     | Ok status => status_is_final status = false
     | Err _ => True
     end) ->
  exists st',
    poll_loop env (j + fuel) txHash deadline st = poll_loop env fuel txHash deadline st' /\
    st_statuses st' = (st_statuses st + j)%nat /\
    st_selects st' = (st_selects st + j)%nat /\
    st_clock_reads st' = (st_clock_reads st + j)%nat.
Proof.
  induction j as [|j IH]; intros fuel st Hpoll.
  - exists st. rewrite !Nat.add_0_r. repeat split.
  - destruct (Hpoll 0%nat ltac:(lia)) as (Hsel & Hnow & Hpending).
    rewrite Nat.add_0_r in *.
    destruct (poll_tick_pending deadline st Hsel Hnow Hpending)
      as (st1 & Ht & Hs1 & Hn1 & Hc1).
    destruct (IH fuel st1) as (st' & Hl & Hs' & Hn' & Hc').
    + intros i Hi. rewrite Hs1, Hn1, Hc1. specialize (Hpoll (S i) ltac:(lia)).
      rewrite !Nat.add_succ_r in Hpoll. exact Hpoll.
    + exists st'. simpl. unfold bind at 1. rewrite Ht. simpl.
      split; [exact Hl|]. split; [lia|]. split; lia.
Qed.

Lemma PollTransactionStatus_unfold fuel timeout st :
  PollTransactionStatus env fuel txHash timeout st
    = poll_loop env fuel txHash (env_now env (st_clock_reads st) + timeout) (loop_start st).
Proof. reflexivity. Qed.

(** One pass of the loop of [PollTransactionStatus]: a query is made
    only at a reading of the clock that is not after the deadline, and a
    pass that goes round again has read the clock once. *)
Lemma poll_tick_counts deadline st :
  let out := poll_tick env txHash deadline st in
  (st_statuses (snd out) = st_statuses st \/
   (st_statuses (snd out) = S (st_statuses st) /\
    env_now env (st_clock_reads st) <= deadline)) /\
  (fst out = Continue tt ->
   st_statuses (snd out) = S (st_statuses st) /\
   st_clock_reads (snd out) = S (st_clock_reads st)).
Proof.
  run_tick.
  destruct (env_select env (st_selects st)); simpl; [split; [auto|discriminate]|].
  destruct (env_now env (st_clock_reads st) >? deadline) eqn:Hg; simpl;
    [split; [auto|discriminate]|].
  assert (Hle : env_now env (st_clock_reads st) <= deadline) by lia.
  destruct (env_GetTransactionStatus env (st_statuses st) txHash) as [status|e]; simpl.
  - destruct (status_is_final status); simpl; split; auto; discriminate.
  - split; auto.
Qed.



(** The loop of [PollTransactionStatus] returns as soon as a reading of
    the clock is past the deadline. *)
Lemma poll_loop_returns deadline : forall fuel st (i : nat),
  (i < fuel)%nat ->
  env_now env (st_clock_reads st + i) > deadline ->
  exists r, fst (poll_loop env fuel txHash deadline st) = Some r.
Proof.
  induction fuel as [|fuel IH]; intros st i Hi Hnow; [lia|].
  simpl. unfold bind.
  destruct (poll_tick_counts deadline st) as (Hcount & Hcont).
  cbv zeta in Hcount, Hcont.
  destruct (poll_tick env txHash deadline st) as [[r|[]] st1] eqn:Ht; simpl in *.
  - eauto.
  - destruct (Hcont eq_refl) as (Hs & Hc).
    destruct Hcount as [Hsame|(_ & Hle)]; [lia|].
    destruct i as [|i]; [rewrite Nat.add_0_r in Hnow; lia|].
    apply (IH st1 i); [lia|]. rewrite Hc.
    rewrite Nat.add_succ_r in Hnow. exact Hnow.
Qed.

(** X7.  [PollTransactionStatus] returns.  When no tick is early, the
    call returns after at most one pass more than the ticks that fit in
    the timeout, whatever the network and the context do. *)
Theorem poll_always_returns st fuel timeout :
  ticker_not_early env st ->
  (ticks_within timeout < fuel)%nat ->
  exists r, fst (PollTransactionStatus env fuel txHash timeout st) = Some r.
Proof.
  intros Hclock Hfuel. rewrite PollTransactionStatus_unfold.
  apply (poll_loop_returns _ fuel (loop_start st) (ticks_within timeout) Hfuel).
  exact (ConfirmFacts.tick_after_deadline env st timeout Hclock).
Qed.

(** [j] passes of [PollTransactionStatus] that ask for the status and
    go round again. *)
Lemma poll_loop_after_pending st fuel timeout (j : nat) :
  (j < fuel)%nat ->
  (forall i, (i < j)%nat -> polls_pending env txHash st timeout i) ->
  exists st1,
    PollTransactionStatus env fuel txHash timeout st
      = poll_loop env (S (fuel - S j)) txHash (deadline_of env st timeout) st1 /\
    st_statuses st1 = (st_statuses st + j)%nat /\
    st_selects st1 = (st_selects st + j)%nat /\
    env_now env (st_clock_reads st1) = tick_reading env st j.
Proof.
  intros Hfuel Hpending.
  destruct (poll_loop_pending (deadline_of env st timeout) j
              (S (fuel - S j)) (loop_start st)) as (st1 & Hrun & Hs & Hn & Hc).
  { intros i Hi. exact (Hpending i Hi). }
  exists st1. rewrite PollTransactionStatus_unfold.
  replace fuel with (j + S (fuel - S j))%nat at 1 by lia.
  split; [exact Hrun|]. split; [exact Hs|]. split; [exact Hn|].
  rewrite Hc. reflexivity.
Qed.

(** X8.  [PollTransactionStatus] times out on a status that never
    becomes final.  With a context that is not done and every query
    either failing or returning a status other than "SUCCESS" and
    "FAILED", the call returns the timeout error at the first tick at
    which the clock is after the deadline, having asked for the status
    exactly once at each tick before it. *)
Theorem poll_times_out_without_final_status st fuel timeout (n : nat) :
  (n < fuel)%nat ->
  (forall i, (i < n)%nat -> polls_pending env txHash st timeout i) ->
  env_select env (st_selects st + n) = CaseTimer ->
  tick_reading env st n > deadline_of env st timeout ->
  fst (PollTransactionStatus env fuel txHash timeout st)
    = Some (Err (poll_timeout_error txHash)) /\
  st_statuses (snd (PollTransactionStatus env fuel txHash timeout st))
    = (st_statuses st + n)%nat.
Proof.
  intros Hfuel Hpending Hsel Hnow.
  destruct (poll_loop_after_pending st fuel timeout n Hfuel Hpending)
    as (st1 & Hrun & Hs & Hn & Hc).
  rewrite Hrun. simpl poll_loop. unfold bind.
  destruct (poll_tick_expired (deadline_of env st timeout) st1) as (st2 & Htick & Hs2).
  - rewrite Hn. exact Hsel.
  - rewrite Hc. exact Hnow.
  - rewrite Htick. simpl. split; [reflexivity|]. rewrite Hs2, Hs. reflexivity.
Qed.

(** X9.  How [PollTransactionStatus] ends before the timeout.  After
    [j] ticks at which it asked for the status without getting a final
    one: if the context is done at the next pass the call returns the
    context's error without another query; if at the next tick the clock
    is not after the deadline and the query returns a status "SUCCESS"
    or "FAILED", the call returns that status object unchanged. *)
Theorem poll_ends_on_cancellation_or_final_status st fuel timeout (j : nat) :
  (j < fuel)%nat ->
  (forall i, (i < j)%nat -> polls_pending env txHash st timeout i) ->
  (env_select env (st_selects st + j) = CaseDone ->
     fst (PollTransactionStatus env fuel txHash timeout st) = Some (Err (env_ctx_err env)) /\
     st_statuses (snd (PollTransactionStatus env fuel txHash timeout st))
       = (st_statuses st + j)%nat) /\
  (forall status,
     env_select env (st_selects st + j) = CaseTimer ->
     tick_reading env st j <= deadline_of env st timeout ->
     env_GetTransactionStatus env (st_statuses st + j) txHash = Ok status ->
     status_is_final status = true ->
     fst (PollTransactionStatus env fuel txHash timeout st) = Some (Ok status) /\
     st_statuses (snd (PollTransactionStatus env fuel txHash timeout st))
       = (st_statuses st + j + 1)%nat).
Proof.
  intros Hfuel Hpending.
  destruct (poll_loop_after_pending st fuel timeout j Hfuel Hpending)
    as (st1 & Hrun & Hs & Hn & Hc).
  rewrite Hrun. simpl poll_loop. split.
  - intros Hdone.
    destruct (poll_tick_done (deadline_of env st timeout) st1)
      as (st2 & Htick & Hs2); [rewrite Hn; exact Hdone|].
    unfold bind.
    rewrite Htick. simpl. split; [reflexivity|]. rewrite Hs2, Hs. reflexivity.
  - intros status Hsel Hnow Hst Hfinal.
    destruct (poll_tick_final (deadline_of env st timeout) st1 status)
      as (st2 & Htick & Hs2).
    + rewrite Hn. exact Hsel.
    + rewrite Hc. exact Hnow.
    + rewrite Hs. exact Hst.
    + exact Hfinal.
    + unfold bind.
      rewrite Htick. simpl. split; [reflexivity|]. rewrite Hs2, Hs. lia.
Qed.

Lemma poll_tick_Return deadline st r st' :
  poll_tick env txHash deadline st = (Return r, st') ->
  r = Err (env_ctx_err env) \/ r = Err (poll_timeout_error txHash) \/
  exists status, r = Ok status /\ status_is_final status = true.
Proof.
  run_tick.
  destruct (env_select env (st_selects st)); simpl; [intros [= <- _]; auto|].
  destruct (env_now env (st_clock_reads st) >? deadline); simpl;
    [intros [= <- _]; auto|].
  destruct (env_GetTransactionStatus env (st_statuses st) txHash) as [status|e]; simpl;
    [|discriminate].
  destruct (status_is_final status) eqn:Hf; simpl; [|discriminate].
  intros [= <- _]. right. right. exists status. auto.
Qed.

Lemma wait_loop_outcome deadline : forall n st,
  match fst (wait_loop env n txHash deadline st) with
  | Some (Ok r) => Status r = "success" /\ Hash r = txHash
  | Some (Err e) => e = env_ctx_err env \/ e = timeout_error txHash
  | None => True
  end.
Proof.
  induction n as [|n IH]; intros st; simpl; [exact I|].
  unfold bind.
  destruct (wait_tick env txHash deadline st) as [[r|[]] st1] eqn:Ht; simpl.
  - apply ConfirmFacts.wait_tick_Return in Ht.
    destruct Ht as [(_ & -> & _)|[(_ & _ & -> & _)|(_ & _ & tx & _ & -> & _)]]; auto.
  - apply IH.
Qed.

Lemma poll_loop_outcome deadline : forall n st,
  match fst (poll_loop env n txHash deadline st) with
  | Some (Ok status) => status_is_final status = true
  | Some (Err e) => e = env_ctx_err env \/ e = poll_timeout_error txHash
  | None => True
  end.
Proof.
  induction n as [|n IH]; intros st; simpl; [exact I|].
  unfold bind.
  destruct (poll_tick env txHash deadline st) as [[r|[]] st1] eqn:Ht; simpl.
  - apply poll_tick_Return in Ht.
    destruct Ht as [->|[->|(status & -> & Hf)]]; auto.
  - apply IH.
Qed.

(** X10.  Lookup errors are never returned.  The only errors
    [WaitForConfirmation] and [PollTransactionStatus] return are the
    context's error and their own timeout error: an error of the lookup
    itself, whatever it is, is taken to mean that the transaction is not
    there yet.  What they return otherwise is a "success" result for the
    hash asked for, respectively a status object whose status is final. *)
Theorem pollers_return_no_lookup_error st fuel timeout :
  match fst (WaitForConfirmation env fuel txHash timeout st) with
  | Some (Ok r) => Status r = "success" /\ Hash r = txHash
  | Some (Err e) => e = env_ctx_err env \/ e = timeout_error txHash
  | None => True
  end /\
  match fst (PollTransactionStatus env fuel txHash timeout st) with
  | Some (Ok status) => status_is_final status = true
  | Some (Err e) => e = env_ctx_err env \/ e = poll_timeout_error txHash
  | None => True
  end.
Proof.
  split.
  - rewrite ConfirmFacts.WaitForConfirmation_unfold. apply wait_loop_outcome.
  - rewrite PollTransactionStatus_unfold. apply poll_loop_outcome.
Qed.

End Polling.


Lemma poll_always_returns_witness :
  exists r,
    fst (PollTransactionStatus Scenarios.pending_env 10 "abc123" (7 * Second) init_state)
      = Some r.
Proof.
  apply (poll_always_returns Scenarios.pending_env "abc123" init_state 10 (7 * Second)).
  - apply ConfirmFacts.even_seconds_not_early. reflexivity.
  - vm_compute. lia.
Defined.

Lemma poll_times_out_without_final_status_witness :
  fst (PollTransactionStatus Scenarios.late_env 10 "abc123" (4 * Second) init_state)
    = Some (Err (poll_timeout_error "abc123")) /\
  st_statuses (snd (PollTransactionStatus Scenarios.late_env 10 "abc123"
                      (4 * Second) init_state)) = (0 + 1)%nat.
Proof.
  apply (poll_times_out_without_final_status Scenarios.late_env "abc123"
           init_state 10 (4 * Second) 1).
  - lia.
  - intros i Hi. assert (i = 0%nat) as -> by lia.
    split; [reflexivity|]. split; [vm_compute; discriminate|reflexivity].
  - reflexivity.
  - vm_compute. reflexivity.
Defined.

Lemma poll_ends_on_cancellation_or_final_status_witness :
  (fst (PollTransactionStatus Scenarios.cancelled_env 10 "abc123" (7 * Second) init_state)
     = Some (Err ErrCanceled) /\
   st_statuses (snd (PollTransactionStatus Scenarios.cancelled_env 10 "abc123"
                       (7 * Second) init_state)) = (0 + 2)%nat) /\
  (fst (PollTransactionStatus Scenarios.failed_tx_env 10 "abc123" (60 * Second) init_state)
     = Some (Ok Scenarios.failed_status) /\
   st_statuses (snd (PollTransactionStatus Scenarios.failed_tx_env 10 "abc123"
                       (60 * Second) init_state)) = (0 + 0 + 1)%nat).
Proof.
  split.
  - apply (poll_ends_on_cancellation_or_final_status Scenarios.cancelled_env "abc123"
             init_state 10 (7 * Second) 2).
    + lia.
    + intros i Hi. split; [|split; [|exact I]].
      * destruct i as [|[|i]]; [reflexivity|reflexivity|lia].
      * destruct i as [|[|i]]; [vm_compute; discriminate|vm_compute; discriminate|lia].
    + reflexivity.
  - apply (poll_ends_on_cancellation_or_final_status Scenarios.failed_tx_env "abc123"
             init_state 10 (60 * Second) 0).
    + lia.
    + intros i Hi. lia.
    + reflexivity.
    + vm_compute. discriminate.
    + reflexivity.
    + reflexivity.
Defined.

End PollFacts.

(* ===================================================================== *)
(** ** Further properties of the contract-address encoding           *)
(* ===================================================================== *)

Module AddressFacts.

Import Soroban.

(** *** Hexadecimal digits *)

Lemma hex_digit_val d :
  0 <= d < 16 -> hex_val (hex_digit d) = Some d.
Proof.
  intros Hd.
  assert (Hall : forallb (fun n => match hex_val (hex_digit (Z.of_nat n)) with
                                   | Some v => v =? Z.of_nat n
                                   | None => false
                                   end) (seq 0 16) = true) by (vm_compute; reflexivity).
  rewrite forallb_forall in Hall.
  specialize (Hall (Z.to_nat d)). rewrite Z2Nat.id in Hall by lia.
  destruct (hex_val (hex_digit d)) as [v|].
  - f_equal. apply Z.eqb_eq. apply Hall. apply in_seq. lia.
  - discriminate Hall. apply in_seq. lia.
Qed.

Lemma nibbles b :
  0 <= b < 256 ->
  0 <= Z.shiftr b 4 < 16 /\ 0 <= Z.land b 15 < 16 /\
  16 * Z.shiftr b 4 + Z.land b 15 = b.
Proof.
  intros Hb. rewrite Z.shiftr_div_pow2 by lia.
  change 15 with (Z.ones 4). rewrite Z.land_ones by lia.
  change (2 ^ 4) with 16.
  pose proof (Z.div_mod b 16 ltac:(lia)).
  pose proof (Z.mod_pos_bound b 16 ltac:(lia)).
  split; [|split]; lia.
Qed.

(** [hex.DecodeString] undoes [hex.EncodeToString]. *)
Lemma hex_roundtrip bytes :
  is_bytes bytes -> hex_pairs (hex_encode bytes) = Ok bytes.
Proof.
  induction 1 as [|b bytes Hb _ IH]; [reflexivity|].
  destruct (nibbles b Hb) as (Hhi & Hlo & Hsum).
  simpl. rewrite (hex_digit_val _ Hhi), (hex_digit_val _ Hlo), IH, Hsum. reflexivity.
Qed.

Lemma hex_encode_length bytes :
  List.length (hex_encode bytes) = (2 * List.length bytes)%nat.
Proof. induction bytes as [|b bytes IH]; simpl; lia. Qed.

Lemma hex_encode_digits bytes :
  is_bytes bytes -> Forall (fun c => is_hex c = true) (hex_encode bytes).
Proof.
  induction 1 as [|b bytes Hb _ IH]; [constructor|].
  destruct (nibbles b Hb) as (Hhi & Hlo & _).
  simpl. constructor; [|constructor; [|exact IH]];
    unfold is_hex; rewrite hex_digit_val by assumption; reflexivity.
Qed.

(** *** The bytes of an accepted identifier *)

Lemma Sscanf_02x_byte s b : Sscanf_02x s = Some b -> 0 <= b < 256.
Proof.
  unfold Sscanf_02x.
  destruct (skip_blanks (list_of_string s)) as [[|c rest]|]; try discriminate.
  unfold is_hex. destruct (hex_val c) as [a|] eqn:Ha; [|discriminate].
  intros [= <-]. simpl. rewrite Ha.
  destruct (EncodingFacts.hex_val_digit c a Ha) as (_ & _ & Harange).
  destruct rest as [|c2 rest]; [lia|].
  destruct (hex_val c2) as [a2|] eqn:Ha2; [|lia].
  destruct (EncodingFacts.hex_val_digit c2 a2 Ha2) as (_ & _ & Ha2range). lia.
Qed.

Lemma scan_hex_bytes_bytes : forall n l bs,
  scan_hex_bytes n l = Some bs -> is_bytes bs.
Proof.
  induction n as [|n IH]; intros l bs; simpl.
  - intros [= <-]. constructor.
  - destruct l as [|c1 [|c2 rest]]; try discriminate.
    destruct (Sscanf_02x _) as [b|] eqn:Hb; [|discriminate].
    destruct (scan_hex_bytes n rest) as [bs'|] eqn:Hs; [|discriminate].
    intros [= <-]. constructor; [apply (Sscanf_02x_byte _ _ Hb)|apply (IH rest); exact Hs].
Qed.

Lemma byte_at_byte v shift : 0 <= byte_at v shift < 256.
Proof.
  unfold byte_at. change 255 with (Z.ones 8). rewrite Z.land_ones by lia.
  apply Z.mod_pos_bound. lia.
Qed.

(** What [b64_groups] accepts: a number [q] of groups of four characters,
    which decode to between [3q - 2] and [3q] bytes. *)
Lemma b64_groups_shape : forall n l bytes,
  (List.length l <= n)%nat ->
  b64_groups l = Some bytes ->
  is_bytes bytes /\
  exists q, List.length l = (4 * q)%nat /\
            (3 * q <= List.length bytes + 2)%nat /\ (List.length bytes <= 3 * q)%nat.
Proof.
  induction n as [|n IH]; intros l bytes Hn.
  - destruct l; [|simpl in Hn; lia]. intros [= <-].
    split; [constructor|]. exists 0%nat. simpl. lia.
  - destruct l as [|a [|b [|c [|d rest]]]]; try discriminate.
    + intros [= <-]. split; [constructor|]. exists 0%nat. simpl. lia.
    + simpl b64_groups.
      destruct (b64_val a) as [x|]; [|discriminate].
      destruct (b64_val b) as [y|]; [|discriminate].
      destruct (b64_val c) as [z|].
      * destruct (b64_val d) as [w|].
        -- destruct (b64_groups rest) as [bs|] eqn:Hrest; [|discriminate].
           intros [= <-].
           destruct (IH rest bs ltac:(simpl in Hn; lia) Hrest) as (Hbs & q & Hl & Hlo & Hhi).
           split.
           ++ repeat (constructor; [apply byte_at_byte|]). exact Hbs.
           ++ exists (S q). simpl. lia.
        -- destruct (is_pad d && match rest with [] => true | _ => false end) eqn:Hp;
             [|discriminate].
           intros [= <-].
           apply andb_prop in Hp as [_ Hr]. destruct rest; [|discriminate].
           split.
           ++ repeat (constructor; [apply byte_at_byte|]). constructor.
           ++ exists 1%nat. simpl. lia.
      * destruct (is_pad c && is_pad d && match rest with [] => true | _ => false end) eqn:Hp;
          [|destruct (b64_val d); discriminate].
        assert (Hr : rest = []).
        { apply andb_prop in Hp as [_ Hr]. destruct rest; [reflexivity|discriminate]. }
        subst rest.
        destruct (b64_val d); intros [= <-];
          (split; [repeat (constructor; [apply byte_at_byte|]); constructor
                  |exists 1%nat; simpl; lia]).
Qed.

Lemma filter_no_crlf l :
  Forall (fun c => is_crlf c = false) l ->
  List.filter (fun c => negb (is_crlf c)) l = l.
Proof.
  induction 1 as [|c l Hc _ IH]; [reflexivity|].
  simpl. rewrite Hc. simpl. rewrite IH. reflexivity.
Qed.

Lemma hex_val_lower c : hex_val (lower c) = hex_val c.
Proof.
  assert (Hall : forall c, (match hex_val (lower c), hex_val c with
                            | Some a, Some b => a =? b
                            | None, None => true
                            | _, _ => false
                            end) = true).
  { apply EncodingFacts.all_ascii. vm_compute. reflexivity. }
  specialize (Hall c).
  destruct (hex_val (lower c)), (hex_val c); try discriminate; [|reflexivity].
  apply Z.eqb_eq in Hall. congruence.
Qed.

Lemma hex_pairs_lower : forall n l,
  (List.length l <= n)%nat ->
  hex_pairs (list_of_string (ToLower (string_of_list l))) = hex_pairs l.
Proof.
  induction n as [|n IH]; intros l Hn.
  - destruct l; [reflexivity|simpl in Hn; lia].
  - destruct l as [|p [|q rest]];
      [reflexivity|simpl; unfold is_hex; rewrite hex_val_lower; reflexivity|].
    simpl. rewrite !hex_val_lower.
    rewrite (IH rest) by (simpl in Hn; lia). reflexivity.
Qed.

Lemma ToLower_length s : String.length (ToLower s) = String.length s.
Proof. induction s as [|c s IH]; simpl; [reflexivity|]. rewrite IH. reflexivity. Qed.

Lemma ToLower_hex s :
  Forall (fun c => is_hex c = true) (list_of_string s) ->
  Forall (fun c => is_hex c = true) (list_of_string (ToLower s)).
Proof.
  induction s as [|c s IH]; simpl; intros Hall; [constructor|].
  inversion Hall as [|? ? Hc Hrest]; subst.
  constructor; [|apply IH; exact Hrest].
  unfold is_hex in *. rewrite hex_val_lower. exact Hc.
Qed.

(** X11.  Hexadecimal identifiers.  Sixty-four hexadecimal digits, in
    upper or lower case, are accepted, and the address holds the 32
    bytes that [hex.DecodeString] reads from them; the case of the
    digits does not change the address. *)
Theorem hex_contract_id_is_decoded s :
  is_hex64 s ->
  exists hash,
    hex_DecodeString s = Ok hash /\ List.length hash = 32%nat /\
    EncodeContractAddress s = Ok (contract_address hash) /\
    EncodeContractAddress (ToLower s) = Ok (contract_address hash).
Proof.
  intros Hs.
  destruct (EncodingFacts.EncodeContractAddress_hex s Hs) as (hash & Hdec & Hlen & Henc).
  exists hash. split; [exact Hdec|]. split; [exact Hlen|]. split; [exact Henc|].
  destruct Hs as [Hl Hall].
  destruct (EncodingFacts.EncodeContractAddress_hex (ToLower s)) as (hash' & Hdec' & _ & Henc').
  { split; [rewrite ToLower_length; exact Hl|apply ToLower_hex; exact Hall]. }
  rewrite Henc'. f_equal. f_equal.
  unfold hex_DecodeString in *.
  rewrite <- (EncodingFacts.string_of_list_of_string s) in Hdec' at 1.
  rewrite (hex_pairs_lower (String.length s)) in Hdec'
    by (rewrite EncodingFacts.list_of_string_length; lia).
  congruence.
Qed.

(** X12.  Round trip.  For any 32 bytes, the hexadecimal encoding and the
    base64 encoding of the bytes are both accepted and both give the
    address that holds exactly those bytes. *)
Theorem contract_id_round_trip bytes :
  List.length bytes = 32%nat -> is_bytes bytes ->
  EncodeContractAddress (hex_EncodeToString bytes) = Ok (contract_address bytes) /\
  EncodeContractAddress (base64_EncodeToString bytes) = Ok (contract_address bytes).
Proof.
  intros Hlen Hbytes. split.
  - destruct (EncodingFacts.EncodeContractAddress_hex (hex_EncodeToString bytes))
      as (hash & Hdec & _ & Henc).
    + unfold is_hex64, hex_EncodeToString.
      rewrite <- EncodingFacts.list_of_string_length, EncodingFacts.list_of_string_of_list.
      split; [rewrite hex_encode_length, Hlen; reflexivity
             |apply hex_encode_digits; exact Hbytes].
    + rewrite Henc. f_equal. f_equal.
      unfold hex_DecodeString, hex_EncodeToString in Hdec.
      rewrite EncodingFacts.list_of_string_of_list, (hex_roundtrip bytes Hbytes) in Hdec.
      congruence.
  - apply EncodingFacts.EncodeContractAddress_base64; assumption.
Qed.

(** X13.  What an accepted identifier yields.  Every address that
    [EncodeContractAddress] returns is a contract address (never an
    account address) whose hash is exactly 32 bytes, each between 0 and
    255. *)
Theorem accepted_contract_id_has_32_bytes s addr :
  EncodeContractAddress s = Ok addr ->
  Type_ addr = ScAddressTypeContract /\
  exists hash,
    ContractId addr = Some hash /\ List.length hash = 32%nat /\ is_bytes hash.
Proof.
  unfold EncodeContractAddress.
  destruct (if len s =? 64 then scan_hex_bytes 32 (list_of_string s) else None)
    as [hash|] eqn:Hhex.
  - intros [= <-]. split; [reflexivity|]. exists hash. split; [reflexivity|].
    destruct (len s =? 64); [|discriminate].
    split; [apply (EncodingFacts.scan_hex_bytes_length _ _ _ Hhex)
           |apply (scan_hex_bytes_bytes _ _ _ Hhex)].
  - unfold base64_DecodeString.
    destruct (b64_groups _) as [bytes|] eqn:Hb; [|discriminate].
    destruct (Z.of_nat (List.length bytes) =? 32) eqn:Hl; [|discriminate].
    intros [= <-]. split; [reflexivity|]. exists bytes. split; [reflexivity|].
    apply Z.eqb_eq in Hl. split; [lia|].
    apply (b64_groups_shape _ _ _ (Nat.le_refl _) Hb).
Qed.

(** X14.  The length of an accepted identifier.  An identifier that
    holds no carriage return and no line feed is accepted only if it is
    44 or 64 characters long; the 56-character form in which contract
    identifiers are usually displayed is therefore refused. *)
Theorem accepted_contract_id_length s addr :
  EncodeContractAddress s = Ok addr ->
  Forall (fun c => is_crlf c = false) (list_of_string s) ->
  String.length s = 44%nat \/ String.length s = 64%nat.
Proof.
  unfold EncodeContractAddress, len. intros Henc Hclean.
  destruct (Z.of_nat (String.length s) =? 64) eqn:H64.
  { right. apply Z.eqb_eq in H64. lia. }
  left. revert Henc. unfold base64_DecodeString.
  rewrite (filter_no_crlf _ Hclean).
  destruct (b64_groups (list_of_string s)) as [bytes|] eqn:Hb; [|discriminate].
  destruct (Z.of_nat (List.length bytes) =? 32) eqn:Hl; [|discriminate].
  intros _. apply Z.eqb_eq in Hl.
  destruct (b64_groups_shape _ _ _ (Nat.le_refl _) Hb) as (_ & q & Hq & Hlo & Hhi).
  rewrite EncodingFacts.list_of_string_length in Hq. lia.
Qed.

Lemma hex_contract_id_is_decoded_witness :
  exists hash,
    hex_DecodeString Scenarios.sample_contract = Ok hash /\ List.length hash = 32%nat /\
    EncodeContractAddress Scenarios.sample_contract = Ok (contract_address hash) /\
    EncodeContractAddress (ToLower Scenarios.sample_contract) = Ok (contract_address hash).
Proof.
  apply (hex_contract_id_is_decoded Scenarios.sample_contract).
  split; [reflexivity|].
  apply List.Forall_forall. apply (proj1 (forallb_forall is_hex _)).
  vm_compute. reflexivity.
Defined.

Lemma contract_id_round_trip_witness :
  EncodeContractAddress (hex_EncodeToString Scenarios.sample_hash)
    = Ok (contract_address Scenarios.sample_hash) /\
  EncodeContractAddress (base64_EncodeToString Scenarios.sample_hash)
    = Ok (contract_address Scenarios.sample_hash).
Proof.
  apply (contract_id_round_trip Scenarios.sample_hash).
  - reflexivity.
  - unfold is_bytes, Scenarios.sample_hash. repeat constructor; lia.
Defined.

Lemma accepted_contract_id_has_32_bytes_witness :
  Type_ (contract_address Scenarios.sample_hash) = ScAddressTypeContract /\
  exists hash,
    ContractId (contract_address Scenarios.sample_hash) = Some hash /\
    List.length hash = 32%nat /\ is_bytes hash.
Proof.
  apply (accepted_contract_id_has_32_bytes Scenarios.sample_base64).
  vm_compute. reflexivity.
Defined.

Lemma accepted_contract_id_length_witness :
  String.length Scenarios.sample_base64 = 44%nat \/
  String.length Scenarios.sample_base64 = 64%nat.
Proof.
  apply (accepted_contract_id_length Scenarios.sample_base64
           (contract_address Scenarios.sample_hash)).
  - vm_compute. reflexivity.
  - apply List.Forall_forall. intros c Hc. apply negb_true_iff. revert c Hc.
    apply (proj1 (forallb_forall (fun c => negb (is_crlf c)) _)).
    vm_compute. reflexivity.
Defined.

End AddressFacts.

(* ===================================================================== *)
(** ** Properties of the wallet-type and address normalization       *)
(* ===================================================================== *)

Module NormalizeFacts.

Import Auth.

(** *** strings.TrimSpace on bytes below 0x80 *)

(** The encoding of a white-space rune above U+007F does not start with
    a byte below 0x80. *)
Lemma strip_bytes_high p c s :
  match p with b :: _ => 128 <=? b | [] => false end = true ->
  code c < 128 ->
  strip_bytes p (c :: s) = None.
Proof.
  destruct p as [|b p]; [discriminate|]. intros Hb Hc. simpl.
  destruct (code c =? b) eqn:Heq; [|reflexivity]. lia.
Qed.

Lemma strip_any_high ps c s :
  forallb (fun p => match p with b :: _ => 128 <=? b | [] => false end) ps = true ->
  code c < 128 ->
  strip_any ps (c :: s) = None.
Proof.
  induction ps as [|p ps IH]; intros Hps Hc; [reflexivity|].
  simpl in Hps. apply andb_prop in Hps as [Hp Hps].
  simpl strip_any. rewrite (strip_bytes_high p c s Hp Hc). apply IH; assumption.
Qed.

Lemma unicode_spaces_high :
  forallb (fun p => match p with b :: _ => 128 <=? b | [] => false end)
    unicode_spaces = true /\
  forallb (fun p => match p with b :: _ => 128 <=? b | [] => false end)
    (List.map (@rev Z) unicode_spaces) = true.
Proof. split; vm_compute; reflexivity. Qed.

(** Nothing is removed in front of a byte below 0x80 that is not white
    space. *)
Lemma trim_left_kept ps fuel c s :
  forallb (fun p => match p with b :: _ => 128 <=? b | [] => false end) ps = true ->
  code c < 128 -> ascii_space c = false ->
  trim_left ps fuel (c :: s) = c :: s.
Proof.
  intros Hps Hc Hsp. destruct fuel as [|fuel]; [reflexivity|].
  simpl. unfold strip_space. rewrite Hsp, (strip_any_high ps c s Hps Hc). reflexivity.
Qed.

Lemma trim_left_nil ps fuel : trim_left ps fuel [] = [].
Proof. destruct fuel; reflexivity. Qed.

(** On bytes below 0x80 [trim_left] drops leading white space, and what
    is left does not start with white space. *)
Lemma trim_left_ascii ps :
  forallb (fun p => match p with b :: _ => 128 <=? b | [] => false end) ps = true ->
  forall fuel l,
    Forall (fun c => code c < 128) l -> (List.length l <= fuel)%nat ->
    exists k, trim_left ps fuel l = drop k l /\
      forall c m, drop k l = c :: m -> ascii_space c = false.
Proof.
  intros Hps. induction fuel as [|fuel IH]; intros l Hl Hlen.
  - destruct l; [|simpl in Hlen; lia]. exists 0%nat. split; [reflexivity|discriminate].
  - destruct l as [|c l]; [exists 0%nat; split; [reflexivity|discriminate]|].
    inversion Hl as [|? ? Hc Hl']; subst.
    destruct (ascii_space c) eqn:Hsp.
    + destruct (IH l Hl' ltac:(simpl in Hlen; lia)) as (k & Hk & Hhead).
      exists (S k). simpl. unfold strip_space. rewrite Hsp. split; [exact Hk|exact Hhead].
    + exists 0%nat. rewrite (trim_left_kept ps (S fuel) c l Hps Hc Hsp).
      split; [reflexivity|]. intros c' m [= <- <-]. exact Hsp.
Qed.

(** The shape of what [TrimSpace] returns for a string of bytes below
    0x80: the empty string, or a string whose first and last bytes are
    not white space. *)
Lemma TrimSpace_ascii s :
  is_ascii s = true ->
  exists t,
    TrimSpace s = string_of_list t /\
    Forall (fun c => code c < 128) t /\
    (t = [] \/
     (exists c m, t = c :: m /\ ascii_space c = false) /\
     (exists m c, t = m ++ [c] /\ ascii_space c = false)).
Proof.
  intros Hs. unfold TrimSpace.
  assert (Hl : Forall (fun c => code c < 128) (list_of_string s)).
  { apply List.Forall_forall. intros c Hc. unfold is_ascii in Hs.
    rewrite forallb_forall in Hs. apply Z.ltb_lt. apply Hs. exact Hc. }
  destruct unicode_spaces_high as [Hfront Hback].
  set (l := list_of_string s) in *.
  destruct (trim_left_ascii _ Hfront (List.length l) l Hl (Nat.le_refl _))
    as (k & -> & Hhead).
  set (l1 := drop k l) in *.
  assert (Hl1 : Forall (fun c => code c < 128) l1) by (apply Forall_drop; exact Hl).
  destruct (trim_left_ascii _ Hback (List.length l1) (rev l1))
    as (k' & -> & Hlast).
  { apply Forall_rev. exact Hl1. }
  { rewrite length_rev. lia. }
  rewrite skipn_rev in *. rewrite rev_involutive.
  set (n := (List.length l1 - k')%nat) in *.
  exists (take n l1). split; [reflexivity|]. split; [apply Forall_take; exact Hl1|].
  destruct (take n l1) as [|c m] eqn:Ht; [left; reflexivity|right].
  split.
  - exists c, m. split; [reflexivity|].
    destruct l1 as [|c1 m1]; [destruct n; discriminate|].
    destruct n as [|n']; [discriminate|]. simpl in Ht. injection Ht as <- _.
    apply (Hhead c1 m1). reflexivity.
  - destruct (rev (c :: m)) as [|c' m'] eqn:Hrev.
    + apply (f_equal (@List.length ascii)) in Hrev. rewrite length_rev in Hrev.
      discriminate.
    + exists (rev m'), c'. split.
      * rewrite <- (rev_involutive (c :: m)), Hrev. reflexivity.
      * apply (Hlast c' m'). reflexivity.
Qed.

(** A string of that shape is left alone. *)
Lemma TrimSpace_kept t :
  (t = [] \/
   (exists c m, t = c :: m /\ code c < 128 /\ ascii_space c = false) /\
   (exists m c, t = m ++ [c] /\ code c < 128 /\ ascii_space c = false)) ->
  TrimSpace (string_of_list t) = string_of_list t.
Proof.
  destruct unicode_spaces_high as [Hfront Hback].
  unfold TrimSpace. rewrite EncodingFacts.list_of_string_of_list.
  intros [->|[(c & m & Ht & Hc & Hsp) (m' & c' & Ht' & Hc' & Hsp')]]; [reflexivity|].
  assert (H1 : forall fuel, trim_left unicode_spaces fuel t = t).
  { intros fuel. rewrite Ht. apply trim_left_kept; assumption. }
  rewrite H1.
  assert (Hrev : rev t = c' :: rev m').
  { rewrite Ht', rev_app_distr. reflexivity. }
  assert (H2 : forall fuel,
            trim_left (List.map (@rev Z) unicode_spaces) fuel (rev t) = rev t).
  { intros fuel. rewrite Hrev. apply trim_left_kept; assumption. }
  rewrite H2, rev_involutive. reflexivity.
Qed.

(** Leading white space is dropped when the fuel covers it. *)
Lemma trim_left_spaces ps : forall ws fuel rest,
  Forall (fun c => ascii_space c = true) ws ->
  (List.length ws <= fuel)%nat ->
  trim_left ps fuel (ws ++ rest) = trim_left ps (fuel - List.length ws) rest.
Proof.
  induction ws as [|w ws IH]; intros fuel rest Hws Hfuel.
  - simpl. rewrite Nat.sub_0_r. reflexivity.
  - inversion Hws as [|? ? Hw Hws']; subst.
    destruct fuel as [|fuel]; [simpl in Hfuel; lia|].
    simpl. unfold strip_space. rewrite Hw. apply IH; [exact Hws'|simpl in Hfuel; lia].
Qed.

(** White space around a string of the shape that [TrimSpace] keeps is
    removed, and nothing else. *)
Lemma TrimSpace_around ws1 t ws2 :
  Forall (fun c => ascii_space c = true) ws1 ->
  Forall (fun c => ascii_space c = true) ws2 ->
  (exists c m, t = c :: m /\ code c < 128 /\ ascii_space c = false) ->
  (exists m c, t = m ++ [c] /\ code c < 128 /\ ascii_space c = false) ->
  TrimSpace (string_of_list (ws1 ++ t ++ ws2)) = string_of_list t.
Proof.
  destruct unicode_spaces_high as [Hfront Hback].
  intros Hws1 Hws2 (c & m & Ht & Hc & Hsp) (m' & c' & Ht' & Hc' & Hsp').
  unfold TrimSpace. rewrite EncodingFacts.list_of_string_of_list.
  assert (H1 : trim_left unicode_spaces (List.length (ws1 ++ t ++ ws2)) (ws1 ++ t ++ ws2)
               = t ++ ws2).
  { rewrite trim_left_spaces by (rewrite ?length_app; try assumption; lia).
    rewrite Ht. apply trim_left_kept; assumption. }
  rewrite H1.
  assert (H2 : trim_left (List.map (@rev Z) unicode_spaces) (List.length (t ++ ws2))
                 (rev (t ++ ws2)) = rev t).
  { rewrite rev_app_distr.
    rewrite trim_left_spaces
      by (rewrite ?length_app, ?length_rev; try (apply Forall_rev; assumption); lia).
    rewrite Ht', rev_app_distr. apply trim_left_kept; assumption. }
  rewrite H2, rev_involutive. reflexivity.
Qed.

(** *** Lower case *)

Lemma lower_facts c :
  lower (lower c) = lower c /\
  ascii_space (lower c) = ascii_space c /\
  (code (lower c) <? 128) = (code c <? 128).
Proof.
  assert (Hall : forall c,
            (Ascii.eqb (lower (lower c)) (lower c)
             && Bool.eqb (ascii_space (lower c)) (ascii_space c)
             && Bool.eqb (code (lower c) <? 128) (code c <? 128)) = true).
  { apply EncodingFacts.all_ascii. vm_compute. reflexivity. }
  specialize (Hall c).
  apply andb_prop in Hall as [Hall H3]. apply andb_prop in Hall as [H1 H2].
  apply Ascii.eqb_eq in H1. apply Bool.eqb_prop in H2, H3. auto.
Qed.

Lemma ToLower_list l :
  ToLower (string_of_list l) = string_of_list (List.map lower l).
Proof. induction l as [|c l IH]; simpl; [reflexivity|]. rewrite IH. reflexivity. Qed.

Lemma is_ascii_list l :
  is_ascii (string_of_list l) = true <-> Forall (fun c => code c < 128) l.
Proof.
  unfold is_ascii. rewrite EncodingFacts.list_of_string_of_list, forallb_forall.
  rewrite List.Forall_forall. split; intros H c Hc; specialize (H c Hc); lia.
Qed.

Lemma map_lower_ascii l :
  Forall (fun c => code c < 128) l -> Forall (fun c => code c < 128) (List.map lower l).
Proof.
  induction 1 as [|c l Hc _ IH]; simpl; constructor; [|exact IH].
  destruct (lower_facts c) as (_ & _ & H). lia.
Qed.

Lemma map_lower_idem l : List.map lower (List.map lower l) = List.map lower l.
Proof.
  induction l as [|c l IH]; simpl; [reflexivity|].
  rewrite IH. destruct (lower_facts c) as (-> & _). reflexivity.
Qed.

Lemma string_of_list_inj l1 l2 : string_of_list l1 = string_of_list l2 -> l1 = l2.
Proof.
  intros H. apply (f_equal list_of_string) in H.
  rewrite !EncodingFacts.list_of_string_of_list in H. exact H.
Qed.

Lemma string_of_list_app l1 l2 :
  string_of_list (l1 ++ l2) = (string_of_list l1 ++ string_of_list l2)%string.
Proof. induction l1 as [|c l1 IH]; simpl; [reflexivity|]. rewrite IH. reflexivity. Qed.

Lemma has_prefix_cons a p c s :
  has_prefix (a :: p) (c :: s) = if Ascii.eqb a c then has_prefix p s else None.
Proof. reflexivity. Qed.

Lemma HasPrefix_0x a :
  HasPrefix a "0x" = true <-> exists body, a = ("0x" ++ body)%string.
Proof.
  unfold HasPrefix. split.
  - change (list_of_string "0x") with ["0"; "x"]%char.
    destruct a as [|c0 [|c1 body]]; simpl list_of_string.
    + discriminate.
    + rewrite has_prefix_cons. destruct (Ascii.eqb "0" c0); discriminate.
    + rewrite !has_prefix_cons.
      destruct (Ascii.eqb "0" c0) eqn:H0; [|discriminate].
      destruct (Ascii.eqb "x" c1) eqn:H1; [|discriminate].
      apply Ascii.eqb_eq in H0, H1. subst. intros _. exists body. reflexivity.
  - intros [body ->]. reflexivity.
Qed.

Section Normalize.

Variable unicode_lower : string -> string.
Context `{Crypto}.

Lemma strings_ToLower_ascii l :
  Forall (fun c => code c < 128) l ->
  strings_ToLower unicode_lower (string_of_list l) = string_of_list (List.map lower l).
Proof.
  intros Hl. unfold strings_ToLower.
  rewrite (proj2 (is_ascii_list l) Hl). apply ToLower_list.
Qed.

(** None of the three verifiers reports an unsupported wallet type. *)
Lemma verifiers_support address message signatureHex publicKeyHex :
  verifyEVM address message signatureHex <> Some (ErrNew "unsupported wallet_type") /\
  verifyStellarEd25519 message signatureHex publicKeyHex
    <> Some (ErrNew "unsupported wallet_type") /\
  verifyStellarSecp256k1 message signatureHex publicKeyHex
    <> Some (ErrNew "unsupported wallet_type").
Proof.
  unfold verifyEVM, verifyStellarEd25519, verifyStellarSecp256k1.
  repeat split;
    repeat match goal with
    | |- context [match ?x with _ => _ end] => destruct x
    | |- context [if ?x then _ else _] => destruct x
    end; discriminate.
Qed.

(** [NormalizeAddress] knows the three wallet types. *)
Lemma NormalizeAddress_supports t addr :
  t = WalletTypeEVM \/ t = WalletTypeStellarEd25519 \/ t = WalletTypeStellarSecp256k1 ->
  NormalizeAddress unicode_lower t addr <> Err (ErrNew "unsupported wallet_type").
Proof.
  unfold NormalizeAddress.
  intros [ -> | [ -> | -> ] ]; destruct (String.eqb (TrimSpace addr) ""); try discriminate;
    simpl String.eqb; cbv iota; try discriminate.
  destruct (negb (len _ =? 42)); discriminate.
Qed.

(** X15.  [NormalizeWalletType] returns one of the three wallet types or
    the error "unsupported wallet_type", nothing else.  A wallet type it
    returns is left unchanged by a second normalization, and neither
    [NormalizeAddress] nor [VerifySignature] answers "unsupported
    wallet_type" for it. *)
Theorem NormalizeWalletType_is_canonical v :
  match NormalizeWalletType unicode_lower v with
  | Ok t =>
      (t = WalletTypeEVM \/ t = WalletTypeStellarEd25519 \/
       t = WalletTypeStellarSecp256k1) /\
      NormalizeWalletType unicode_lower t = Ok t /\
      (forall addr,
         NormalizeAddress unicode_lower t addr <> Err (ErrNew "unsupported wallet_type")) /\
      (forall address message signatureHex publicKeyHex,
         VerifySignature t address message signatureHex publicKeyHex
           <> Some (ErrNew "unsupported wallet_type"))
  | Err e => e = ErrNew "unsupported wallet_type"
  end.
Proof.
  unfold NormalizeWalletType.
  set (t := strings_ToLower unicode_lower (TrimSpace v)).
  destruct (String.eqb t WalletTypeEVM) eqn:He.
  { apply String.eqb_eq in He. rewrite He. simpl orb. cbv iota.
    split; [auto|]. split; [reflexivity|]. split; [intros addr; apply NormalizeAddress_supports; auto|].
    intros a m sg pk. apply (verifiers_support a m sg pk). }
  destruct (String.eqb t WalletTypeStellarEd25519) eqn:Hd.
  { apply String.eqb_eq in Hd. rewrite Hd. simpl orb. cbv iota.
    split; [auto|]. split; [reflexivity|]. split; [intros addr; apply NormalizeAddress_supports; auto|].
    intros a m sg pk. apply (verifiers_support a m sg pk). }
  destruct (String.eqb t WalletTypeStellarSecp256k1) eqn:Hs.
  { apply String.eqb_eq in Hs. rewrite Hs. simpl orb. cbv iota.
    split; [auto|]. split; [reflexivity|]. split; [intros addr; apply NormalizeAddress_supports; auto|].
    intros a m sg pk. apply (verifiers_support a m sg pk). }
  reflexivity.
Qed.

(** X16.  Every outcome of [NormalizeAddress].  A blank address is
    reported as "address is required" before the wallet type is looked
    at.  Otherwise an EVM address is returned only when, lower-cased and
    given the prefix [0x] if it lacks it, it is 42 bytes long, and what
    is returned starts with [0x] followed by 40 bytes; a Stellar address
    is returned lower-cased whatever it holds; any other wallet type is
    unsupported. *)
Theorem NormalizeAddress_outcomes t addr :
  match NormalizeAddress unicode_lower t addr with
  | Ok a =>
      TrimSpace addr <> "" /\
      ((t = WalletTypeEVM /\
        exists body, a = ("0x" ++ body)%string /\ String.length body = 40%nat) \/
       ((t = WalletTypeStellarEd25519 \/ t = WalletTypeStellarSecp256k1) /\
        a = strings_ToLower unicode_lower (TrimSpace addr)))
  | Err e =>
      (TrimSpace addr = "" /\ e = ErrNew "address is required") \/
      (TrimSpace addr <> "" /\ t = WalletTypeEVM /\ e = ErrNew "invalid evm address") \/
      (TrimSpace addr <> "" /\ t <> WalletTypeEVM /\ t <> WalletTypeStellarEd25519 /\
       t <> WalletTypeStellarSecp256k1 /\ e = ErrNew "unsupported wallet_type")
  end.
Proof.
  unfold NormalizeAddress.
  destruct (String.eqb (TrimSpace addr) "") eqn:Hblank.
  { apply String.eqb_eq in Hblank. left. auto. }
  apply String.eqb_neq in Hblank.
  destruct (String.eqb t WalletTypeEVM) eqn:He.
  { apply String.eqb_eq in He.
    set (a0 := strings_ToLower unicode_lower (TrimSpace addr)).
    set (a := if negb (HasPrefix a0 "0x") then ("0x" ++ a0)%string else a0).
    destruct (len a =? 42) eqn:Hlen; simpl negb; cbv iota.
    - split; [exact Hblank|]. left. split; [exact He|].
      assert (Hp : HasPrefix a "0x" = true).
      { unfold a. destruct (HasPrefix a0 "0x") eqn:Hp0; simpl negb; cbv iota;
          [exact Hp0|reflexivity]. }
      apply HasPrefix_0x in Hp as [body Hbody]. exists body. split; [exact Hbody|].
      apply Z.eqb_eq in Hlen. unfold len in Hlen. rewrite Hbody in Hlen.
      change (String.length ("0x" ++ body)) with (S (S (String.length body))) in Hlen.
      lia.
    - right. left. auto. }
  apply String.eqb_neq in He.
  destruct (String.eqb t WalletTypeStellarEd25519) eqn:Hd.
  { apply String.eqb_eq in Hd. simpl orb. cbv iota.
    split; [exact Hblank|]. right. auto. }
  destruct (String.eqb t WalletTypeStellarSecp256k1) eqn:Hs.
  { apply String.eqb_eq in Hs. simpl orb. cbv iota.
    split; [exact Hblank|]. right. auto. }
  apply String.eqb_neq in Hd, Hs. simpl orb. cbv iota.
  right. right. auto.
Qed.

(** X17.  The digits of an EVM address are not read.  Any 40 bytes below
    0x80 that do not end in white space, written after [0x], are
    accepted as an EVM address and returned lower-cased: nothing checks
    that they are hexadecimal digits. *)
Theorem NormalizeAddress_does_not_read_evm_digits body :
  String.length body = 40%nat ->
  is_ascii body = true ->
  (forall m c, list_of_string body = m ++ [c] -> ascii_space c = false) ->
  NormalizeAddress unicode_lower WalletTypeEVM ("0x" ++ body)
    = Ok ("0x" ++ ToLower body)%string.
Proof.
  intros Hlen Hascii Hend.
  assert (Hall : Forall (fun c => code c < 128) (list_of_string body)).
  { apply is_ascii_list. rewrite EncodingFacts.string_of_list_of_string. exact Hascii. }
  destruct (list_of_string body) as [|c0 rest] eqn:Hbody.
  { rewrite <- EncodingFacts.list_of_string_length, Hbody in Hlen. discriminate. }
  destruct (@exists_last _ (c0 :: rest) ltac:(discriminate)) as (m & c & Hlast).
  assert (Hc : code c < 128).
  { rewrite Hlast in Hall. apply Forall_app in Hall as [_ Hall]. inversion Hall; assumption. }
  pose proof (Hend m c Hlast) as Hsp.
  set (t := ["0"; "x"]%char ++ (c0 :: rest)).
  assert (Heq : ("0x" ++ body)%string = string_of_list t).
  { unfold t. rewrite <- Hbody.
    change (string_of_list (["0"; "x"]%char ++ list_of_string body))
      with ("0x" ++ string_of_list (list_of_string body))%string.
    rewrite EncodingFacts.string_of_list_of_string. reflexivity. }
  unfold NormalizeAddress. rewrite Heq.
  rewrite TrimSpace_kept.
  2: { right. split.
       - exists "0"%char, ("x"%char :: c0 :: rest). repeat split; vm_compute; reflexivity.
       - exists (["0"; "x"]%char ++ m), c. unfold t. rewrite Hlast, <- app_assoc. auto. }
  change (String.eqb (string_of_list t) "") with false. cbv iota.
  simpl String.eqb. cbv iota.
  rewrite strings_ToLower_ascii
    by (unfold t; constructor; [vm_compute; reflexivity|];
        constructor; [vm_compute; reflexivity|exact Hall]).
  assert (Hlow : string_of_list (List.map lower t) = ("0x" ++ ToLower body)%string).
  { unfold t. rewrite <- Hbody.
    change (string_of_list (List.map lower (["0"; "x"]%char ++ list_of_string body)))
      with ("0x" ++ string_of_list (List.map lower (list_of_string body)))%string.
    rewrite <- ToLower_list, EncodingFacts.string_of_list_of_string. reflexivity. }
  rewrite Hlow.
  change (HasPrefix ("0x" ++ ToLower body) "0x") with true. cbn [negb].
  assert (H42 : (len ("0x" ++ ToLower body) =? 42) = true).
  { unfold len.
    change (String.length ("0x" ++ ToLower body))
      with (S (S (String.length (ToLower body)))).
    rewrite AddressFacts.ToLower_length, Hlen. reflexivity. }
  rewrite H42. reflexivity.
Qed.

(** X18.  Normalizing twice.  For an address of bytes below 0x80, what
    [NormalizeAddress] returns is left unchanged when it is normalized
    again for the same wallet type. *)
Theorem NormalizeAddress_is_idempotent t addr a :
  is_ascii addr = true ->
  NormalizeAddress unicode_lower t addr = Ok a ->
  NormalizeAddress unicode_lower t a = Ok a.
Proof.
  intros Hascii.
  destruct (TrimSpace_ascii addr Hascii) as (t0 & Ht0 & Hall & Hshape).
  unfold NormalizeAddress at 1. rewrite Ht0.
  destruct (String.eqb (string_of_list t0) "") eqn:Hblank; [discriminate|].
  apply String.eqb_neq in Hblank.
  destruct Hshape as [->|[(c & m & Hhead & Hsp) (m' & c' & Hlast & Hsp')]];
    [contradiction Hblank; reflexivity|].
  rewrite (strings_ToLower_ascii t0 Hall).
  set (t1 := List.map lower t0).
  assert (Hall1 : Forall (fun c => code c < 128) t1) by (apply map_lower_ascii; exact Hall).
  assert (Hidem : List.map lower t1 = t1) by apply map_lower_idem.
  assert (Hc : code c < 128).
  { rewrite Hhead in Hall. inversion Hall; assumption. }
  assert (Hc' : code c' < 128).
  { rewrite Hlast in Hall. apply Forall_app in Hall as [_ Hall].
    inversion Hall; assumption. }
  destruct (lower_facts c) as (_ & Hlsp & Hlc).
  destruct (lower_facts c') as (_ & Hlsp' & Hlc').
  assert (Hfirst1 : exists c1 m1, t1 = c1 :: m1 /\ code c1 < 128 /\ ascii_space c1 = false).
  { exists (lower c), (List.map lower m). unfold t1. rewrite Hhead. simpl.
    split; [reflexivity|]. split; [lia|congruence]. }
  assert (Hlast1 : exists m1 c1, t1 = m1 ++ [c1] /\ code c1 < 128 /\ ascii_space c1 = false).
  { exists (List.map lower m'), (lower c'). unfold t1. rewrite Hlast, List.map_app. simpl.
    split; [reflexivity|]. split; [lia|congruence]. }
  (* What a second normalization does to a string of this shape. *)
  assert (Hagain : forall t2,
            Forall (fun c => code c < 128) t2 -> List.map lower t2 = t2 ->
            (exists c1 m1, t2 = c1 :: m1 /\ code c1 < 128 /\ ascii_space c1 = false) ->
            (exists m1 c1, t2 = m1 ++ [c1] /\ code c1 < 128 /\ ascii_space c1 = false) ->
            TrimSpace (string_of_list t2) = string_of_list t2 /\
            String.eqb (string_of_list t2) "" = false /\
            strings_ToLower unicode_lower (string_of_list t2) = string_of_list t2).
  { intros t2 Hall2 Hidem2 Hf Hl. split; [|split].
    - apply TrimSpace_kept. right. split; assumption.
    - destruct Hf as (c1 & m1 & -> & _). reflexivity.
    - rewrite (strings_ToLower_ascii t2 Hall2), Hidem2. reflexivity. }
  destruct (String.eqb t WalletTypeEVM) eqn:He.
  - set (a2 := if negb (HasPrefix (string_of_list t1) "0x")
               then ("0x" ++ string_of_list t1)%string else string_of_list t1).
    destruct (len a2 =? 42) eqn:Hlen; simpl negb; cbv iota; [|discriminate].
    intros [= <-].
    assert (Ha2 : exists t2, a2 = string_of_list t2 /\
              Forall (fun c => code c < 128) t2 /\ List.map lower t2 = t2 /\
              (exists c1 m1, t2 = c1 :: m1 /\ code c1 < 128 /\ ascii_space c1 = false) /\
              (exists m1 c1, t2 = m1 ++ [c1] /\ code c1 < 128 /\ ascii_space c1 = false) /\
              HasPrefix a2 "0x" = true).
    { unfold a2. destruct (HasPrefix (string_of_list t1) "0x") eqn:Hp; simpl negb; cbv iota.
      - exists t1. repeat split; assumption.
      - exists (["0"; "x"]%char ++ t1). split; [reflexivity|]. split; [|split; [|split; [|split]]].
        + constructor; [vm_compute; reflexivity|].
          constructor; [vm_compute; reflexivity|]. exact Hall1.
        + simpl. rewrite Hidem. reflexivity.
        + exists "0"%char, ("x"%char :: t1). repeat split; vm_compute; reflexivity.
        + destruct Hlast1 as (m1 & c1 & -> & Hc1 & Hsp1).
          exists (["0"; "x"]%char ++ m1), c1. rewrite <- app_assoc. auto.
        + reflexivity. }
    destruct Ha2 as (t2 & Heq & Hall2 & Hidem2 & Hf2 & Hl2 & Hp2).
    destruct (Hagain t2 Hall2 Hidem2 Hf2 Hl2) as (Htrim & Hne & Hlow).
    unfold NormalizeAddress. rewrite Heq in *. rewrite Htrim, Hne, He, Hlow, Hp2.
    simpl negb. cbv iota. rewrite Hlen. reflexivity.
  - destruct (String.eqb t WalletTypeStellarEd25519 || String.eqb t WalletTypeStellarSecp256k1)
      eqn:Hst; [|discriminate].
    intros [= <-].
    destruct (Hagain t1 Hall1 Hidem Hfirst1 Hlast1) as (Htrim & Hne & Hlow).
    unfold NormalizeAddress. rewrite Htrim, Hne, He, Hst, Hlow. reflexivity.
Qed.

End Normalize.

Lemma NormalizeAddress_is_idempotent_witness :
  NormalizeAddress Scenarios.ascii_lower WalletTypeEVM Scenarios.sample_address
    = Ok Scenarios.sample_address.
Proof.
  apply (NormalizeAddress_is_idempotent Scenarios.ascii_lower WalletTypeEVM
           " 00112233445566778899AABBCCDDEEFF00112233 " Scenarios.sample_address).
  - reflexivity.
  - vm_compute. reflexivity.
Defined.

Lemma NormalizeAddress_does_not_read_evm_digits_witness :
  NormalizeAddress Scenarios.ascii_lower WalletTypeEVM
      "0xNOT-AN-ADDRESS-BUT-FORTY-BYTES-IN-LENGTH"
    = Ok "0xnot-an-address-but-forty-bytes-in-length".
Proof.
  apply (NormalizeAddress_does_not_read_evm_digits Scenarios.ascii_lower
           "NOT-AN-ADDRESS-BUT-FORTY-BYTES-IN-LENGTH").
  - reflexivity.
  - reflexivity.
  - intros m c Hm.
    assert (Hlast : last (list_of_string "NOT-AN-ADDRESS-BUT-FORTY-BYTES-IN-LENGTH")
                    = Some c) by (rewrite Hm; apply last_snoc).
    vm_compute in Hlast. injection Hlast as <-. reflexivity.
Defined.

End NormalizeFacts.

(* ===================================================================== *)
(** ** Further properties of the signature verifier                  *)
(* ===================================================================== *)

Module SignatureFacts.

Import Auth.

(** *** Hexadecimal text *)

Lemma hex_digit_kept d :
  0 <= d < 16 ->
  code (hex_digit d) < 128 /\ ascii_space (hex_digit d) = false /\
  Ascii.eqb "x" (hex_digit d) = false.
Proof.
  intros Hd.
  assert (Hall : forallb (fun n =>
            let c := hex_digit (Z.of_nat n) in
            (code c <? 128) && negb (ascii_space c) && negb (Ascii.eqb "x" c))
            (seq 0 16) = true) by (vm_compute; reflexivity).
  rewrite forallb_forall in Hall.
  specialize (Hall (Z.to_nat d) ltac:(apply in_seq; lia)).
  rewrite Z2Nat.id in Hall by lia. cbv zeta in Hall.
  apply andb_prop in Hall as [Hall H3]. apply andb_prop in Hall as [H1 H2].
  apply negb_true_iff in H2, H3. split; [lia|]. split; assumption.
Qed.

Lemma hex_encode_app l1 l2 : hex_encode (l1 ++ l2) = hex_encode l1 ++ hex_encode l2.
Proof. induction l1 as [|b l1 IH]; simpl; [reflexivity|]. rewrite IH. reflexivity. Qed.

(** The hexadecimal text of at least one byte starts with two digits and
    ends with a digit. *)
Lemma hex_encode_ends bytes :
  bytes <> [] -> is_bytes bytes ->
  (exists d1 d2 rest, hex_encode bytes = d1 :: d2 :: rest /\
     code d1 < 128 /\ ascii_space d1 = false /\ Ascii.eqb "x" d2 = false) /\
  (exists front d, hex_encode bytes = front ++ [d] /\
     code d < 128 /\ ascii_space d = false).
Proof.
  intros Hne Hbytes. split.
  - destruct bytes as [|b rest]; [contradiction|].
    inversion Hbytes as [|? ? Hb _]; subst.
    destruct (AddressFacts.nibbles b Hb) as (Hhi & Hlo & _).
    destruct (hex_digit_kept _ Hhi) as (H1 & H2 & _).
    destruct (hex_digit_kept _ Hlo) as (_ & _ & H3).
    simpl. eauto 10.
  - destruct (exists_last Hne) as (front & b & ->).
    apply Forall_app in Hbytes as [_ Hb]. inversion Hb as [|? ? Hb' _]; subst.
    destruct (AddressFacts.nibbles b Hb') as (_ & Hlo & _).
    destruct (hex_digit_kept _ Hlo) as (H1 & H2 & _).
    rewrite hex_encode_app. simpl.
    exists (hex_encode front ++ [hex_digit (Z.shiftr b 4)]), (hex_digit (Z.land b 15)).
    rewrite <- app_assoc. auto.
Qed.

Lemma hex_pairs_length : forall n l bs,
  (List.length l <= n)%nat -> hex_pairs l = Ok bs ->
  List.length l = (2 * List.length bs)%nat.
Proof.
  induction n as [|n IH]; intros l bs Hn.
  - destruct l; [|simpl in Hn; lia]. intros [= <-]. reflexivity.
  - destruct l as [|p [|q rest]];
      [intros [= <-]; reflexivity|simpl; destruct (is_hex p); discriminate|].
    simpl hex_pairs.
    destruct (hex_val p); [|discriminate]. destruct (hex_val q); [|discriminate].
    destruct (hex_pairs rest) as [bs'|] eqn:Hrest; [|discriminate].
    intros [= <-]. simpl. rewrite (IH rest bs') by (simpl in Hn; auto; lia). lia.
Qed.

Lemma code_inj c c' : code c = code c' -> c = c'.
Proof.
  unfold code. intros H. apply N2Z.inj in H.
  rewrite <- (ascii_N_embedding c), <- (ascii_N_embedding c'), H. reflexivity.
Qed.

Lemma string_list s : s = string_of_list (list_of_string s).
Proof. symmetry. apply EncodingFacts.string_of_list_of_string. Qed.

(** X19.  [decodeHex] undoes [hex.EncodeToString].  The hexadecimal text
    of one or more bytes decodes to those bytes, with or without the
    prefix [0x], and with any ASCII white space before and after it. *)
Theorem decodeHex_round_trip bytes ws1 ws2 :
  bytes <> [] -> is_bytes bytes ->
  Forall (fun c => ascii_space c = true) (list_of_string ws1) ->
  Forall (fun c => ascii_space c = true) (list_of_string ws2) ->
  decodeHex (ws1 ++ hex_EncodeToString bytes ++ ws2) = Ok bytes /\
  decodeHex (ws1 ++ "0x" ++ hex_EncodeToString bytes ++ ws2) = Ok bytes.
Proof.
  intros Hne Hbytes Hws1 Hws2.
  destruct (hex_encode_ends bytes Hne Hbytes)
    as ((d1 & d2 & rest & Hhead & Hd1 & Hsp1 & Hx) & (front & d & Hlast & Hd & Hsp)).
  unfold decodeHex, hex_EncodeToString.
  rewrite (string_list ws1), (string_list ws2).
  change "0x" with (string_of_list ["0"; "x"]%char).
  rewrite <- !NormalizeFacts.string_of_list_app.
  split.
  - rewrite NormalizeFacts.TrimSpace_around; try assumption;
      [|exists d1, (d2 :: rest); auto|exists front, d; auto].
    change (string_of_list ["0"; "x"]%char) with "0x".
    assert (Hnb : String.eqb (string_of_list (hex_encode bytes)) "" = false)
      by (rewrite Hhead; reflexivity).
    assert (Hpre : TrimPrefix (string_of_list (hex_encode bytes)) "0x"
                   = string_of_list (hex_encode bytes)).
    { unfold TrimPrefix. rewrite EncodingFacts.list_of_string_of_list.
      change (list_of_string "0x") with ["0"; "x"]%char.
      rewrite Hhead, !NormalizeFacts.has_prefix_cons, Hx.
      destruct (Ascii.eqb "0" d1); reflexivity. }
    rewrite Hnb, Hpre. unfold hex_DecodeString.
    rewrite EncodingFacts.list_of_string_of_list.
    apply AddressFacts.hex_roundtrip; exact Hbytes.
  - rewrite (app_assoc ["0"; "x"]%char).
    rewrite NormalizeFacts.TrimSpace_around; try assumption.
    + change (string_of_list ["0"; "x"]%char) with "0x".
      simpl String.eqb. cbv iota.
      unfold TrimPrefix, hex_DecodeString.
      rewrite EncodingFacts.list_of_string_of_list.
      change (list_of_string "0x") with ["0"; "x"]%char.
      change (has_prefix ["0"; "x"]%char (["0"; "x"]%char ++ hex_encode bytes))
        with (Some (hex_encode bytes)).
      cbv iota. rewrite EncodingFacts.list_of_string_of_list.
      apply AddressFacts.hex_roundtrip; exact Hbytes.
    + exists "0"%char, ("x"%char :: hex_encode bytes).
      repeat split; vm_compute; reflexivity.
    + exists (["0"; "x"]%char ++ front), d. rewrite Hlast, <- app_assoc. auto.
Qed.

Section Verifiers.
Context `{Crypto}.

(** X20.  The text of an EVM signature.  [VerifySignature] accepts an
    EVM signature only if its text is [0x] or [0X] followed by exactly
    130 characters: unlike the Stellar signatures, it is not trimmed and
    the prefix is not optional. *)
Theorem evm_signature_text address message signatureHex publicKeyHex :
  VerifySignature WalletTypeEVM address message signatureHex publicKeyHex = None ->
  exists digits,
    (signatureHex = ("0x" ++ digits)%string \/ signatureHex = ("0X" ++ digits)%string) /\
    String.length digits = 130%nat.
Proof.
  rewrite AuthFacts.VerifySignature_evm. intros Hv.
  apply AuthFacts.verifyEVM_None in Hv.
  destruct Hv as (sig & pub & Hdec & Hlen & _).
  unfold hexutil_Decode in Hdec.
  destruct (list_of_string signatureHex) as [|c0 [|c1 rest]] eqn:Hl;
    [discriminate Hdec|discriminate Hdec|].
  destruct ((code c0 =? 48) && ((code c1 =? 120) || (code c1 =? 88))) eqn:Hp;
    [|discriminate Hdec].
  apply andb_prop in Hp as [H0 H1]. apply Z.eqb_eq in H0.
  exists (string_of_list rest). split.
  - rewrite (string_list signatureHex), Hl.
    apply (code_inj c0 "0") in H0. subst c0.
    apply orb_prop in H1 as [H1|H1]; apply Z.eqb_eq in H1;
      [apply (code_inj c1 "x") in H1|apply (code_inj c1 "X") in H1]; subst c1; auto.
  - apply (hex_pairs_length _ _ _ (Nat.le_refl _)) in Hdec.
    rewrite <- EncodingFacts.list_of_string_length,
      EncodingFacts.list_of_string_of_list.
    unfold blen in Hlen. lia.
Qed.

(** X21.  The address of a Stellar wallet is not verified.  For a wallet
    type other than "evm" the outcome of [VerifySignature] does not
    depend on the address: the signature is checked against the public
    key that comes with it, whatever address is claimed. *)
Theorem stellar_verification_ignores_address
    t address address' message signatureHex publicKeyHex :
  t <> WalletTypeEVM ->
  VerifySignature t address message signatureHex publicKeyHex
    = VerifySignature t address' message signatureHex publicKeyHex.
Proof.
  intros Ht. unfold VerifySignature.
  apply String.eqb_neq in Ht. rewrite Ht. reflexivity.
Qed.

(** *** Compact signatures *)

Lemma be_bytes_length n : forall x, List.length (be_bytes n x) = n.
Proof.
  induction n as [|n IH]; intros x; simpl; [reflexivity|].
  rewrite length_app, IH. simpl. lia.
Qed.

Lemma be_value_snoc l x : be_value (l ++ [x]) = 256 * be_value l + x.
Proof. unfold be_value. rewrite fold_left_app. reflexivity. Qed.

Lemma be_value_be_bytes n : forall x,
  0 <= x < 256 ^ Z.of_nat n -> be_value (be_bytes n x) = x.
Proof.
  induction n as [|n IH]; intros x Hx.
  - simpl in *. unfold be_value. simpl. lia.
  - simpl be_bytes. rewrite be_value_snoc, IH.
    + pose proof (Z.div_mod x 256 ltac:(lia)). lia.
    + rewrite Nat2Z.inj_succ, Z.pow_succ_r in Hx by lia.
      split; [apply Z.div_pos; lia|apply Z.div_lt_upper_bound; lia].
Qed.

(** X22.  Compact signatures.  For two scalars below 2^256, the 64 bytes
    that hold them big-endian parse to exactly those scalars when both
    are below the group order; otherwise the parse fails, "invalid r"
    taking precedence over "invalid s". *)
Theorem compact_signature_round_trip r s :
  0 <= r < 2 ^ 256 -> 0 <= s < 2 ^ 256 ->
  parseSecp256k1Signature (be_bytes 32 r ++ be_bytes 32 s)
    = if r >=? secp256k1_N then Err (ErrNew "invalid r")
      else if s >=? secp256k1_N then Err (ErrNew "invalid s")
      else Ok {| sig_r := r; sig_s := s |}.
Proof.
  intros Hr Hs. unfold parseSecp256k1Signature, blen.
  rewrite length_app, !be_bytes_length. simpl Z.eqb. cbv iota.
  rewrite take_app_length' by (symmetry; apply be_bytes_length).
  rewrite drop_app_length' by (symmetry; apply be_bytes_length).
  rewrite !(be_value_be_bytes 32) by (change (256 ^ Z.of_nat 32) with (2 ^ 256); assumption).
  reflexivity.
Qed.

(** [hexutil.Decode] undoes [0x] followed by [hex.EncodeToString]. *)
Lemma hexutil_round_trip bytes :
  is_bytes bytes ->
  hexutil_Decode ("0x" ++ hex_EncodeToString bytes) = Ok bytes.
Proof.
  intros Hbytes. unfold hexutil_Decode, hex_EncodeToString.
  change (list_of_string ("0x" ++ string_of_list (hex_encode bytes)))
    with ("0"%char :: "x"%char :: list_of_string (string_of_list (hex_encode bytes))).
  rewrite EncodingFacts.list_of_string_of_list.
  change ((code "0" =? 48) && ((code "x" =? 120) || (code "x" =? 88))) with true.
  cbv iota. apply AddressFacts.hex_roundtrip. exact Hbytes.
Qed.

(** X23.  The two conventions for the recovery identifier.  An EVM
    signature whose last byte is [v + 27], for [v] below 27, is verified
    exactly as the signature with the same first 64 bytes and last byte
    [v]. *)
Theorem recovery_id_conventions_agree address message body v publicKeyHex :
  List.length body = 64%nat -> is_bytes body -> 0 <= v < 27 ->
  VerifySignature WalletTypeEVM address message
      ("0x" ++ hex_EncodeToString (body ++ [v + 27])) publicKeyHex
    = VerifySignature WalletTypeEVM address message
        ("0x" ++ hex_EncodeToString (body ++ [v])) publicKeyHex.
Proof.
  intros Hlen Hbody Hv. rewrite !AuthFacts.VerifySignature_evm. unfold verifyEVM.
  rewrite !hexutil_round_trip
    by (apply Forall_app; split; [exact Hbody|constructor; [lia|constructor]]).
  unfold blen. rewrite !length_app, Hlen. simpl Z.eqb. simpl negb. cbv iota.
  assert (Hhigh : normalize_v (body ++ [v + 27]) = body ++ [v]).
  { unfold normalize_v.
    rewrite lookup_app_r by lia. rewrite Hlen. simpl.
    destruct (v + 27 >=? 27) eqn:Hge; [|lia].
    rewrite insert_app_r_alt by lia. rewrite Hlen. simpl. f_equal. f_equal. lia. }
  assert (Hlow : normalize_v (body ++ [v]) = body ++ [v]).
  { unfold normalize_v.
    rewrite lookup_app_r by lia. rewrite Hlen. simpl.
    destruct (v >=? 27) eqn:Hge; [lia|reflexivity]. }
  rewrite Hhigh, Hlow. reflexivity.
Qed.

End Verifiers.

Lemma decodeHex_round_trip_witness :
  decodeHex (" " ++ hex_EncodeToString [1; 171] ++ " ") = Ok [1; 171] /\
  decodeHex (" " ++ "0x" ++ hex_EncodeToString [1; 171] ++ " ") = Ok [1; 171].
Proof.
  apply (decodeHex_round_trip [1; 171] " " " ").
  - discriminate.
  - repeat constructor; lia.
  - repeat constructor.
  - repeat constructor.
Defined.

Lemma evm_signature_text_witness :
  exists digits,
    (Scenarios.sample_signature = ("0x" ++ digits)%string \/
     Scenarios.sample_signature = ("0X" ++ digits)%string) /\
    String.length digits = 130%nat.
Proof.
  apply (@evm_signature_text Scenarios.sample_crypto Scenarios.sample_address
           "login" Scenarios.sample_signature "").
  vm_compute. reflexivity.
Defined.

Lemma stellar_verification_ignores_address_witness :
  @VerifySignature Scenarios.sample_crypto WalletTypeStellarEd25519
      "GALICE" "login" "00" "00"
    = @VerifySignature Scenarios.sample_crypto WalletTypeStellarEd25519
      "GMALLORY" "login" "00" "00".
Proof.
  apply (@stellar_verification_ignores_address Scenarios.sample_crypto
           WalletTypeStellarEd25519 "GALICE" "GMALLORY" "login" "00" "00").
  discriminate.
Defined.

Lemma compact_signature_round_trip_witness :
  @parseSecp256k1Signature Scenarios.sample_crypto (be_bytes 32 1 ++ be_bytes 32 2)
    = Ok {| sig_r := 1; sig_s := 2 |}.
Proof.
  apply (@compact_signature_round_trip Scenarios.sample_crypto 1 2); lia.
Defined.

Lemma recovery_id_conventions_agree_witness :
  @VerifySignature Scenarios.sample_crypto WalletTypeEVM Scenarios.sample_address "login"
      ("0x" ++ hex_EncodeToString (List.repeat 7 64 ++ [1 + 27])) ""
    = @VerifySignature Scenarios.sample_crypto WalletTypeEVM Scenarios.sample_address "login"
        ("0x" ++ hex_EncodeToString (List.repeat 7 64 ++ [1])) "".
Proof.
  apply (@recovery_id_conventions_agree Scenarios.sample_crypto Scenarios.sample_address
           "login" (List.repeat 7 64) 1 "").
  - reflexivity.
  - apply List.Forall_forall. intros b Hb. apply repeat_spec in Hb. subst b. lia.
  - lia.
Defined.

End SignatureFacts.

(* ===================================================================== *)
(** ** Further properties of the program escrow client               *)
(* ===================================================================== *)

Module ProgramFacts.

Import Soroban.

Section Client.
Variable env : Env.
Variable codec : Codec.
Variable cfg : RetryConfig.
Variable contractAddress : string.
Variable fuel : nat.

Ltac run_attempt :=
  unfold submit_attempt, backoff_wait, bind, slog, emit, ret, select_ctx_or,
    SubmitTransaction, time_Now, record_event; simpl.

(** *** What a submission leaves behind *)

(** An attempt does not look a transaction up. *)
Lemma submit_attempt_details tx attempt delay st :
  st_details (snd (submit_attempt env cfg tx attempt delay st)) = st_details st.
Proof.
  run_attempt.
  destruct (0 <? attempt); simpl;
    [destruct (env_select env (st_selects st)); simpl; [reflexivity|]|];
    (destruct (env_SubmitTransaction env (st_submits st) tx) as [resp|[]]; simpl;
     try destruct (isNonRetryableError _); simpl; reflexivity).
Qed.

Lemma submit_loop_details tx : forall n attempt delay last st,
  st_details (snd (submit_loop env cfg tx n attempt delay last st)) = st_details st.
Proof.
  induction n as [|n IH]; intros attempt delay last st; [reflexivity|].
  simpl. unfold bind.
  pose proof (submit_attempt_details tx attempt delay st) as Hd.
  destruct (submit_attempt env cfg tx attempt delay st) as [[r|[d e]] st1]; simpl in *.
  - exact Hd.
  - rewrite IH. exact Hd.
Qed.

Lemma BuildAndSubmit_details operations st :
  st_details (snd (BuildAndSubmit env cfg operations st)) = st_details st.
Proof.
  unfold BuildAndSubmit.
  destruct (env_AccountDetail env) as [acc|]; [|reflexivity].
  destruct (env_NewTransaction env acc operations) as [tx|]; [|reflexivity].
  destruct (env_Sign env tx) as [tx'|]; [|reflexivity].
  apply submit_loop_details.
Qed.

(** A submitted result is pending and carries no confirmation time. *)
Lemma submit_loop_unconfirmed tx : forall n attempt delay last st r,
  fst (submit_loop env cfg tx n attempt delay last st) = Ok r ->
  Status r = "pending" /\ Confirmed r = None /\ Submitted r <> None.
Proof.
  induction n as [|n IH]; intros attempt delay last st r; simpl; [discriminate|].
  unfold bind.
  destruct (submit_attempt env cfg tx attempt delay st) as [[r'|[d e]] st1] eqn:Hs; simpl.
  - intros ->. apply TxFacts.submit_attempt_Return in Hs.
    destruct Hs as [(_ & _ & Hr & _)|(_ & _ & [(resp & _ & now & Hr)|(p & _ & _ & Hr)])];
      try discriminate.
    injection Hr as ->. repeat split. discriminate.
  - apply IH.
Qed.

Lemma BuildAndSubmit_unconfirmed operations st r :
  fst (BuildAndSubmit env cfg operations st) = Ok r ->
  Status r = "pending" /\ Confirmed r = None /\ Submitted r <> None.
Proof.
  unfold BuildAndSubmit.
  destruct (env_AccountDetail env) as [acc|]; [|discriminate].
  destruct (env_NewTransaction env acc operations) as [tx|]; [|discriminate].
  destruct (env_Sign env tx) as [tx'|]; [|discriminate].
  apply submit_loop_unconfirmed.
Qed.

(** A submitted result carries the hash of a response Horizon gave. *)
Lemma BuildAndSubmit_hash operations st r :
  fst (BuildAndSubmit env cfg operations st) = Ok r ->
  exists (i : nat) tx resp,
    env_SubmitTransaction env i tx = Ok resp /\ Hash r = tx_Hash resp.
Proof.
  unfold BuildAndSubmit.
  destruct (env_AccountDetail env) as [acc|]; [|discriminate].
  destruct (env_NewTransaction env acc operations) as [tx|]; [|discriminate].
  destruct (env_Sign env tx) as [tx'|]; [|discriminate].
  unfold submitWithRetry. intros Hr.
  pose proof (RetryFacts.submit_loop_outcome env cfg tx'
                (Z.to_nat (MaxRetries cfg + 1)) 0 (InitialDelay cfg) None st) as Hout.
  rewrite Hr in Hout. destruct Hout as (_ & _ & i & resp & Hresp & Hhash & _).
  exists i, tx', resp. auto.
Qed.

(** A confirmed result says "success" and carries both times. *)
Lemma wait_loop_confirmed txHash deadline : forall n st r,
  fst (wait_loop env n txHash deadline st) = Some (Ok r) ->
  Status r = "success" /\ Confirmed r <> None /\ Submitted r <> None /\ Hash r = txHash.
Proof.
  induction n as [|n IH]; intros st r; simpl; [discriminate|].
  unfold bind.
  destruct (wait_tick env txHash deadline st) as [[r'|[]] st1] eqn:Ht; simpl.
  - intros [= ->]. apply ConfirmFacts.wait_tick_Return in Ht.
    destruct Ht as [(_ & Hr & _)|[(_ & _ & Hr & _)|(_ & _ & tx & _ & Hr & _)]];
      try discriminate.
    injection Hr as ->. repeat split; discriminate.
  - apply IH.
Qed.

(** The common tail of the three operations that wait. *)
Lemma submit_and_confirm_result op st r :
  fst (submit_and_confirm env cfg fuel op st) = Some (Ok r) ->
  ((Status r = "pending" /\ Confirmed r = None /\ Submitted r <> None) \/
   (Status r = "success" /\ Confirmed r <> None /\ Submitted r <> None)) /\
  exists (i : nat) tx resp,
    env_SubmitTransaction env i tx = Ok resp /\ Hash r = tx_Hash resp.
Proof.
  unfold submit_and_confirm, bind.
  destruct (BuildAndSubmit env cfg [op] st) as [[result|err] st1] eqn:Hb; simpl;
    [|discriminate].
  pose proof (BuildAndSubmit_unconfirmed [op] st result) as Hp.
  pose proof (BuildAndSubmit_hash [op] st result) as Hh.
  rewrite Hb in Hp, Hh. specialize (Hp eq_refl). specialize (Hh eq_refl).
  destruct (WaitForConfirmation env fuel (Hash result) (60 * Second) st1)
    as [[[confirmed|err]|] st2] eqn:Hw; simpl.
  - intros [= <-].
    pose proof (wait_loop_confirmed (Hash result)
                  (env_now env (st_clock_reads st1) + 60 * Second) fuel (loop_start st1)
                  confirmed) as Hc.
    rewrite <- ConfirmFacts.WaitForConfirmation_unfold, Hw in Hc.
    destruct (Hc eq_refl) as (H1 & H2 & H3 & H4).
    split; [right; auto|]. rewrite H4. exact Hh.
  - unfold slog, emit. simpl. intros [= <-]. split; [left; exact Hp|exact Hh].
  - discriminate.
Qed.

Lemma submit_and_confirm_error op st e :
  fst (submit_and_confirm env cfg fuel op st) = Some (Err e) ->
  exists cause, e = ErrWrap "failed to submit transaction" cause.
Proof.
  unfold submit_and_confirm, bind.
  destruct (BuildAndSubmit env cfg [op] st) as [[result|err] st1]; simpl.
  - destruct (WaitForConfirmation env fuel (Hash result) (60 * Second) st1)
      as [[[confirmed|err]|] st2]; simpl; discriminate.
  - intros [= <-]. eauto.
Qed.

(** The encoding loops stop at the first value that fails to encode and
    name its index. *)
Lemma encode_each_first_error {A} (enc : A -> result ScVal) msg :
  forall l i0 (i : nat) p e,
    l !! i = Some p -> enc p = Err e ->
    (forall (j : nat) q, (j < i)%nat -> l !! j = Some q -> is_ok (enc q) = true) ->
    encode_each enc msg i0 l = Err (ErrWrapAt msg (i0 + Z.of_nat i) e).
Proof.
  induction l as [|a l IH]; intros i0 i p e Hi He Hbefore; [discriminate|].
  destruct i as [|i]; simpl in Hi.
  - injection Hi as ->. simpl. rewrite He. rewrite Z.add_0_r. reflexivity.
  - simpl. pose proof (Hbefore 0%nat a ltac:(lia) eq_refl) as Ha.
    destruct (enc a) as [v|]; [|discriminate].
    rewrite (IH (i0 + 1) i p e Hi He).
    + f_equal. f_equal. lia.
    + intros j q Hj Hq. apply (Hbefore (S j) q); [lia|exact Hq].
Qed.

Ltac run_call :=
  unfold InitProgram, LockProgramFunds, SinglePayout, BatchPayout,
    LogContractInteraction, bind, slog, emit, ret; simpl.

(** What is left to prove about a call that returned [e] in state [out]
    once it is known where it returned. *)
Ltac settle Hwrap :=
  match goal with
  | |- _ = (_, _) -> _ =>
      let Heq := fresh "Heq" in
      intros Heq;
      first
        [ injection Heq as <- <-; simpl; repeat split; reflexivity
        | exfalso;
          match type of Heq with
          | ?call = _ =>
              let Hf := fresh "Hf" in
              assert (Hf : fst call = Some (Err _)) by (rewrite Heq; reflexivity);
              apply submit_and_confirm_error in Hf; destruct Hf as [cause ->];
              exact (Hwrap cause eq_refl)
          end ]
  end.

(** X24.  [InitProgram] does not wait for the confirmation: whatever it
    returns, it has not looked the transaction up, and a result it
    returns is the pending one of the submission, with no confirmation
    time. *)
Theorem InitProgram_does_not_wait programID authorizedPayoutKey tokenAddress st :
  st_details (snd (InitProgram env codec cfg contractAddress
                     programID authorizedPayoutKey tokenAddress st)) = st_details st /\
  forall r,
    fst (InitProgram env codec cfg contractAddress
           programID authorizedPayoutKey tokenAddress st) = Ok r ->
    Status r = "pending" /\ Confirmed r = None.
Proof.
  run_call.
  destruct (EncodeContractAddress contractAddress) as [contractAddr|];
    [|split; [reflexivity|discriminate]].
  destruct (EncodeScValString codec programID) as [v1|];
    [|split; [reflexivity|discriminate]].
  destruct (EncodeScValAddress codec authorizedPayoutKey) as [v2|];
    [|split; [reflexivity|discriminate]].
  destruct (EncodeScValAddress codec tokenAddress) as [v3|];
    [|split; [reflexivity|discriminate]].
  destruct (BuildInvokeHostFunctionOp codec contractAddr "init_program" [v1; v2; v3])
    as [op|]; [|split; [reflexivity|discriminate]].
  set (st0 := record_event _ st).
  pose proof (BuildAndSubmit_unconfirmed [op] st0) as Hp.
  pose proof (BuildAndSubmit_details [op] st0) as Hd.
  destruct (BuildAndSubmit env cfg [op] st0) as [[result|err] st1]; simpl in *.
  - split; [exact Hd|]. intros r [= ->]. destruct (Hp r eq_refl) as (H1 & H2 & _). auto.
  - split; [exact Hd|discriminate].
Qed.

(** X25.  What the waiting operations return.  A result returned by
    [LockProgramFunds], [SinglePayout] or [BatchPayout] is either the
    pending result of the submission, with no confirmation time, or a
    confirmed result with status "success" and a confirmation time; in
    both cases it carries a submission time and the hash of a response
    Horizon gave to a submission. *)
Theorem returned_result_is_pending_or_confirmed st r :
  (exists amount,
     fst (LockProgramFunds env codec cfg contractAddress fuel amount st) = Some (Ok r)) \/
  (exists recipientAddress amount,
     fst (SinglePayout env codec cfg contractAddress fuel recipientAddress amount st)
       = Some (Ok r)) \/
  (exists payouts,
     fst (BatchPayout env codec cfg contractAddress fuel payouts st) = Some (Ok r)) ->
  ((Status r = "pending" /\ Confirmed r = None /\ Submitted r <> None) \/
   (Status r = "success" /\ Confirmed r <> None /\ Submitted r <> None)) /\
  exists (i : nat) tx resp,
    env_SubmitTransaction env i tx = Ok resp /\ Hash r = tx_Hash resp.
Proof.
  intros [[amount Hr]|[[recipient [amount Hr]]|[payouts Hr]]]; revert Hr; run_call.
  - destruct (EncodeContractAddress contractAddress) as [contractAddr|]; [|discriminate].
    destruct (EncodeScValInt64 codec amount) as [v|]; [|discriminate].
    destruct (BuildInvokeHostFunctionOp codec contractAddr _ _) as [op|]; [|discriminate].
    apply submit_and_confirm_result.
  - destruct (EncodeContractAddress contractAddress) as [contractAddr|]; [|discriminate].
    destruct (EncodeScValAddress codec recipient) as [v1|]; [|discriminate].
    destruct (EncodeScValInt64 codec amount) as [v2|]; [|discriminate].
    destruct (BuildInvokeHostFunctionOp codec contractAddr _ _) as [op|]; [|discriminate].
    apply submit_and_confirm_result.
  - destruct payouts as [|p payouts]; [discriminate|].
    destruct (EncodeContractAddress contractAddress) as [contractAddr|]; [|discriminate].
    destruct (encode_each _ "failed to encode recipient" 0 (p :: payouts)) as [rs|];
      [|discriminate].
    destruct (EncodeScValVec codec rs) as [rv|]; [|discriminate].
    destruct (encode_each _ "failed to encode amount" 0 (p :: payouts)) as [ams|];
      [|discriminate].
    destruct (EncodeScValVec codec ams) as [av|]; [|discriminate].
    destruct (BuildInvokeHostFunctionOp codec contractAddr _ _) as [op|]; [|discriminate].
    apply submit_and_confirm_result.
Qed.

(** X26.  Errors that precede the submission.  When one of the four
    operations returns an error other than "failed to submit
    transaction", nothing was sent: no transaction was submitted, none
    was looked up, and no wait took place. *)
Theorem other_errors_submit_nothing st e out :
  (exists programID authorizedPayoutKey tokenAddress,
     InitProgram env codec cfg contractAddress programID authorizedPayoutKey tokenAddress st
       = (Err e, out)) \/
  (exists amount,
     LockProgramFunds env codec cfg contractAddress fuel amount st = (Some (Err e), out)) \/
  (exists recipientAddress amount,
     SinglePayout env codec cfg contractAddress fuel recipientAddress amount st
       = (Some (Err e), out)) \/
  (exists payouts,
     BatchPayout env codec cfg contractAddress fuel payouts st = (Some (Err e), out)) ->
  (forall cause, e <> ErrWrap "failed to submit transaction" cause) ->
  st_submits out = st_submits st /\ st_details out = st_details st /\
  st_selects out = st_selects st.
Proof.
  intros Hcall Hwrap.
  destruct Hcall as [(programID & key & token & Hr)|[(amount & Hr)
                    |[(recipient & amount & Hr)|(payouts & Hr)]]]; revert Hr; run_call.
  - destruct (EncodeContractAddress contractAddress) as [contractAddr|]; [|settle Hwrap].
    destruct (EncodeScValString codec programID) as [v1|]; [|settle Hwrap].
    destruct (EncodeScValAddress codec key) as [v2|]; [|settle Hwrap].
    destruct (EncodeScValAddress codec token) as [v3|]; [|settle Hwrap].
    destruct (BuildInvokeHostFunctionOp codec contractAddr _ _) as [op|]; [|settle Hwrap].
    destruct (BuildAndSubmit env cfg [op] _) as [[result|err] st1]; simpl.
    + discriminate.
    + intros [= <- <-]. exfalso. exact (Hwrap err eq_refl).
  - destruct (EncodeContractAddress contractAddress) as [contractAddr|]; [|settle Hwrap].
    destruct (EncodeScValInt64 codec amount) as [v|]; [|settle Hwrap].
    destruct (BuildInvokeHostFunctionOp codec contractAddr _ _) as [op|]; settle Hwrap.
  - destruct (EncodeContractAddress contractAddress) as [contractAddr|]; [|settle Hwrap].
    destruct (EncodeScValAddress codec recipient) as [v1|]; [|settle Hwrap].
    destruct (EncodeScValInt64 codec amount) as [v2|]; [|settle Hwrap].
    destruct (BuildInvokeHostFunctionOp codec contractAddr _ _) as [op|]; settle Hwrap.
  - destruct payouts as [|p payouts]; [settle Hwrap|].
    destruct (EncodeContractAddress contractAddress) as [contractAddr|]; [|settle Hwrap].
    destruct (encode_each _ "failed to encode recipient" 0 (p :: payouts)) as [rs|];
      [|settle Hwrap].
    destruct (EncodeScValVec codec rs) as [rv|]; [|settle Hwrap].
    destruct (encode_each _ "failed to encode amount" 0 (p :: payouts)) as [ams|];
      [|settle Hwrap].
    destruct (EncodeScValVec codec ams) as [av|]; [|settle Hwrap].
    destruct (BuildInvokeHostFunctionOp codec contractAddr _ _) as [op|]; settle Hwrap.
Qed.

(** X27.  The recipient that [BatchPayout] reports.  With a valid
    contract address, when the recipient at index [i] does not encode
    and every recipient before it does, the call returns "failed to
    encode recipient i" wrapping that encoder's error, whatever the
    amounts are, and does nothing but log the call. *)
Theorem BatchPayout_reports_first_bad_recipient payouts st contractAddr (i : nat) p e :
  EncodeContractAddress contractAddress = Ok contractAddr ->
  payouts !! i = Some p ->
  EncodeScValAddress codec (Recipient p) = Err e ->
  (forall (j : nat) q, (j < i)%nat -> payouts !! j = Some q ->
     is_ok (EncodeScValAddress codec (Recipient q)) = true) ->
  BatchPayout env codec cfg contractAddress fuel payouts st
    = (Some (Err (ErrWrapAt "failed to encode recipient" (Z.of_nat i) e)),
       record_event (EvLog "INFO" "contract interaction: batch_payout") st).
Proof.
  intros Haddr Hi He Hbefore. run_call.
  destruct payouts as [|p0 payouts]; [discriminate|].
  rewrite Haddr.
  rewrite (encode_each_first_error (fun p => EncodeScValAddress codec (Recipient p))
             "failed to encode recipient" (p0 :: payouts) 0 i p e Hi He Hbefore).
  reflexivity.
Qed.

End Client.

Lemma InitProgram_does_not_wait_witness :
  fst (InitProgram Scenarios.unconfirmed_env Scenarios.sample_codec
         DefaultRetryConfig Scenarios.sample_contract
         "hackathon" "GPAYOUT" "CTOKEN" init_state)
    = Ok {| Hash := "abc123"; Ledger := 777; Status := "pending";
            Submitted := Some 0; Confirmed := None |} /\
  st_details (snd (InitProgram Scenarios.unconfirmed_env Scenarios.sample_codec
                     DefaultRetryConfig Scenarios.sample_contract
                     "hackathon" "GPAYOUT" "CTOKEN" init_state)) = 0%nat.
Proof.
  split; [vm_compute; reflexivity|].
  apply (InitProgram_does_not_wait Scenarios.unconfirmed_env Scenarios.sample_codec
           DefaultRetryConfig Scenarios.sample_contract
           "hackathon" "GPAYOUT" "CTOKEN" init_state).
Defined.

Lemma returned_result_is_pending_or_confirmed_witness :
  let r := {| Hash := "abc123"; Ledger := 778; Status := "success";
              Submitted := Some (6 * Second); Confirmed := Some (8 * Second) |} in
  ((Status r = "pending" /\ Confirmed r = None /\ Submitted r <> None) \/
   (Status r = "success" /\ Confirmed r <> None /\ Submitted r <> None)) /\
  exists (i : nat) tx resp,
    env_SubmitTransaction Scenarios.failed_tx_env i tx = Ok resp /\ Hash r = tx_Hash resp.
Proof.
  apply (returned_result_is_pending_or_confirmed Scenarios.failed_tx_env
           Scenarios.sample_codec DefaultRetryConfig Scenarios.sample_contract 40
           init_state).
  left. exists 100. vm_compute. reflexivity.
Defined.

Lemma other_errors_submit_nothing_witness :
  st_submits (record_event (EvLog "INFO" "contract interaction: lock_program_funds")
                init_state) = 0%nat /\
  st_details (record_event (EvLog "INFO" "contract interaction: lock_program_funds")
                init_state) = 0%nat /\
  st_selects (record_event (EvLog "INFO" "contract interaction: lock_program_funds")
                init_state) = 0%nat.
Proof.
  apply (other_errors_submit_nothing Scenarios.unconfirmed_env Scenarios.sample_codec
           DefaultRetryConfig "not a contract" 40 init_state
           (ErrWrap "invalid contract address"
              (ErrWrap "invalid contract ID format (expected hex or base64)"
                 (ErrNew "illegal base64 data")))).
  - right. left. exists 100. vm_compute. reflexivity.
  - discriminate.
Defined.

Lemma BatchPayout_reports_first_bad_recipient_witness :
  BatchPayout Scenarios.unconfirmed_env Scenarios.strict_codec DefaultRetryConfig
    Scenarios.sample_contract 40
    [ {| Recipient := "GALICE"; Amount := 20 |};
      {| Recipient := "GBAD"; Amount := 10 |};
      {| Recipient := "GBAD"; Amount := 5 |} ] init_state
  = (Some (Err (ErrWrapAt "failed to encode recipient" 1 (ErrNew "invalid address"))),
     record_event (EvLog "INFO" "contract interaction: batch_payout") init_state).
Proof.
  apply (BatchPayout_reports_first_bad_recipient Scenarios.unconfirmed_env
           Scenarios.strict_codec DefaultRetryConfig Scenarios.sample_contract 40
           _ init_state
           (contract_address
              [0; 17; 34; 51; 68; 85; 102; 119; 136; 153; 170; 187; 204; 221; 238; 255;
               0; 17; 34; 51; 68; 85; 102; 119; 136; 153; 170; 187; 204; 221; 238; 255])
           1 {| Recipient := "GBAD"; Amount := 10 |} (ErrNew "invalid address")).
  - vm_compute. reflexivity.
  - reflexivity.
  - reflexivity.
  - intros j q Hj Hq. destruct j as [|j]; [|lia].
    injection Hq as <-. reflexivity.
Defined.

End ProgramFacts.
